(** * mcwebchunk: the tile image cache (cache.go)

    A shallow embedding of the cache actor [imageCacheProcessor], its I/O
    worker [imageCacheWorker], the blocking client adapter and the disk
    codec ([cacheGetFilename], [cacheSave], [cacheLoad]), followed by the
    properties of the cache that the specification states.

    Go values are modelled as follows.
    - [int] is a 64-bit two's complement integer: a [Z] with the wrap-around
      of [+] and [*] written out ([GoInt.wrap]).
    - [*image.RGBA] is an optional address ([None] is [nil]) into a heap of
      rasters; a raster is its bounds rectangle and its pixels.
    - [map[K]V] is a [gmap]; [range] enumerates it in an order the
      environment chooses.
    - channels are queues; the reply channel of a request records what was
      sent on it and whether it was closed.
    - the file system is a finite map from path names to file contents,
      with the list of the calls made on it.
    - a run-time panic (nil dereference, index out of range, send on or
      close of a closed channel) is an explicit outcome. *)

From Stdlib Require Import ZArith Lia Ascii String.
From stdpp Require Import gmap strings list fin_maps.

Local Open Scope Z_scope.

(** ** Go's [int] *)

Module GoInt.

Definition wrap (z : Z) : Z := (z + 2 ^ 63) mod 2 ^ 64 - 2 ^ 63.

Definition add (a b : Z) : Z := wrap (a + b).
Definition sub (a b : Z) : Z := wrap (a - b).
Definition mul (a b : Z) : Z := wrap (a * b).

(** [a / b] truncates toward zero. Every divisor in cache.go is an entry
    of [powarr], hence positive. *)
Definition quo (a b : Z) : Z := Z.quot a b.

(** [a >> n] on a signed integer is the arithmetic shift. *)
Definition shr (a n : Z) : Z := Z.shiftr a n.

Definition and (a b : Z) : Z := Z.land a b.

Definition in_range (z : Z) : Prop := - 2 ^ 63 <= z < 2 ^ 63.

End GoInt.

(** ** The part of Go's [image] and [image/draw] packages that cache.go uses *)

Module image.

Record Point := mkPoint { X : Z; Y : Z }.

Record Rectangle := mkRectangle { Min : Point; Max : Point }.

(** [image.Point{}] and [image.ZR] *)
Definition ZP : Point := mkPoint 0 0.
Definition ZR : Rectangle := mkRectangle ZP ZP.

(** [image.Rect(x0, y0, x1, y1)]: the rectangle, with the coordinates
    swapped where needed so that it is well formed. *)
Definition Rect (x0 y0 x1 y1 : Z) : Rectangle :=
  let '(x0, x1) := if x0 >? x1 then (x1, x0) else (x0, x1) in
  let '(y0, y1) := if y0 >? y1 then (y1, y0) else (y0, y1) in
  mkRectangle (mkPoint x0 y0) (mkPoint x1 y1).

Definition Dx (r : Rectangle) : Z := X (Max r) - X (Min r).
Definition Dy (r : Rectangle) : Z := Y (Max r) - Y (Min r).

Definition Empty (r : Rectangle) : bool :=
  (X (Max r) <=? X (Min r)) || (Y (Max r) <=? Y (Min r)).

Definition PtAdd (p q : Point) : Point := mkPoint (X p + X q) (Y p + Y q).
Definition PtSub (p q : Point) : Point := mkPoint (X p - X q) (Y p - Y q).

(** [r.Add(p)] *)
Definition Add (r : Rectangle) (p : Point) : Rectangle :=
  mkRectangle (PtAdd (Min r) p) (PtAdd (Max r) p).

(** [p.In(r)] *)
Definition In (p : Point) (r : Rectangle) : bool :=
  (X (Min r) <=? X p) && (X p <? X (Max r)) &&
  (Y (Min r) <=? Y p) && (Y p <? Y (Max r)).

(** [r.Intersect(s)] *)
Definition Intersect (r s : Rectangle) : Rectangle :=
  let r' :=
    mkRectangle
      (mkPoint (Z.max (X (Min r)) (X (Min s))) (Z.max (Y (Min r)) (Y (Min s))))
      (mkPoint (Z.min (X (Max r)) (X (Max s))) (Z.min (Y (Max r)) (Y (Max s)))) in
  if Empty r' then ZR else r'.

(** [color.RGBA]: four 8-bit channels, alpha-premultiplied. *)
Record Color := mkColor { R : Z; G : Z; B : Z; A : Z }.

Definition Transparent : Color := mkColor 0 0 0 0.

(** [image.RGBA]. The byte slice [Pix] with its [Stride] is read through
    the pixel it stores at each point of [Rect]; images made by
    [NewRGBA] or by the decoder have the packed layout, for which
    [copy(ret.Pix, img.Pix)] between equal rectangles copies pixel by
    pixel. *)
Record RGBA := mkRGBA { Pix : Z -> Z -> Color; RGBA_Rect : Rectangle }.

(** [image.NewRGBA(r)]: all bytes zero. *)
Definition NewRGBA (r : Rectangle) : RGBA := mkRGBA (fun _ _ => Transparent) r.

(** [img.RGBAAt(x, y)]: the zero colour outside the bounds. *)
Definition RGBAAt (img : RGBA) (x y : Z) : Color :=
  if In (mkPoint x y) (RGBA_Rect img) then Pix img x y else Transparent.

End image.

Module draw.
Import image.

Inductive Op := Over | Src.

(** One channel of [drawCopyOver]: with [m = 1<<16 - 1],
    [d = uint8((uint32(d)*a/m + s*0x101) >> 8)] where
    [a = (m - sa*0x101) * 0x101]. *)
Definition over_channel (d s sa : Z) : Z :=
  let m := 65535 in
  let a := (m - sa * 257) * 257 in
  (Z.shiftr (d * a / m + s * 257) 8) mod 256.

Definition compose (op : Op) (d s : Color) : Color :=
  match op with
  | Src => s
  | Over =>
      mkColor (over_channel (R d) (R s) (A s)) (over_channel (G d) (G s) (A s))
              (over_channel (B d) (B s) (A s)) (over_channel (A d) (A s) (A s))
  end.

(** [clip]: the part of [r] inside [dst] and inside [src] once [r.Min] is
    aligned with [sp]; [sp] moves with [r.Min]. *)
Definition clip (dst : RGBA) (r : Rectangle) (src : RGBA) (sp : Point)
  : Rectangle * Point :=
  let orig := Min r in
  let r := Intersect r (RGBA_Rect dst) in
  let r := Intersect r (Add (RGBA_Rect src) (PtSub orig sp)) in
  let dx := X (Min r) - X orig in
  let dy := Y (Min r) - Y orig in
  (r, mkPoint (X sp + dx) (Y sp + dy)).

(** [draw.Draw(dst, r, src, sp, op)]: the value of [dst] afterwards. *)
Definition Draw (dst : RGBA) (r : Rectangle) (src : RGBA) (sp : Point) (op : Op)
  : RGBA :=
  let '(r, sp) := clip dst r src sp in
  if Empty r then dst
  else
    mkRGBA
      (fun x y =>
         if In (mkPoint x y) r
         then compose op (Pix dst x y)
                (RGBAAt src (x - X (Min r) + X sp) (y - Y (Min r) + Y sp))
         else Pix dst x y)
      (RGBA_Rect dst).

End draw.

(** ** [strconv.FormatInt(i, 10)] *)

Module strconv.

Definition digit (d : Z) : ascii := ascii_of_nat (48 + Z.to_nat d).
#[global] Arguments digit : simpl never.

(** The loop of [formatBits] in base 10: the low digit is written in front
    of what is already there while [u >= 10]. At most [fuel] digits. *)
Fixpoint formatBits (fuel : nat) (u : Z) (acc : string) : string :=
  match fuel with
  | O => acc
  | S fuel' =>
      if 10 <=? u
      then formatBits fuel' (u / 10) (String (digit (u mod 10)) acc)
      else String (digit u) acc
  end.

Definition FormatUint (u : Z) : string :=
  formatBits (S (Z.to_nat (Z.log2 u))) u EmptyString.

Definition FormatInt (i : Z) : string :=
  if i <? 0 then String "-" (FormatUint (- i)) else FormatUint i.

(** Reading a string of decimal digits back. *)
Definition digit_value (c : ascii) : option Z :=
  let n := Z.of_nat (nat_of_ascii c) in
  if (48 <=? n) && (n <=? 57) then Some (n - 48) else None.

Fixpoint digits_value (acc : Z) (s : string) : option Z :=
  match s with
  | EmptyString => Some acc
  | String c s' =>
      match digit_value c with
      | Some d => digits_value (acc * 10 + d) s'
      | None => None
      end
  end.

Definition decimal_value (s : string) : option Z :=
  match s with
  | EmptyString => None
  | String c s' =>
      if Ascii.eqb c "-"
      then match s' with
           | EmptyString => None
           | _ => Z.opp <$> digits_value 0 s'
           end
      else digits_value 0 s
  end.

(** A decimal numeral without leading zeros: ["0"], or an optional ['-']
    followed by digits the first of which is not ['0']. *)
Fixpoint all_digits (s : string) : bool :=
  match s with
  | EmptyString => true
  | String c s' => bool_decide (is_Some (digit_value c)) && all_digits s'
  end.

Definition canonical_unsigned (s : string) : bool :=
  match s with
  | EmptyString => false
  | String c _ => negb (Ascii.eqb c "0") && all_digits s
  end.

Definition canonical_decimal (s : string) : bool :=
  match s with
  | EmptyString => false
  | String c s' =>
      if Ascii.eqb c "-" then canonical_unsigned s'
      else String.eqb s "0" || canonical_unsigned s
  end.

End strconv.

(** ** [path.Join], [path.Clean] and [path.Dir] *)

Module path.

Definition slash : ascii := "/"%char.

(** The elements of a path: the substrings between slashes. *)
Fixpoint split (s : string) : list string :=
  match s with
  | EmptyString => [EmptyString]
  | String a s' =>
      if Ascii.eqb a slash then EmptyString :: split s'
      else match split s' with
           | h :: t => String a h :: t
           | [] => [String a EmptyString]
           end
  end.

Fixpoint join (elems : list string) : string :=
  match elems with
  | [] => EmptyString
  | [e] => e
  | e :: rest => e +:+ String slash (join rest)
  end.

(** One element of the input of [Clean], [out] being the elements kept so
    far, last first: empty and ["."] elements are dropped; [".."] removes
    the last kept element when there is one that is not itself [".."],
    is kept when the path is not rooted, and is dropped at the root. *)
Definition clean_step (rooted : bool) (out : list string) (e : string)
  : list string :=
  if bool_decide (e = EmptyString ∨ e = ".") then out
  else if bool_decide (e = "..") then
    match out with
    | top :: rest => if bool_decide (top = "..") then e :: out else rest
    | [] => if rooted then [] else [e]
    end
  else e :: out.

Definition Clean (p : string) : string :=
  let rooted := match p with String a _ => Ascii.eqb a slash | _ => false end in
  let out := rev (fold_left (clean_step rooted) (split p) []) in
  if rooted then String slash (join out)
  else match out with [] => "." | _ => join out end.

(** [Join]: elements are appended with a slash between them, empty
    elements before the first non-empty one are skipped, and the result is
    cleaned. *)
Definition Join (elem : list string) : string :=
  if forallb (fun e => bool_decide (e = EmptyString)) elem then EmptyString
  else
    Clean (fold_left
             (fun buf e =>
                if bool_decide (buf ≠ EmptyString) then buf +:+ String slash e
                else if bool_decide (e ≠ EmptyString) then e
                else buf)
             elem EmptyString).

(** Paths that [Clean] leaves as they are when they follow other
    elements: elements separated by single slashes, none of them empty,
    ["."] or [".."]. A name without a slash that is not one of these
    three is such a path. *)
Fixpoint no_slash (s : string) : bool :=
  match s with
  | EmptyString => true
  | String a s' => negb (Ascii.eqb a slash) && no_slash s'
  end.

Definition clean_element (e : string) : bool :=
  negb (bool_decide (e = EmptyString ∨ e = ".")) && negb (bool_decide (e = "..")).

Definition clean_path (p : string) : bool := forallb clean_element (split p).

(** [Dir]: the path up to and including its last slash, cleaned. *)
Definition Dir (p : string) : string :=
  match rev (split p) with
  | _file :: ((_ :: _) as rdir) => Clean (join (rev rdir) +:+ String slash EmptyString)
  | _ => Clean EmptyString
  end.

End path.


(** ** The cache's data (cache.go, lines 41-67) *)

Definition imageCacheMaxCache : Z := 512.
Definition imageCacheStorageLevel : Z := 5.
Definition powarr : list Z :=
  [1; 2; 4; 8; 16; 32; 64; 128; 256; 512; 1024; 2048; 4096].

(** Addresses of rasters and identities of channels. *)
Definition ptr := positive.
Definition chan := positive.

(** [time.Time], compared with [After]; the zero value is [0]. *)
Definition Time := Z.
Definition After (t u : Time) : bool := u <? t.

Record cachedImage := mkCachedImage {
  img : option ptr;
  syncedToDisk : bool;
  lastUse : Time
}.

Record imageLoc := mkImageLoc {
  World_ : string; Dimension : string; Layer : string;
  S_ : Z; X_ : Z; Z_ : Z
}.

Record imageTask := mkImageTask {
  loc : imageLoc;
  task_img : option ptr;
  ret : option chan
}.

(** The zero values [cachedImage{}] and [imageLoc{}]. *)
Definition zero_cachedImage : cachedImage := mkCachedImage None false 0.
Definition zero_imageLoc : imageLoc := mkImageLoc EmptyString EmptyString EmptyString 0 0 0.

Definition set_img (i : cachedImage) (p : option ptr) : cachedImage :=
  mkCachedImage p (syncedToDisk i) (lastUse i).
Definition set_syncedToDisk (i : cachedImage) (b : bool) : cachedImage :=
  mkCachedImage (img i) b (lastUse i).
Definition set_lastUse (i : cachedImage) (t : Time) : cachedImage :=
  mkCachedImage (img i) (syncedToDisk i) t.

Definition imageLoc_to_tuple (l : imageLoc) : string * string * string * Z * Z * Z :=
  (World_ l, Dimension l, Layer l, S_ l, X_ l, Z_ l).
Definition imageLoc_of_tuple (t : string * string * string * Z * Z * Z) : imageLoc :=
  let '(w, d, l, s, x, z) := t in mkImageLoc w d l s x z.

#[global] Instance imageLoc_eq_dec : EqDecision imageLoc.
Proof. solve_decision. Defined.

#[global] Instance imageLoc_countable : Countable imageLoc.
Proof.
  apply (inj_countable' imageLoc_to_tuple imageLoc_of_tuple).
  intros []; reflexivity.
Defined.

(** ** The file system *)

Inductive error := ErrNotExist | ErrOther.

(** What a file holds: the PNG encoding of a raster, or bytes that do not
    decode (a file created and not written yet is such a file). *)
Inductive FileData := PNG (r : image.RGBA) | Undecodable.

Inductive syscall :=
| SysMkdirAll (p : string) (perm : Z)
| SysCreate (p : string)
| SysEncode (p : string)
| SysClose (p : string)
| SysOpen (p : string)
| SysRemove (p : string).

Record FS := mkFS {
  files : gmap string FileData;
  dirs : gmap string Z;
  calls : list syscall
}.

Definition fs_call (c : syscall) (f : FS) : FS :=
  mkFS (files f) (dirs f) (calls f ++ [c]).

(** The directories on the way to [p], shortest first: for ["a/b/c"],
    ["a"], ["a/b"] and ["a/b/c"]. *)
Definition ancestors (p : string) : list string :=
  let elems := path.split p in
  (fun n => path.join (take (Datatypes.S n) elems)) <$> seq 0 (length elems).

(** [os.MkdirAll(p, perm)]: fails when a regular file is in the way;
    otherwise every missing directory on the way is made with [perm]
    (the process's umask is not modelled). *)
Definition MkdirAll (p : string) (perm : Z) (f : FS) : FS * option error :=
  let f := fs_call (SysMkdirAll p perm) f in
  if forallb (fun d => bool_decide (files f !! d = None)) (ancestors p)
  then (mkFS (files f)
             (foldr (fun d ds => match ds !! d with
                                 | Some _ => ds
                                 | None => <[d := perm]> ds
                                 end) (dirs f) (ancestors p))
             (calls f), None)
  else (f, Some ErrOther).

(** [os.Create(p)]: fails on a directory; otherwise the file exists and is
    empty. *)
Definition Create (p : string) (f : FS) : FS * option error :=
  let f := fs_call (SysCreate p) f in
  match dirs f !! p with
  | Some _ => (f, Some ErrOther)
  | None => (mkFS (<[p := Undecodable]> (files f)) (dirs f) (calls f), None)
  end.

(** [png.Encode(file, img)]: refuses an image without pixels. *)
Definition Encode (p : string) (r : image.RGBA) (f : FS) : FS * option error :=
  let f := fs_call (SysEncode p) f in
  if (image.Dx (image.RGBA_Rect r) <=? 0) || (image.Dy (image.RGBA_Rect r) <=? 0)
  then (f, Some ErrOther)
  else (mkFS (<[p := PNG r]> (files f)) (dirs f) (calls f), None).

Definition Close (p : string) (f : FS) : FS * option error :=
  (fs_call (SysClose p) f, None).

(** [os.Open(p)] *)
Definition Open (p : string) (f : FS) : FS * (option FileData * option error) :=
  let f := fs_call (SysOpen p) f in
  match files f !! p with
  | Some d => (f, (Some d, None))
  | None => (f, (None, Some ErrNotExist))
  end.

(** [os.Remove(p)] *)
Definition Remove (p : string) (f : FS) : FS * option error :=
  let f := fs_call (SysRemove p) f in
  match files f !! p with
  | Some _ => (mkFS (delete p (files f)) (dirs f) (calls f), None)
  | None => (f, Some ErrNotExist)
  end.

(** ** The environment of a run *)

Record Env := mkEnv {
  (** [os.Getenv("CACHE_PREFIX")], empty when the variable is not set *)
  CACHE_PREFIX : string;
  (** the value of the n-th call of [time.Now()] *)
  clock : nat -> Time;
  (** the order in which [range] enumerates a map: any order *)
  range_order : gmap imageLoc cachedImage -> list (imageLoc * cachedImage);
  range_order_perm : forall m, range_order m ≡ₚ map_to_list m;
  (** what one pixel becomes when it is encoded as PNG, decoded and
      converted by [imageToRGBA] *)
  png_pixel : image.Color -> image.Color
}.

(** ** The state of a run, and the monad of the code *)

Record ChanState := mkChanState { sent : list ptr; closed : bool }.

Record World := mkWorld {
  heap : gmap ptr image.RGBA;
  fs : FS;
  chans : gmap chan ChanState;
  ticks : nat;
  (** the package-level channel [imageCacheProcess] *)
  imageCacheProcess : list imageTask;
  (** the locals of [imageCacheProcessor] *)
  imageCache : gmap imageLoc cachedImage;
  ioreadwaiting : gmap imageLoc (list chan);
  iotasks : list imageTask;
  ioreturn : list imageTask
}.

Inductive Res (A : Type) :=
| Ok (a : A) (w : World)
| Panic (msg : string).
Arguments Ok {A} a w.
Arguments Panic {A} msg.

Definition M (A : Type) : Type := World -> Res A.

#[global] Instance M_ret : MRet M := fun A a w => Ok a w.
#[global] Instance M_bind : MBind M := fun A B f m w =>
  match m w with
  | Ok a w' => f a w'
  | Panic msg => Panic msg
  end.

Definition panic {A} (msg : string) : M A := fun _ => Panic msg.
Definition gets {A} (f : World -> A) : M A := fun w => Ok (f w) w.
Definition modify (f : World -> World) : M unit := fun w => Ok tt (f w).

Definition with_heap (h : gmap ptr image.RGBA) (w : World) : World :=
  mkWorld h (fs w) (chans w) (ticks w) (imageCacheProcess w) (imageCache w)
          (ioreadwaiting w) (iotasks w) (ioreturn w).
Definition with_fs (f : FS) (w : World) : World :=
  mkWorld (heap w) f (chans w) (ticks w) (imageCacheProcess w) (imageCache w)
          (ioreadwaiting w) (iotasks w) (ioreturn w).
Definition with_chans (c : gmap chan ChanState) (w : World) : World :=
  mkWorld (heap w) (fs w) c (ticks w) (imageCacheProcess w) (imageCache w)
          (ioreadwaiting w) (iotasks w) (ioreturn w).
Definition with_ticks (n : nat) (w : World) : World :=
  mkWorld (heap w) (fs w) (chans w) n (imageCacheProcess w) (imageCache w)
          (ioreadwaiting w) (iotasks w) (ioreturn w).
Definition with_imageCacheProcess (q : list imageTask) (w : World) : World :=
  mkWorld (heap w) (fs w) (chans w) (ticks w) q (imageCache w)
          (ioreadwaiting w) (iotasks w) (ioreturn w).
Definition with_imageCache (m : gmap imageLoc cachedImage) (w : World) : World :=
  mkWorld (heap w) (fs w) (chans w) (ticks w) (imageCacheProcess w) m
          (ioreadwaiting w) (iotasks w) (ioreturn w).
Definition with_ioreadwaiting (m : gmap imageLoc (list chan)) (w : World) : World :=
  mkWorld (heap w) (fs w) (chans w) (ticks w) (imageCacheProcess w) (imageCache w)
          m (iotasks w) (ioreturn w).
Definition with_iotasks (q : list imageTask) (w : World) : World :=
  mkWorld (heap w) (fs w) (chans w) (ticks w) (imageCacheProcess w) (imageCache w)
          (ioreadwaiting w) q (ioreturn w).
Definition with_ioreturn (q : list imageTask) (w : World) : World :=
  mkWorld (heap w) (fs w) (chans w) (ticks w) (imageCacheProcess w) (imageCache w)
          (ioreadwaiting w) (iotasks w) q.

Section Code.

Context (env : Env).

(** *** Primitive operations *)

(** [time.Now()] *)
Definition Now : M Time := fun w =>
  Ok (clock env (ticks w)) (with_ticks (Datatypes.S (ticks w)) w).

(** Reading through a [*image.RGBA]. *)
Definition deref (p : option ptr) : M image.RGBA := fun w =>
  match p with
  | None => Panic "nil pointer dereference"
  | Some a =>
      match heap w !! a with
      | Some r => Ok r w
      | None => Panic "invalid address"
      end
  end.

(** A new raster at an address not in use. *)
Definition new (r : image.RGBA) : M ptr := fun w =>
  let a := fresh (dom (heap w)) in
  Ok a (with_heap (<[a := r]> (heap w)) w).

Definition NewRGBA (r : image.Rectangle) : M (option ptr) :=
  a ← new (image.NewRGBA r); mret (Some a).

(** [draw.Draw] on the heap: [dst] is changed in place. *)
Definition drawDraw (dst : option ptr) (r : image.Rectangle) (src : option ptr)
    (sp : image.Point) (op : draw.Op) : M unit :=
  d ← deref dst;
  s ← deref src;
  match dst with
  | Some a => modify (fun w => with_heap (<[a := draw.Draw d r s sp op]> (heap w)) w)
  | None => mret tt
  end.

Definition chan_state (c : chan) (w : World) : ChanState :=
  default (mkChanState [] false) (chans w !! c).

(** [make(chan *image.RGBA)] *)
Definition make_chan : M chan := fun w =>
  let c := fresh (dom (chans w)) in
  Ok c (with_chans (<[c := mkChanState [] false]> (chans w)) w).

(** [c <- v]. The receiver of a reply channel is its requester, blocked
    in [imageCacheGetBlockingLoc]; the send is recorded on the channel. *)
Definition send (c : chan) (v : ptr) : M unit := fun w =>
  let s := chan_state c w in
  if closed s then Panic "send on closed channel"
  else Ok tt (with_chans (<[c := mkChanState (sent s ++ [v]) false]> (chans w)) w).

(** [close(c)] *)
Definition close (c : chan) : M unit := fun w =>
  let s := chan_state c w in
  if closed s then Panic "close of closed channel"
  else Ok tt (with_chans (<[c := mkChanState (sent s) true]> (chans w)) w).

Definition sys {A} (op : FS -> FS * A) : M A := fun w =>
  let '(f, a) := op (fs w) in Ok a (with_fs f w).

(** [for _, a := range l { f a }] *)
Definition forM_ {A} (l : list A) (f : A -> M unit) : M unit :=
  foldr (fun a k => f a ;; k) (mret tt) l.

(** [powarr[i]] *)
Definition powarr_at (i : Z) : M Z :=
  if (0 <=? i) && (i <? Z.of_nat (length powarr))
  then mret (nth (Z.to_nat i) powarr 0)
  else panic "index out of range".

(** *** cache.go, lines 71-77 *)

Definition icAT (cx cz : Z) : Z * Z :=
  (GoInt.shr cx imageCacheStorageLevel, GoInt.shr cz imageCacheStorageLevel).

Definition icIN (cx cz : Z) : Z * Z :=
  let mask := GoInt.sub (nth (Z.to_nat imageCacheStorageLevel) powarr 0) 1 in
  (GoInt.and cx mask, GoInt.and cz mask).

(** *** The disk codec: cache.go, lines 385-442 *)

Definition getImageCachePrefix : string :=
  let prefix := CACHE_PREFIX env in
  if bool_decide (prefix = EmptyString) then "imageCache" else prefix.

Definition cacheGetFilename (world dim render : string) (s x z : Z) : string :=
  path.Join [ "."; getImageCachePrefix; world; dim; render;
              strconv.FormatInt s;
              strconv.FormatInt x +:+ "x" +:+ strconv.FormatInt z +:+ ".png" ].

(** The mode [0764] given to [os.MkdirAll]. *)
Definition mode_0764 : Z := 7 * 64 + 6 * 8 + 4.

Definition cacheSave (im : option ptr) (world dim render : string) (s x z : Z)
  : M (option error) :=
  let storePath := cacheGetFilename world dim render s x z in
  err ← sys (MkdirAll (path.Dir storePath) mode_0764);
  match err with
  | Some e => mret (Some e)
  | None =>
      err ← sys (Create storePath);
      match err with
      | Some e => mret (Some e)
      | None =>
          r ← deref im;
          err ← sys (Encode storePath r);
          match err with
          | Some e => mret (Some e)
          | None => sys (Close storePath)
          end
      end
  end.

(** What [image.Decode] followed by [imageToRGBA] makes of the encoding
    of [r]: the bounds start at the origin. *)
Definition decoded (r : image.RGBA) : image.RGBA :=
  let b := image.RGBA_Rect r in
  image.mkRGBA
    (fun x y => png_pixel env (image.Pix r (x + image.X (image.Min b))
                                           (y + image.Y (image.Min b))))
    (image.Rect 0 0 (image.Dx b) (image.Dy b)).

(** [cacheLoad]. When decoding fails the error returned is the one of
    [os.Remove]: [nil] when the broken file could be removed. *)
Definition cacheLoad (world dim render : string) (s x z : Z)
  : M (option ptr * option error) :=
  let fp := cacheGetFilename world dim render s x z in
  '(f, err) ← sys (Open fp);
  match f, err with
  | Some (PNG r), None =>
      a ← new (decoded r);
      sys (Close fp);;
      mret (Some a, None)
  | Some Undecodable, None =>
      err ← sys (Remove fp);
      sys (Close fp);;
      mret (None, err)
  | _, _ => mret (None, err)
  end.

(** [copyImage] *)
Definition copyImage (im : option ptr) : M ptr :=
  r ← deref im;
  new (image.mkRGBA (fun x y => image.RGBAAt r x y) (image.RGBA_Rect r)).

(** *** The I/O worker: the body of the loop of [imageCacheWorker]
    (lines 81-98) for one request taken from [iotasks]. With nothing
    queued the worker waits. *)
Definition imageCacheWorker : M unit :=
  q ← gets iotasks;
  match q with
  | [] => mret tt
  | p :: q' =>
      modify (with_iotasks q');;
      match task_img p with
      | None =>
          '(im, err) ← cacheLoad (World_ (loc p)) (Dimension (loc p)) (Layer (loc p))
                         imageCacheStorageLevel (X_ (loc p)) (Z_ (loc p));
          match err with
          | Some _ => mret tt
          | None =>
              modify (fun w =>
                with_ioreturn (ioreturn w ++ [mkImageTask (loc p) im (ret p)]) w)
          end
      | Some _ =>
          cacheSave (task_img p) (World_ (loc p)) (Dimension (loc p)) (Layer (loc p))
            imageCacheStorageLevel (X_ (loc p)) (Z_ (loc p));;
          mret tt
      end
  end.

(** *** The cache actor: [imageCacheProcessor] (lines 101-345) *)

(** The eviction written out three times in the source (lines 196-206,
    248-258, 306-316): with more than [imageCacheMaxCache] entries, the
    key of an entry used before now and before the others seen is deleted;
    [imageLoc{}] is deleted when no entry was used before now. *)
Definition evict : M unit :=
  m ← gets imageCache;
  if imageCacheMaxCache <? Z.of_nat (size m) then
    oldest ← Now;
    let '(_, oldestk) :=
      foldl (fun '(oldest, oldestk) '(k, v) =>
               if After oldest (lastUse v) then (lastUse v, k)
               else (oldest, oldestk))
            (oldest, zero_imageLoc) (range_order env m) in
    modify (fun w => with_imageCache (delete oldestk (imageCache w)) w)
  else mret tt.

Definition storageLoc (l : imageLoc) (rx rz : Z) : imageLoc :=
  mkImageLoc (World_ l) (Dimension l) (Layer l) imageCacheStorageLevel rx rz.

Definition setCache (k : imageLoc) (i : cachedImage) : M unit :=
  modify (fun w => with_imageCache (<[k := i]> (imageCache w)) w).

(** A read at the storage level (lines 160-175). *)
Definition readExact (p : imageTask) (r : chan) : M unit :=
  m ← gets imageCache;
  match m !! loc p with
  | Some i =>
      c ← copyImage (img i);
      send r c;;
      t ← Now;
      setCache (loc p) (set_lastUse i t)
  | None =>
      wt ← gets ioreadwaiting;
      match wt !! loc p with
      | Some w =>
          modify (with_ioreadwaiting (<[loc p := w ++ [r]]> wt))
      | None =>
          modify (with_ioreadwaiting (<[loc p := [r]]> wt));;
          modify (fun w => with_iotasks (iotasks w ++ [p]) w)
      end
  end.

(** A read below the storage level (lines 176-218). *)
Definition readZoomIn (p : imageTask) (r : chan) : M unit :=
  pw ← powarr_at (S_ (loc p));
  let ax := GoInt.mul (X_ (loc p)) pw in
  let az := GoInt.mul (Z_ (loc p)) pw in
  let '(rx, rz) := icAT ax az in
  let '(ix, iz) := icIN ax az in
  let is_ := GoInt.mul pw 16 in
  let rl := storageLoc (loc p) rx rz in
  m ← gets imageCache;
  let finish (i : cachedImage) : M unit :=
    out ← NewRGBA (image.Rect 0 0 is_ is_);
    let pt := image.mkPoint (GoInt.mul (GoInt.quo ix pw) is_)
                            (GoInt.mul (GoInt.quo iz pw) is_) in
    o ← deref out;
    drawDraw out (image.RGBA_Rect o) (img i) pt draw.Over;;
    match out with Some a => send r a | None => mret tt end in
  match m !! rl with
  | None =>
      let i := zero_cachedImage in
      '(im, err) ← cacheLoad (World_ (loc p)) (Dimension (loc p)) (Layer (loc p))
                     imageCacheStorageLevel rx rz;
      let i := set_img i im in
      match err with
      | Some _ => close r
      | None =>
          let i := set_syncedToDisk i true in
          t ← Now;
          let i := set_lastUse i t in
          evict;;
          setCache rl i;;
          finish i
      end
  | Some i =>
      t ← Now;
      let i := set_lastUse i t in
      setCache rl i;;
      finish i
  end.

(** One storage tile of a read above the storage level (lines 234-263). *)
Definition readZoomOutTile (p : imageTask) (out : option ptr) (bx bz : Z)
    (xz : Z * Z) : M unit :=
  let '(x, z) := xz in
  let rx := GoInt.add bx x in
  let rz := GoInt.add bz z in
  let rl := storageLoc (loc p) rx rz in
  let blit (i : cachedImage) : M unit :=
    let w := GoInt.mul (nth (Z.to_nat imageCacheStorageLevel) powarr 0) 16 in
    drawDraw out
      (image.Rect (GoInt.mul x w) (GoInt.mul z w)
                  (GoInt.add (GoInt.mul x w) w) (GoInt.add (GoInt.mul z w) w))
      (img i) image.ZP draw.Src in
  m ← gets imageCache;
  match m !! rl with
  | None =>
      let i := zero_cachedImage in
      '(im, err) ← cacheLoad (World_ (loc p)) (Dimension (loc p)) (Layer (loc p))
                     imageCacheStorageLevel rx rz;
      let i := set_img i im in
      match err with
      | Some _ => mret tt
      | None =>
          let i := set_syncedToDisk i true in
          t ← Now;
          let i := set_lastUse i t in
          evict;;
          setCache rl i;;
          blit i
      end
  | Some i => blit i
  end.

(** A read above the storage level (lines 220-267). *)
Definition readZoomOut (p : imageTask) (r : chan) : M unit :=
  if 9 <? S_ (loc p) then close r
  else
    pw ← powarr_at (S_ (loc p));
    let ax := GoInt.mul (X_ (loc p)) pw in
    let az := GoInt.mul (Z_ (loc p)) pw in
    let '(bx, bz) := icAT ax az in
    rs ← powarr_at (GoInt.sub (S_ (loc p)) imageCacheStorageLevel);
    let side :=
      GoInt.mul (GoInt.mul rs (nth (Z.to_nat imageCacheStorageLevel) powarr 0)) 16 in
    out ← NewRGBA (image.Rect 0 0 side side);
    forM_ (x ← seqZ 0 rs; z ← seqZ 0 rs; [(x, z)])
          (readZoomOutTile p out bx bz);;
    match out with Some a => send r a | None => mret tt end.

(** A write (lines 268-323). *)
Definition write (p : imageTask) : M unit :=
  m ← gets imageCache;
  if S_ (loc p) =? imageCacheStorageLevel then
    match m !! loc p with
    | None =>
        t ← Now;
        setCache (loc p) (mkCachedImage (task_img p) false t)
    | Some iimg =>
        d ← deref (img iimg);
        drawDraw (img iimg) (image.RGBA_Rect d) (task_img p) image.ZP draw.Over;;
        t ← Now;
        (* the two assignments are to the local copy [iimg] of the entry *)
        let iimg := set_lastUse iimg t in
        let iimg := set_syncedToDisk iimg false in
        mret tt
    end
  else if negb (S_ (loc p) =? 0) then mret tt
  else
    let '(rx, rz) := icAT (X_ (loc p)) (Z_ (loc p)) in
    let '(ix, iz) := icIN (X_ (loc p)) (Z_ (loc p)) in
    let rl := storageLoc (loc p) rx rz in
    let stamp (i : cachedImage) : M unit :=
      drawDraw (img i)
        (image.Rect (GoInt.mul ix 16) (GoInt.mul iz 16)
                    (GoInt.add (GoInt.mul ix 16) 16) (GoInt.add (GoInt.mul iz 16) 16))
        (task_img p) image.ZP draw.Src;;
      let i := set_syncedToDisk i false in
      setCache rl i in
    match m !! rl with
    | None =>
        let i := zero_cachedImage in
        '(im, err) ← cacheLoad (World_ (loc p)) (Dimension (loc p)) (Layer (loc p))
                       imageCacheStorageLevel rx rz;
        let i := set_img i im in
        let continue (i : cachedImage) : M unit :=
          t ← Now;
          let i := set_lastUse i t in
          evict;;
          stamp i in
        match err with
        | Some ErrNotExist =>
            let pw := nth (Z.to_nat imageCacheStorageLevel) powarr 0 in
            im ← NewRGBA (image.Rect 0 0 (GoInt.mul pw 16) (GoInt.mul pw 16));
            continue (set_img i im)
        | Some _ => mret tt
        | None => continue i
        end
    | Some i => stamp i
    end.

(** The case [p := <-imageCacheProcess] (lines 154-323). *)
Definition onTask (p : imageTask) : M unit :=
  match task_img p with
  | None =>
      match ret p with
      | None => mret tt
      | Some r =>
          if S_ (loc p) =? imageCacheStorageLevel then readExact p r
          else if S_ (loc p) <? imageCacheStorageLevel then readZoomIn p r
          else readZoomOut p r
      end
  | Some _ => write p
  end.

(** The case [p := <-ioreturn] (lines 142-153). *)
Definition onReturn (p : imageTask) : M unit :=
  match task_img p with
  | Some a =>
      wt ← gets ioreadwaiting;
      match wt !! loc p with
      | None => mret tt
      | Some i =>
          forM_ i (fun r => send r a);;
          modify (fun w => with_ioreadwaiting (delete (loc p) (ioreadwaiting w)) w)
      end
  | None => mret tt
  end.

(** The body of the loop of the flush tick (lines 327-338) for one entry;
    [v] is the loop's copy of the entry. *)
Definition flushEntry (kv : imageLoc * cachedImage) : M unit :=
  let '(k, v) := kv in
  if negb (syncedToDisk v) then
    err ← cacheSave (img v) (World_ k) (Dimension k) (Layer k) (S_ k) (X_ k) (Z_ k);
    match err with
    | Some _ => mret tt
    | None =>
        let v := set_syncedToDisk v true in
        mret tt
    end
  else mret tt.

(** The case [<-flushTicker.C] (lines 324-342). *)
Definition onFlushTick : M unit :=
  m ← gets imageCache;
  forM_ (range_order env m) flushEntry.

(** The case [<-ctx.Done()] (lines 124-141), up to [close(iotasks)]. *)
Definition onDone : M unit :=
  m ← gets imageCache;
  forM_ (range_order env m) (fun '(k, v) =>
    if negb (syncedToDisk v) then
      modify (fun w => with_iotasks (iotasks w ++ [mkImageTask k (img v) None]) w)
    else mret tt).

(** One turn of the actor's [select] on each of its channels. With
    nothing queued the case is not taken. *)
Definition actorTakesTask : M unit :=
  q ← gets imageCacheProcess;
  match q with
  | [] => mret tt
  | p :: q' => modify (with_imageCacheProcess q');; onTask p
  end.

Definition actorTakesReturn : M unit :=
  q ← gets ioreturn;
  match q with
  | [] => mret tt
  | p :: q' => modify (with_ioreturn q');; onReturn p
  end.

(** *** The client adapter (lines 353-383) *)

(** [imageCacheGetBlockingLoc] up to its wait on [recv]. *)
Definition imageCacheGetBlockingLoc_send (l : imageLoc) : M chan :=
  recv ← make_chan;
  modify (fun w =>
    with_imageCacheProcess (imageCacheProcess w ++ [mkImageTask l None (Some recv)]) w);;
  mret recv.

(** What the wait on [recv] yields in a state: the first raster sent,
    [nil] when the channel was closed with nothing sent; the caller stays
    blocked ([None]) as long as neither has happened. *)
Definition imageCacheGetBlockingLoc_recv (recv : chan) (w : World)
  : option (option ptr) :=
  match sent (chan_state recv w) with
  | i :: _ => Some (Some i)
  | [] => if closed (chan_state recv w) then Some None else None
  end.

Definition imageCacheSave (im : option ptr) (world dim render : string)
    (s x z : Z) : M unit :=
  modify (fun w =>
    with_imageCacheProcess
      (imageCacheProcess w ++ [mkImageTask (mkImageLoc world dim render s x z) im None]) w).

End Code.

(** ** States and runs used in the statements below *)

(** Nothing resident, nothing queued, nothing on disk. *)
Definition world0 : World := mkWorld ∅ (mkFS ∅ ∅ []) ∅ 0 [] ∅ ∅ [] [].

(** [CACHE_PREFIX] not set; the n-th reading of the clock is [1000 + n];
    [range] in the order of [map_to_list]; pixels unchanged by the codec. *)
Definition env0 : Env :=
  mkEnv EmptyString (fun n => 1000 + Z.of_nat n) map_to_list (fun m => reflexivity _) id.

(** The process environment with [CACHE_PREFIX=/var/cache]. *)
Definition env_abs : Env :=
  mkEnv "/var/cache" (fun n => 1000 + Z.of_nat n) map_to_list (fun m => reflexivity _) id.

(** What holds of the result of a run that does not panic. *)
Definition outcome {A} (r : Res A) (P : A -> World -> Prop) : Prop :=
  match r with
  | Ok a w => P a w
  | Panic _ => False
  end.

(** Invariant I1 of the specification: resident keys are at the storage
    level. *)
Definition storage_keys (m : gmap imageLoc cachedImage) : Prop :=
  map_Forall (fun k _ => S_ k = imageCacheStorageLevel) m.

Definition blue512 : image.RGBA :=
  image.mkRGBA (fun _ _ => image.mkColor 0 0 255 255) (image.Rect 0 0 512 512).
Definition red512 : image.RGBA :=
  image.mkRGBA (fun _ _ => image.mkColor 255 0 0 255) (image.Rect 0 0 512 512).

Definition loc500 : imageLoc := mkImageLoc "w" "d" "l" 5 0 0.

(** A clean resident entry, used at time 7, and a second raster to write. *)
Definition world_resident : World :=
  mkWorld {[ 1%positive := blue512; 2%positive := red512 ]} (mkFS ∅ ∅ []) ∅ 0 []
          {[ loc500 := mkCachedImage (Some 1%positive) true 7 ]} ∅ [] [].


(** The storage tile [(i, 0)]. *)
Definition tile_at (i : nat) : imageLoc := mkImageLoc "w" "d" "l" 5 (Z.of_nat i) 0.

(** 513 dirty tiles [(i, 0)], each with its own raster, tile [i] last used
    at time [1000 + i]; the clock has been read 513 times. *)
Definition world_full : World :=
  mkWorld (list_to_map ((fun i => (Pos.of_succ_nat i, blue512)) <$> seq 0 513))
          (mkFS ∅ ∅ []) ∅ 513 []
          (list_to_map
             ((fun i => (tile_at i,
                         mkCachedImage (Some (Pos.of_succ_nat i)) false (1000 + Z.of_nat i)))
                <$> seq 0 513))
          ∅ [] [].

(** A piece of code that keeps invariant I1. *)
Definition keeps_keys {A} (m : M A) : Prop :=
  forall w a w', m w = Ok a w' ->
    storage_keys (imageCache w) -> storage_keys (imageCache w').

(** One step of the system: a client sends a read or a write request, or
    makes a raster; the actor takes a request, a worker's return or a flush
    tick; a worker takes an I/O request. *)
Inductive step (env : Env) : World -> World -> Prop :=
| step_get l w c w' :
    imageCacheGetBlockingLoc_send l w = Ok c w' -> step env w w'
| step_put im world dim render s x z w w' :
    imageCacheSave im world dim render s x z w = Ok tt w' -> step env w w'
| step_raster r w a w' :
    new r w = Ok a w' -> step env w w'
| step_task w w' :
    actorTakesTask env w = Ok tt w' -> step env w w'
| step_return w w' :
    actorTakesReturn w = Ok tt w' -> step env w w'
| step_tick w w' :
    onFlushTick env w = Ok tt w' -> step env w w'
| step_worker w w' :
    imageCacheWorker env w = Ok tt w' -> step env w w'.

(** One resident tile, dirty, and nothing on disk. *)
Definition world_dirty : World :=
  mkWorld {[ 1%positive := blue512 ]} (mkFS ∅ ∅ []) ∅ 1 []
          {[ loc500 := mkCachedImage (Some 1%positive) false 7 ]} ∅ [] [].

(** The file of a resident key, and the calls of [cacheSave] for it. *)
Definition file_of (env : Env) (k : imageLoc) : string :=
  cacheGetFilename env (World_ k) (Dimension k) (Layer k) (S_ k) (X_ k) (Z_ k).

Definition save_calls (env : Env) (k : imageLoc) : list syscall :=
  [SysMkdirAll (path.Dir (file_of env k)) mode_0764; SysCreate (file_of env k);
   SysEncode (file_of env k); SysClose (file_of env k)].

(** The rasters of the dirty entries are on the heap. *)
Definition dirty_rasters_valid (l : list (imageLoc * cachedImage)) (w : World) : Prop :=
  forall k v, (k, v) ∈ l -> syncedToDisk v = false ->
              exists a r, img v = Some a /\ heap w !! a = Some r.

(** A client asks for the storage tile [l]; the actor takes the request, a
    worker takes what the actor queued, and the actor takes what the worker
    returned. *)
Definition get_run (env : Env) (l : imageLoc) : M chan :=
  c ← imageCacheGetBlockingLoc_send l;
  actorTakesTask env;;
  imageCacheWorker env;;
  actorTakesReturn;;
  mret c.

(** Nothing is left for the actor or the workers to take. *)
Definition quiescent (w : World) : Prop :=
  imageCacheProcess w = [] /\ iotasks w = [] /\ ioreturn w = [].

(** An empty cache with the file of tile (0, 0) on disk, and the same with
    a file that does not decode. *)
Definition world_on_disk : World :=
  mkWorld ∅ (mkFS {[ "imageCache/w/d/l/5/0x0.png"%string := PNG blue512 ]} ∅ []) ∅ 0 []
          ∅ ∅ [] [].

Definition world_broken_file : World :=
  mkWorld ∅ (mkFS {[ "imageCache/w/d/l/5/0x0.png"%string := Undecodable ]} ∅ []) ∅ 0 []
          ∅ ∅ [] [].

(** [n] writes at the storage level, to the tiles [(0, 0)] ... [(n-1, 0)],
    each taken by the actor. *)
Definition write_tiles (env : Env) (n : nat) : M unit :=
  forM_ (seq 0 n) (fun i => onTask env (mkImageTask (tile_at i) (Some 1%positive) None)).

Definition red16 : image.RGBA :=
  image.mkRGBA (fun _ _ => image.mkColor 255 0 0 255) (image.Rect 0 0 16 16).

(** An empty cache, nothing on disk, and the red stamp at address 1. *)
Definition world_red : World :=
  mkWorld {[ 1%positive := red16 ]} (mkFS ∅ ∅ []) ∅ 0 [] ∅ ∅ [] [].

(** ** Further states and runs *)

(** The read request of a client waiting on [c] for the tile [l]. *)
Definition read_task (l : imageLoc) (c : chan) : imageTask := mkImageTask l None (Some c).

(** The actor takes, one after the other, read requests for the tile [l]
    from the clients waiting on the channels [cs]. *)
Definition reads_of (env : Env) (l : imageLoc) (cs : list chan) : M unit :=
  forM_ cs (fun c => onTask env (read_task l c)).

(** Two clients wait on channels 3 and 4 for the tile (0, 0), whose read
    is in flight. *)
Definition world_waiting : World :=
  mkWorld {[ 1%positive := blue512 ]} (mkFS ∅ ∅ []) ∅ 0 [] ∅
          {[ loc500 := [3%positive; 4%positive] ]} [] [].

(** A colour whose four channels are bytes. *)
Definition valid_color (c : image.Color) : Prop :=
  0 <= image.R c <= 255 /\ 0 <= image.G c <= 255 /\
  0 <= image.B c <= 255 /\ 0 <= image.A c <= 255.

(** The write requests of the shutdown (lines 127-136) for the entries
    [l]: one for each entry that is not synced, in the order of [l]. *)
Definition dirty_tasks (l : list (imageLoc * cachedImage)) : list imageTask :=
  (fun kv => mkImageTask kv.1 (img kv.2) None)
    <$> filter (fun kv => syncedToDisk kv.2 = false) l.

(** The state of [world_red] after a client has written the raster at
    address 1 for the storage tile (0, 0) and the actor has taken the
    request: the tile is resident, dirty, and last used at time 1000. *)
Definition world_written : World :=
  mkWorld {[ 1%positive := red16 ]} (mkFS ∅ ∅ []) ∅ 1 []
          {[ loc500 := mkCachedImage (Some 1%positive) false 1000 ]} ∅ [] [].

(** The red 16x16 stamp at address 1, and tile (1, 0) resident and synced
    with the blue raster at address 2. *)
Definition world_blue_tile : World :=
  mkWorld {[ 1%positive := red16; 2%positive := blue512 ]} (mkFS ∅ ∅ []) ∅ 0 []
          {[ tile_at 1 := mkCachedImage (Some 2%positive) true 7 ]} ∅ [] [].

(** The tiles that a read above the storage level visits, in the order of
    its two loops (lines 232-233), and the files it tries to open for the
    tiles that are not resident. *)
Definition zoom_out_tiles (rs : Z) : list (Z * Z) :=
  x ← seqZ 0 rs; z ← seqZ 0 rs; [(x, z)].


(** A plain name: one path element that is not empty, ["."] or [".."]. *)
Definition plain_name (s : string) : bool := path.no_slash s && path.clean_element s.

(** The character [c] does not occur in [s]. *)
Fixpoint without_char (c : ascii) (s : string) : bool :=
  match s with
  | EmptyString => true
  | String a s' => negb (Ascii.eqb a c) && without_char c s'
  end.

(** Invariant I2: every resident entry has a raster. *)
Definition rasters_set (m : gmap imageLoc cachedImage) : Prop :=
  map_Forall (fun _ e => img e <> None) m.

Definition keeps_rasters {A} (m : M A) : Prop :=
  forall w a w', m w = Ok a w' ->
    rasters_set (imageCache w) -> rasters_set (imageCache w').

(** A piece of code that stops the program in every state. *)
Definition never_returns {A} (m : M A) : Prop :=
  forall w a w', m w <> Ok a w'.

(** The place of the storage tile [(x, z)] in the raster of a read above
    the storage level (line 263), and the raster after the tiles [tiles]
    have been drawn, [tile_of x z] being the raster of tile [(x, z)]. *)
Definition zoom_out_block (x z : Z) : image.Rectangle :=
  image.Rect (x * 512) (z * 512) (x * 512 + 512) (z * 512 + 512).

Definition zoom_out_compose (tile_of : Z -> Z -> image.RGBA) (out : image.RGBA)
    (tiles : list (Z * Z)) : image.RGBA :=
  foldl (fun o '(x, z) => draw.Draw o (zoom_out_block x z) (tile_of x z) image.ZP draw.Src)
        out tiles.

(** The four storage tiles under the tile (0, 0) of level 6, resident:
    blue on the diagonal, red off it. *)
Definition quad_tile (x z : Z) : image.RGBA := if x =? z then blue512 else red512.

Definition tile_xz (x z : Z) : imageLoc := mkImageLoc "w" "d" "l" 5 x z.

Definition world_quad : World :=
  mkWorld {[ 1%positive := blue512; 2%positive := red512 ]} (mkFS ∅ ∅ []) ∅ 0 []
          {[ tile_xz 0 0 := mkCachedImage (Some 1%positive) true 7;
             tile_xz 0 1 := mkCachedImage (Some 2%positive) true 7;
             tile_xz 1 0 := mkCachedImage (Some 2%positive) true 7;
             tile_xz 1 1 := mkCachedImage (Some 1%positive) true 7 ]} ∅ [] [].

(** An empty cache with the file of tile (0, 0) on disk, and the red stamp
    at address 1. *)
Definition world_on_disk_red : World :=
  mkWorld {[ 1%positive := red16 ]}
          (mkFS {[ "imageCache/w/d/l/5/0x0.png"%string := PNG blue512 ]} ∅ []) ∅ 0 []
          ∅ ∅ [] [].

(** What lets [cacheSave] of the raster [r] to the path [fp] go through on
    the file system [f]: no regular file is in the way of the directory of
    [fp], no directory is at [fp], and the raster has pixels. *)
Definition can_save (f : FS) (fp : string) (r : image.RGBA) : bool :=
  forallb (fun d => bool_decide (files f !! d = None)) (ancestors (path.Dir fp)) &&
  bool_decide (dirs f !! fp = None) &&
  negb (bool_decide (fp ∈ ancestors (path.Dir fp))) &&
  negb ((image.Dx (image.RGBA_Rect r) <=? 0) || (image.Dy (image.RGBA_Rect r) <=? 0)).

(** ** Reply channels *)











(** * Properties *)

Lemma GoInt_wrap_id (z : Z) : GoInt.in_range z -> GoInt.wrap z = z.
Proof.
  unfold GoInt.in_range, GoInt.wrap. intros Hz.
  rewrite Z.mod_small by lia. lia.
Qed.

Example FormatInt_examples :
  strconv.FormatInt 0 = "0" ∧ strconv.FormatInt 5 = "5" ∧
  strconv.FormatInt (-17) = "-17" ∧ strconv.FormatInt 1200 = "1200" ∧
  strconv.FormatInt (- 2 ^ 63) = "-9223372036854775808".
Proof. repeat split; reflexivity. Qed.

Example Clean_examples :
  path.Clean "./imageCache/w/d/l/5/0x0.png" = "imageCache/w/d/l/5/0x0.png" ∧
  path.Clean "a//b/./c/.." = "a/b" ∧ path.Clean "../../x" = "../../x" ∧
  path.Clean "/../a" = "/a" ∧ path.Clean EmptyString = "." ∧
  path.Dir "imageCache/w/d/l/5/0x0.png" = "imageCache/w/d/l/5" ∧
  path.Dir "x.png" = ".".
Proof. repeat split; vm_compute; reflexivity. Qed.

(** ** Running the monad *)

Lemma bind_Ok {A B} (m : M A) (f : A -> M B) (w w' : World) (a : A) :
  m w = Ok a w' -> (m ≫= f) w = f a w'.
Proof. intros H. unfold mbind, M_bind. rewrite H. reflexivity. Qed.

Lemma gets_Ok {A} (f : World -> A) w : gets f w = Ok (f w) w.
Proof. reflexivity. Qed.

Lemma modify_Ok (f : World -> World) w : modify f w = Ok tt (f w).
Proof. reflexivity. Qed.

(** Runs the code on a symbolic state: the binds are unfolded and the
    lookups that the hypotheses determine are replaced by their values. *)
Ltac munfold :=
  cbv beta iota delta
    [mbind M_bind mret M_ret gets modify panic sys deref new NewRGBA drawDraw
     Now setCache copyImage forM_].

Ltac mproj :=
  cbn [heap fs chans ticks imageCacheProcess imageCache ioreadwaiting iotasks
       ioreturn with_heap with_fs with_chans with_ticks with_imageCacheProcess
       with_imageCache with_ioreadwaiting with_iotasks with_ioreturn
       task_img loc ret img syncedToDisk lastUse set_img set_syncedToDisk
       set_lastUse files dirs calls fs_call].

Ltac mrewrite :=
  repeat match goal with
         | H : ?x = _ |- context [?x] => rewrite H
         end.

Ltac mrun := munfold; repeat (progress (mproj; mrewrite; cbv beta iota)).

(** ** The disk codec and the eviction on a known state *)

Lemma cacheLoad_absent (env : Env) (w : World) (world dim render : string) (s x z : Z) :
  files (fs w) !! cacheGetFilename env world dim render s x z = None ->
  cacheLoad env world dim render s x z w =
    Ok (None, Some ErrNotExist)
       (with_fs (fs_call (SysOpen (cacheGetFilename env world dim render s x z)) (fs w)) w).
Proof.
  intros Hf. unfold cacheLoad, Open. munfold. mproj. rewrite Hf. reflexivity.
Qed.

Lemma cacheLoad_png (env : Env) (w : World) (world dim render : string) (s x z : Z)
    (r : image.RGBA) :
  files (fs w) !! cacheGetFilename env world dim render s x z = Some (PNG r) ->
  exists w',
    cacheLoad env world dim render s x z w = Ok (Some (fresh (dom (heap w))), None) w' /\
    heap w' = <[fresh (dom (heap w)) := decoded env r]> (heap w) /\
    files (fs w') = files (fs w) /\ dirs (fs w') = dirs (fs w) /\
    chans w' = chans w /\ ticks w' = ticks w /\
    imageCacheProcess w' = imageCacheProcess w /\ imageCache w' = imageCache w /\
    ioreadwaiting w' = ioreadwaiting w /\ iotasks w' = iotasks w /\
    ioreturn w' = ioreturn w.
Proof.
  intros Hf. unfold cacheLoad, Open, Close. munfold. mproj. rewrite Hf.
  cbv beta iota. mproj.
  eexists; split; [reflexivity|]. mproj. repeat split; reflexivity.
Qed.

Lemma cacheLoad_undecodable (env : Env) (w : World) (world dim render : string)
    (s x z : Z) :
  files (fs w) !! cacheGetFilename env world dim render s x z = Some Undecodable ->
  exists w',
    cacheLoad env world dim render s x z w = Ok (None, None) w' /\
    heap w' = heap w /\
    files (fs w') = delete (cacheGetFilename env world dim render s x z) (files (fs w)) /\
    chans w' = chans w /\ ticks w' = ticks w /\
    imageCacheProcess w' = imageCacheProcess w /\ imageCache w' = imageCache w /\
    ioreadwaiting w' = ioreadwaiting w /\ iotasks w' = iotasks w /\
    ioreturn w' = ioreturn w.
Proof.
  intros Hf. unfold cacheLoad, Open, Close, Remove. munfold. mproj. rewrite Hf.
  cbv beta iota. mproj. rewrite Hf.
  eexists; split; [reflexivity|]. mproj. repeat split; reflexivity.
Qed.

Lemma evict_not_full (env : Env) (w : World) :
  Z.of_nat (size (imageCache w)) <= imageCacheMaxCache ->
  evict env w = Ok tt w.
Proof.
  intros Hs. unfold evict. munfold.
  destruct (imageCacheMaxCache <? Z.of_nat (size (imageCache w))) eqn:E; [lia|].
  reflexivity.
Qed.

(** ** Arithmetic of tile positions and of the stamp *)

Lemma icAT_div (cx cz : Z) : icAT cx cz = (cx / 32, cz / 32).
Proof.
  unfold icAT, GoInt.shr, imageCacheStorageLevel.
  rewrite !Z.shiftr_div_pow2 by lia. reflexivity.
Qed.

Lemma icIN_mod (cx cz : Z) : icIN cx cz = (cx mod 32, cz mod 32).
Proof.
  unfold icIN, GoInt.and.
  change (GoInt.sub (nth (Z.to_nat imageCacheStorageLevel) powarr 0) 1) with (Z.ones 5).
  rewrite !Z.land_ones by lia. reflexivity.
Qed.

Lemma mul16_small (i : Z) : 0 <= i < 32 -> GoInt.mul i 16 = i * 16.
Proof. intros. apply GoInt_wrap_id. unfold GoInt.in_range. lia. Qed.

Lemma add16_small (i : Z) : 0 <= i < 32 -> GoInt.add (i * 16) 16 = i * 16 + 16.
Proof. intros. apply GoInt_wrap_id. unfold GoInt.in_range. lia. Qed.

Lemma Rect_ordered (x0 y0 x1 y1 : Z) :
  x0 <= x1 -> y0 <= y1 ->
  image.Rect x0 y0 x1 y1 = image.mkRectangle (image.mkPoint x0 y0) (image.mkPoint x1 y1).
Proof.
  intros. unfold image.Rect.
  destruct (x0 >? x1) eqn:E1; [lia|]. destruct (y0 >? y1) eqn:E2; [lia|]. reflexivity.
Qed.

Lemma Intersect_inside (r s : image.Rectangle) :
  image.X (image.Min s) <= image.X (image.Min r) ->
  image.Y (image.Min s) <= image.Y (image.Min r) ->
  image.X (image.Max r) <= image.X (image.Max s) ->
  image.Y (image.Max r) <= image.Y (image.Max s) ->
  image.Empty r = false ->
  image.Intersect r s = r.
Proof.
  destruct r as [[x0 y0] [x1 y1]], s as [[u0 v0] [u1 v1]].
  unfold image.Intersect, image.Empty. cbn [image.X image.Y image.Min image.Max].
  intros ? ? ? ? HE. rewrite !Z.max_l, !Z.min_l by lia.
  rewrite HE. reflexivity.
Qed.

(** Drawing a 16x16 stamp with [draw.Src] at tile position [(ix, iz)] of a
    512x512 raster replaces exactly the pixels of that position. *)
Lemma stamp_pixels (dst r : image.RGBA) (ix iz : Z) :
  0 <= ix < 32 -> 0 <= iz < 32 ->
  image.RGBA_Rect dst = image.Rect 0 0 512 512 ->
  image.RGBA_Rect r = image.Rect 0 0 16 16 ->
  let rect := image.Rect (ix * 16) (iz * 16) (ix * 16 + 16) (iz * 16 + 16) in
  let d' := draw.Draw dst rect r image.ZP draw.Src in
  image.RGBA_Rect d' = image.Rect 0 0 512 512 /\
  forall x y,
    image.RGBAAt d' x y =
      if image.In (image.mkPoint x y) rect
      then image.RGBAAt r (x - ix * 16) (y - iz * 16)
      else image.RGBAAt dst x y.
Proof.
  intros Hix Hiz Hd Hr rect d'.
  subst rect d'. rewrite Rect_ordered by lia.
  unfold draw.Draw, draw.clip. rewrite Hd, Hr.
  rewrite !Rect_ordered by lia.
  rewrite (Intersect_inside _ (image.mkRectangle (image.mkPoint 0 0) (image.mkPoint 512 512)))
    by (unfold image.Empty; cbn [image.X image.Y image.Min image.Max]; lia).
  rewrite Intersect_inside
    by (unfold image.Empty, image.Add, image.PtSub, image.PtAdd, image.ZP;
        cbn [image.X image.Y image.Min image.Max]; lia).
  cbn [image.X image.Y image.Min image.Max image.ZP].
  assert (HE : image.Empty
            {| image.Min := {| image.X := ix * 16; image.Y := iz * 16 |};
               image.Max := {| image.X := ix * 16 + 16; image.Y := iz * 16 + 16 |} |}
          = false)
    by (unfold image.Empty; cbn [image.X image.Y image.Min image.Max]; lia).
  rewrite HE. cbn [image.RGBA_Rect]. split; [reflexivity|].
  intros x y. unfold image.RGBAAt at 1. cbn [image.RGBA_Rect image.Pix draw.compose].
  replace (x - ix * 16 + (0 + (ix * 16 - ix * 16))) with (x - ix * 16) by lia.
  replace (y - iz * 16 + (0 + (iz * 16 - iz * 16))) with (y - iz * 16) by lia.
  set (cr := image.RGBAAt r (x - ix * 16) (y - iz * 16)).
  unfold image.RGBAAt. rewrite Hd, Rect_ordered by lia.
  destruct (image.In _ {| image.Min := {| image.X := ix * 16 |} |}) eqn:E1;
    destruct (image.In _ {| image.Min := {| image.X := 0 |} |}) eqn:E2;
    try reflexivity.
  exfalso. unfold image.In in E1, E2.
  cbn [image.X image.Y image.Min image.Max] in E1, E2. lia.
Qed.

(** ** The actor's cases on a known state *)


(** A read at the storage level of a resident key: a copy of the raster is
    sent, and the entry is stored back with [lastUse] set to the time read. *)
Lemma readExact_hit (env : Env) (w : World) (l : imageLoc) (c : chan)
    (e : cachedImage) (a : ptr) (r : image.RGBA) :
  let q := fresh (dom (heap w)) in
  S_ l = imageCacheStorageLevel ->
  imageCache w !! l = Some e ->
  img e = Some a ->
  heap w !! a = Some r ->
  closed (chan_state c w) = false ->
  exists w',
    onTask env (mkImageTask l None (Some c)) w = Ok tt w' /\
    heap w' = <[q := image.mkRGBA (fun x y => image.RGBAAt r x y) (image.RGBA_Rect r)]> (heap w) /\
    chans w' = <[c := mkChanState (sent (chan_state c w) ++ [q]) false]> (chans w) /\
    imageCache w' = <[l := set_lastUse e (clock env (ticks w))]> (imageCache w) /\
    ticks w' = Datatypes.S (ticks w) /\ fs w' = fs w /\
    imageCacheProcess w' = imageCacheProcess w /\
    ioreadwaiting w' = ioreadwaiting w /\ iotasks w' = iotasks w /\
    ioreturn w' = ioreturn w.
Proof.
  intros q HS He Ha Hr Hc.
  unfold onTask, readExact. mproj. rewrite HS, Z.eqb_refl.
  munfold. mproj. rewrite He, Ha, Hr. cbv beta iota. mproj.
  unfold send. unfold chan_state in *. mproj. rewrite Hc.
  eexists; split; [reflexivity|]. mproj. repeat split; reflexivity.
Qed.

(** A read at the storage level of a key that is neither resident nor
    awaited: the requester becomes the key's one waiter and the request is
    passed to the I/O workers. *)
Lemma readExact_miss (env : Env) (w : World) (l : imageLoc) (c : chan) :
  S_ l = imageCacheStorageLevel ->
  imageCache w !! l = None ->
  ioreadwaiting w !! l = None ->
  onTask env (mkImageTask l None (Some c)) w =
    Ok tt (with_iotasks (iotasks w ++ [mkImageTask l None (Some c)])
             (with_ioreadwaiting (<[l := [c]]> (ioreadwaiting w)) w)).
Proof.
  intros HS He Hw.
  unfold onTask, readExact. mproj. rewrite HS, Z.eqb_refl.
  munfold. mproj. rewrite He, Hw. reflexivity.
Qed.

Lemma actorTakesTask_head (env : Env) (w : World) (p : imageTask) (q : list imageTask) :
  imageCacheProcess w = p :: q ->
  actorTakesTask env w = onTask env p (with_imageCacheProcess q w).
Proof. intros H. unfold actorTakesTask. munfold. rewrite H. reflexivity. Qed.

Lemma actorTakesReturn_head (w : World) (p : imageTask) (q : list imageTask) :
  ioreturn w = p :: q ->
  actorTakesReturn w = onReturn p (with_ioreturn q w).
Proof. intros H. unfold actorTakesReturn. munfold. rewrite H. reflexivity. Qed.

(** ** Path elements *)

Lemma append_nil_l (s : string) : EmptyString +:+ s = s.
Proof. reflexivity. Qed.

Lemma append_cons (a : ascii) (s t : string) : String a s +:+ t = String a (s +:+ t).
Proof. reflexivity. Qed.

Lemma append_assoc (a b c : string) : (a +:+ b) +:+ c = a +:+ (b +:+ c).
Proof.
  induction a as [|x a IH]; [reflexivity|].
  rewrite !append_cons, IH. reflexivity.
Qed.

Lemma split_nonempty (s : string) : path.split s <> [].
Proof.
  destruct s as [|a s]; simpl; [discriminate|].
  destruct (Ascii.eqb a path.slash); [discriminate|].
  destruct (path.split s); discriminate.
Qed.

Lemma split_app (s t : string) :
  path.split (s +:+ String path.slash t) = path.split s ++ path.split t.
Proof.
  induction s as [|a s IH].
  - reflexivity.
  - rewrite append_cons. simpl. destruct (Ascii.eqb a path.slash).
    + rewrite IH. reflexivity.
    + rewrite IH. pose proof (split_nonempty s) as Hne.
      destruct (path.split s); [congruence|reflexivity].
Qed.

Lemma join_cons (e : string) (l : list string) :
  l <> [] -> path.join (e :: l) = e +:+ String path.slash (path.join l).
Proof. destruct l; [congruence|reflexivity]. Qed.

Lemma join_app (l1 l2 : list string) :
  l1 <> [] -> l2 <> [] ->
  path.join (l1 ++ l2) = path.join l1 +:+ String path.slash (path.join l2).
Proof.
  intros H1 H2. induction l1 as [|e l1 IH]; [congruence|].
  destruct l1 as [|e' l1].
  - simpl app. rewrite join_cons by exact H2. reflexivity.
  - change ((e :: e' :: l1) ++ l2) with (e :: ((e' :: l1) ++ l2)).
    rewrite join_cons by discriminate. rewrite IH by discriminate.
    rewrite (join_cons e (e' :: l1)) by discriminate.
    rewrite append_assoc, append_cons. reflexivity.
Qed.

Lemma join_split (s : string) : path.join (path.split s) = s.
Proof.
  induction s as [|a s IH]; simpl; [reflexivity|].
  destruct (Ascii.eqb a path.slash) eqn:E.
  - apply Ascii.eqb_eq in E. subst a.
    rewrite join_cons by apply split_nonempty. rewrite IH. reflexivity.
  - pose proof (split_nonempty s) as Hne.
    destruct (path.split s) as [|h t]; [congruence|].
    destruct t as [|h' t].
    + simpl in *. congruence.
    + rewrite join_cons by discriminate. rewrite join_cons in IH by discriminate.
      rewrite append_cons, IH. reflexivity.
Qed.

Lemma split_no_slash (s : string) : path.no_slash s = true -> path.split s = [s].
Proof.
  induction s as [|a s IH]; simpl; [reflexivity|].
  intros H. apply andb_true_iff in H as [Ha Hs].
  apply negb_true_iff in Ha. rewrite Ha, IH by exact Hs. reflexivity.
Qed.

Lemma no_slash_app (s t : string) :
  path.no_slash (s +:+ t) = path.no_slash s && path.no_slash t.
Proof.
  induction s as [|a s IH]; [reflexivity|].
  rewrite append_cons. simpl. rewrite IH, andb_assoc. reflexivity.
Qed.

Lemma clean_element_head (c : ascii) (s : string) :
  c <> "."%char -> path.clean_element (String c s) = true.
Proof.
  intros Hc. unfold path.clean_element.
  rewrite !bool_decide_eq_false_2; [reflexivity| |].
  - intros H. injection H as H _. congruence.
  - intros [H|H]; [discriminate|]. injection H as H _. congruence.
Qed.

Lemma clean_fold (rooted : bool) (l acc : list string) :
  forallb path.clean_element l = true ->
  fold_left (path.clean_step rooted) l acc = rev l ++ acc.
Proof.
  revert acc. induction l as [|e l IH]; intros acc H; simpl; [reflexivity|].
  simpl in H. apply andb_true_iff in H as [He Hl].
  rewrite IH by exact Hl. rewrite <- app_assoc. simpl.
  f_equal. unfold path.clean_step. unfold path.clean_element in He.
  apply andb_true_iff in He as [He1 He2].
  apply negb_true_iff in He1, He2. rewrite He1, He2. reflexivity.
Qed.

Lemma split_join (l : list string) :
  l <> [] -> forallb path.no_slash l = true -> path.split (path.join l) = l.
Proof.
  induction l as [|e l IH]; [congruence|]. intros _ H.
  simpl in H. apply andb_true_iff in H as [He Hl].
  destruct l as [|e' l].
  - simpl. apply split_no_slash, He.
  - rewrite join_cons by discriminate. rewrite split_app, IH by (discriminate || exact Hl).
    rewrite split_no_slash by exact He. reflexivity.
Qed.

Lemma split_elements_no_slash (s : string) : forallb path.no_slash (path.split s) = true.
Proof.
  induction s as [|a s IH]; [reflexivity|]. simpl.
  destruct (Ascii.eqb a path.slash) eqn:E; [exact IH|].
  pose proof (split_nonempty s) as Hne.
  destruct (path.split s) as [|h t]; [congruence|].
  simpl in *. rewrite E. exact IH.
Qed.

(** [Clean] of ["."] followed by clean elements is these elements joined. *)
Lemma Clean_dot_clean (l : list string) :
  l <> [] -> forallb path.no_slash l = true -> forallb path.clean_element l = true ->
  path.Clean ("." +:+ String path.slash (path.join l)) = path.join l.
Proof.
  intros Hne Hs Hl. unfold path.Clean.
  rewrite split_app, split_join by assumption. change (path.split ".") with ["."].
  rewrite append_cons. change (Ascii.eqb "." path.slash) with false. cbv iota.
  change (["."] ++ l) with ("."%string :: l).
  change (fold_left (path.clean_step false) ("."%string :: l) [])
    with (fold_left (path.clean_step false) l []).
  rewrite clean_fold by exact Hl. rewrite app_nil_r, rev_involutive.
  destruct l; [congruence|reflexivity].
Qed.

Lemma forallb_app_true {A} (f : A -> bool) (l1 l2 : list A) :
  forallb f l1 = true -> forallb f l2 = true -> forallb f (l1 ++ l2) = true.
Proof. intros H1 H2. rewrite forallb_app, H1, H2. reflexivity. Qed.

Lemma Join_step_nonempty (l : list string) (c : ascii) (b : string) :
  l <> [] ->
  fold_left
    (fun buf e =>
       if bool_decide (buf <> EmptyString) then buf +:+ String path.slash e
       else if bool_decide (e <> EmptyString) then e else buf)
    l (String c b)
  = String c b +:+ String path.slash (path.join l).
Proof.
  revert c b. induction l as [|e l IH]; [congruence|]. intros c b _.
  cbn [fold_left]. rewrite bool_decide_eq_true_2 by discriminate.
  destruct l as [|e' l]; [reflexivity|].
  rewrite append_cons, IH by discriminate.
  rewrite <- append_cons, append_assoc, append_cons.
  rewrite (join_cons e (e' :: l)) by discriminate. reflexivity.
Qed.

Lemma concat_split_nonempty (l : list string) :
  l <> [] -> concat (path.split <$> l) <> [].
Proof.
  destruct l as [|e l]; [congruence|]. intros _. simpl.
  pose proof (split_nonempty e). destruct (path.split e); [congruence|discriminate].
Qed.

Lemma join_concat_split (l : list string) :
  l <> [] -> path.join (concat (path.split <$> l)) = path.join l.
Proof.
  induction l as [|e l IH]; [congruence|]. intros _.
  destruct l as [|e' l].
  - simpl. rewrite app_nil_r. apply join_split.
  - change (concat (path.split <$> e :: e' :: l))
      with (path.split e ++ concat (path.split <$> e' :: l)).
    rewrite join_app by (apply split_nonempty || (apply concat_split_nonempty; discriminate)).
    rewrite join_split, IH by discriminate.
    rewrite (join_cons e) by discriminate. reflexivity.
Qed.

(** [Join] of ["."] and clean paths is these paths with slashes between. *)
Lemma Join_dot_clean (l : list string) :
  l <> [] -> forallb path.clean_path l = true ->
  path.Join ("."%string :: l) = path.join l.
Proof.
  intros Hne Hl. unfold path.Join.
  cbn [forallb]. rewrite (bool_decide_eq_false_2 ("."%string = EmptyString)) by discriminate.
  cbn [andb fold_left].
  rewrite (bool_decide_eq_false_2 (EmptyString <> EmptyString)) by (intros H; apply H; reflexivity).
  rewrite (bool_decide_eq_true_2 ("."%string <> EmptyString)) by discriminate.
  rewrite Join_step_nonempty by exact Hne.
  rewrite <- (join_concat_split l) by exact Hne.
  apply Clean_dot_clean.
  - apply concat_split_nonempty, Hne.
  - clear. induction l as [|e l IH]; [reflexivity|]. simpl.
    apply forallb_app_true; [apply split_elements_no_slash|exact IH].
  - clear Hne. induction l as [|e l IH]; [reflexivity|]. simpl in *.
    apply andb_true_iff in Hl as [He Hl].
    apply forallb_app_true; [exact He|apply IH, Hl].
Qed.

(** ** Decimal numerals *)

Lemma append_nil_r (s : string) : s +:+ EmptyString = s.
Proof. induction s as [|a s IH]; [reflexivity|]. rewrite append_cons, IH. reflexivity. Qed.

Lemma digit_value_digit (u : Z) :
  0 <= u < 10 -> strconv.digit_value (strconv.digit u) = Some u.
Proof.
  intros H.
  assert (u = 0 \/ u = 1 \/ u = 2 \/ u = 3 \/ u = 4 \/ u = 5 \/ u = 6 \/ u = 7 \/
          u = 8 \/ u = 9) as Hu by lia.
  repeat (destruct Hu as [-> | Hu]; [reflexivity|]). subst u. reflexivity.
Qed.

Lemma digit_is_zero (u : Z) :
  0 <= u < 10 -> Ascii.eqb (strconv.digit u) "0" = true -> u = 0.
Proof.
  intros H.
  assert (u = 0 \/ u = 1 \/ u = 2 \/ u = 3 \/ u = 4 \/ u = 5 \/ u = 6 \/ u = 7 \/
          u = 8 \/ u = 9) as Hu by lia.
  repeat (destruct Hu as [-> | Hu]; [first [reflexivity | discriminate]|]).
  subst u. discriminate.
Qed.

Lemma all_digits_app (s t : string) :
  strconv.all_digits (s +:+ t) = strconv.all_digits s && strconv.all_digits t.
Proof.
  induction s as [|a s IH]; [reflexivity|].
  rewrite append_cons. simpl. rewrite IH, andb_assoc. reflexivity.
Qed.

Lemma log2_div10 (u : Z) : 10 <= u -> Z.log2 (u / 10) < Z.log2 u.
Proof.
  intros H.
  assert (Z.log2 (u / 10) <= Z.log2 (u / 2)).
  { apply Z.log2_le_mono. apply Z.div_le_compat_l; lia. }
  assert (Z.log2 (u / 2) = Z.log2 u - 1).
  { change 2 with (2 ^ 1). rewrite <- Z.shiftr_div_pow2 by lia.
    rewrite Z.log2_shiftr by lia.
    assert (3 <= Z.log2 u) by (apply Z.log2_le_pow2; lia). lia. }
  lia.
Qed.

Lemma formatBits_spec (fuel : nat) :
  forall (u : Z) (acc : string),
    0 <= u -> Z.log2 u < Z.of_nat fuel ->
    exists (c : ascii) (ds : string) (n : Z),
      strconv.formatBits fuel u acc = String c ds +:+ acc /\
      strconv.all_digits (String c ds) = true /\
      (Ascii.eqb c "0" = true -> u = 0 /\ ds = EmptyString) /\
      0 <= n /\
      forall k rest,
        strconv.digits_value k (String c ds +:+ rest)
        = strconv.digits_value (k * 10 ^ n + u) rest.
Proof.
  induction fuel as [|fuel IH]; intros u acc Hu Hlog.
  - pose proof (Z.log2_nonneg u). lia.
  - cbn [strconv.formatBits]. destruct (10 <=? u) eqn:E.
    + apply Z.leb_le in E.
      destruct (IH (u / 10) (String (strconv.digit (u mod 10)) acc))
        as (c & ds & n & Hfmt & Hall & Hzero & Hn & Hval).
      { apply Z.div_pos; lia. }
      { pose proof (log2_div10 u E). lia. }
      assert (Hmod : 0 <= u mod 10 < 10) by (apply Z.mod_pos_bound; lia).
      exists c, (ds +:+ String (strconv.digit (u mod 10)) EmptyString), (n + 1).
      split.
      { rewrite Hfmt. rewrite <- append_cons, append_assoc. reflexivity. }
      split.
      { rewrite <- append_cons, all_digits_app, Hall.
        cbn [strconv.all_digits andb].
        rewrite digit_value_digit by exact Hmod. reflexivity. }
      split.
      { intros Hc. destruct (Hzero Hc) as [Hdiv _].
        assert (u < 10) by (apply Z.div_small_iff in Hdiv; lia). lia. }
      split; [lia|].
      intros k rest. rewrite <- append_cons, append_assoc, Hval.
      rewrite append_cons, append_nil_l. cbn [strconv.digits_value].
      rewrite digit_value_digit by exact Hmod. f_equal.
      rewrite Z.pow_add_r, Z.pow_1_r by lia.
      pose proof (Z.div_mod u 10 ltac:(lia)) as Hdm.
      set (p := 10 ^ n) in *. set (q := u / 10) in *. set (m := u mod 10) in *.
      rewrite Hdm. ring.
    + apply Z.leb_gt in E.
      exists (strconv.digit u), EmptyString, 1.
      split; [reflexivity|].
      split.
      { cbn [strconv.all_digits].
        rewrite digit_value_digit by lia. reflexivity. }
      split.
      { intros Hc. split; [apply digit_is_zero; [lia|exact Hc]|reflexivity]. }
      split; [lia|].
      intros k rest. rewrite append_cons, append_nil_l. cbn [strconv.digits_value].
      rewrite digit_value_digit by lia. f_equal.
Qed.

Lemma FormatUint_spec (u : Z) :
  0 <= u ->
  exists (c : ascii) (ds : string),
    strconv.FormatUint u = String c ds /\
    strconv.all_digits (String c ds) = true /\
    (Ascii.eqb c "0" = true -> u = 0 /\ ds = EmptyString) /\
    strconv.digits_value 0 (String c ds) = Some u.
Proof.
  intros Hu. unfold strconv.FormatUint.
  destruct (formatBits_spec (Datatypes.S (Z.to_nat (Z.log2 u))) u EmptyString Hu)
    as (c & ds & n & Hfmt & Hall & Hzero & Hn & Hval).
  { pose proof (Z.log2_nonneg u). lia. }
  exists c, ds. rewrite Hfmt, append_nil_r.
  repeat split; try assumption; try (apply Hzero; assumption).
  specialize (Hval 0 EmptyString). rewrite append_nil_r in Hval. rewrite Hval.
  reflexivity.
Qed.

Lemma digit_char_facts (c : ascii) :
  is_Some (strconv.digit_value c) ->
  Ascii.eqb c "-" = false /\ Ascii.eqb c path.slash = false /\ c <> "."%char.
Proof.
  intros H. repeat split.
  - destruct (Ascii.eqb c "-") eqn:E; [|reflexivity].
    apply Ascii.eqb_eq in E. subst c. destruct H as [? H]. discriminate.
  - destruct (Ascii.eqb c path.slash) eqn:E; [|reflexivity].
    apply Ascii.eqb_eq in E. subst c. destruct H as [? H]. discriminate.
  - intros ->. destruct H as [? H]. discriminate.
Qed.

Lemma all_digits_no_slash (s : string) :
  strconv.all_digits s = true -> path.no_slash s = true.
Proof.
  induction s as [|a s IH]; [reflexivity|]. simpl. intros H.
  apply andb_true_iff in H as [Ha Hs]. apply bool_decide_eq_true in Ha.
  destruct (digit_char_facts a Ha) as (_ & Hsl & _).
  rewrite Hsl, IH by exact Hs. reflexivity.
Qed.

(** [FormatInt] writes the decimal numeral of its argument, without leading
    zeros and with ['-'] in front of a negative number. *)
Lemma FormatInt_decimal (i : Z) :
  strconv.canonical_decimal (strconv.FormatInt i) = true /\
  strconv.decimal_value (strconv.FormatInt i) = Some i.
Proof.
  unfold strconv.FormatInt. destruct (i <? 0) eqn:E.
  - apply Z.ltb_lt in E.
    destruct (FormatUint_spec (- i)) as (c & ds & Hfmt & Hall & Hzero & Hval); [lia|].
    rewrite Hfmt. cbn [strconv.canonical_decimal strconv.decimal_value].
    change (Ascii.eqb "-" "-") with true. cbv iota.
    rewrite Hval. cbn [strconv.canonical_unsigned]. rewrite Hall.
    destruct (Ascii.eqb c "0") eqn:Ec.
    + destruct (Hzero eq_refl). lia.
    + split; [reflexivity|]. simpl. f_equal. lia.
  - apply Z.ltb_ge in E.
    destruct (FormatUint_spec i E) as (c & ds & Hfmt & Hall & Hzero & Hval).
    rewrite Hfmt. cbn [strconv.canonical_decimal strconv.decimal_value].
    assert (Hc : is_Some (strconv.digit_value c)).
    { simpl in Hall. apply andb_true_iff in Hall as [Hc _].
      apply bool_decide_eq_true in Hc. exact Hc. }
    destruct (digit_char_facts c Hc) as (Hminus & _).
    rewrite Hminus, Hval. split; [|reflexivity].
    cbn [strconv.canonical_unsigned]. rewrite Hall.
    destruct (Ascii.eqb c "0") eqn:Ec.
    + destruct (Hzero eq_refl) as [_ ->]. apply Ascii.eqb_eq in Ec. subst c. reflexivity.
    + apply orb_true_r.
Qed.

(** The numeral has no slash and does not start with a dot. *)
Lemma FormatInt_shape (i : Z) :
  exists (c : ascii) (s : string),
    strconv.FormatInt i = String c s /\ c <> "."%char /\
    path.no_slash (String c s) = true.
Proof.
  unfold strconv.FormatInt. destruct (i <? 0) eqn:E.
  - apply Z.ltb_lt in E.
    destruct (FormatUint_spec (- i)) as (c & ds & Hfmt & Hall & _); [lia|].
    exists "-"%char, (String c ds). rewrite Hfmt.
    split; [reflexivity|]. split; [discriminate|].
    change (path.no_slash (String "-" (String c ds))) with (path.no_slash (String c ds)).
    apply all_digits_no_slash, Hall.
  - apply Z.ltb_ge in E.
    destruct (FormatUint_spec i E) as (c & ds & Hfmt & Hall & _).
    exists c, ds. split; [exact Hfmt|].
    split; [|apply all_digits_no_slash, Hall].
    simpl in Hall. apply andb_true_iff in Hall as [Hc _].
    apply bool_decide_eq_true in Hc. apply (digit_char_facts c Hc).
Qed.

Lemma clean_path_shape (c : ascii) (s : string) :
  c <> "."%char -> path.no_slash (String c s) = true ->
  path.clean_path (String c s) = true.
Proof.
  intros Hc Hs. unfold path.clean_path. rewrite split_no_slash by exact Hs.
  cbn [forallb]. rewrite clean_element_head by exact Hc. reflexivity.
Qed.

(** ** What [cacheSave] does, and the enumeration of the resident map *)

Lemma ancestors_self (p : string) : p ∈ ancestors p.
Proof.
  unfold ancestors. apply list_elem_of_fmap.
  pose proof (split_nonempty p) as Hne.
  exists (Nat.pred (length (path.split p))). split.
  - assert (Hlen : Datatypes.S (Nat.pred (length (path.split p))) = length (path.split p)).
    { destruct (path.split p); [congruence|reflexivity]. }
    rewrite Hlen, firstn_all. symmetry. apply join_split.
  - apply elem_of_seq. destruct (path.split p); [congruence|]. simpl. lia.
Qed.

Lemma mkdirs_lookup (perm : Z) (ds : gmap string Z) (l : list string) (d : string) :
  let step := fun d ds => match ds !! d with
                          | Some _ => ds
                          | None => <[d := perm]> ds
                          end in
  foldr step ds l !! d =
    match ds !! d with
    | Some v => Some v
    | None => if bool_decide (d ∈ l) then Some perm else None
    end.
Proof.
  intros step. destruct (ds !! d) as [v|] eqn:Ed.
  - induction l as [|e l IH]; [exact Ed|].
    cbn [foldr]. unfold step at 1.
    destruct (foldr step ds l !! e) eqn:Ee; [exact IH|].
    destruct (decide (d = e)) as [Heq|Hne]; [subst e; congruence|].
    rewrite lookup_insert_ne by congruence. exact IH.
  - induction l as [|e l IH].
    + cbn [foldr]. rewrite Ed. rewrite bool_decide_eq_false_2; [reflexivity|].
      apply not_elem_of_nil.
    + cbn [foldr]. unfold step at 1.
      destruct (decide (d = e)) as [Heq|Hne].
      * subst e. rewrite (bool_decide_eq_true_2 (d ∈ d :: l)) by left.
        destruct (foldr step ds l !! d) eqn:Ee.
        -- rewrite Ee.
           destruct (bool_decide (d ∈ l)); [congruence|discriminate].
        -- apply lookup_insert_eq.
      * assert (Hin : bool_decide (d ∈ e :: l) = bool_decide (d ∈ l)).
        { apply bool_decide_ext. rewrite elem_of_cons. tauto. }
        rewrite Hin.
        destruct (foldr step ds l !! e); [exact IH|].
        rewrite lookup_insert_ne by congruence. exact IH.
Qed.

(** What [cacheSave] does to the file system: its calls are made in the
    order [MkdirAll], [Create], [Encode], [Close] and stop at the first one
    that fails; when none fails the file holds the raster, and its
    directory, where it was missing, has been made with mode [0764]. *)
Lemma cacheSave_calls (env : Env) (w : World) (a : ptr) (r : image.RGBA)
    (world dim render : string) (s x z : Z) :
  heap w !! a = Some r ->
  let fp := cacheGetFilename env world dim render s x z in
  let all := [SysMkdirAll (path.Dir fp) mode_0764; SysCreate fp; SysEncode fp; SysClose fp] in
  exists err w',
    cacheSave env (Some a) world dim render s x z w = Ok err w' /\
    (exists n, calls (fs w') = calls (fs w) ++ take (Datatypes.S n) all) /\
    heap w' = heap w /\ chans w' = chans w /\ ticks w' = ticks w /\
    imageCacheProcess w' = imageCacheProcess w /\ imageCache w' = imageCache w /\
    ioreadwaiting w' = ioreadwaiting w /\ iotasks w' = iotasks w /\
    ioreturn w' = ioreturn w /\
    (err = None ->
       calls (fs w') = calls (fs w) ++ all /\
       files (fs w') !! fp = Some (PNG r) /\
       (dirs (fs w) !! path.Dir fp = None ->
        dirs (fs w') !! path.Dir fp = Some mode_0764)).
Proof.
  intros Ha fp all. unfold cacheSave. fold fp.
  munfold. unfold MkdirAll. mproj.
  destruct (forallb _ (ancestors (path.Dir fp))) eqn:Eanc; cbv beta iota; mproj.
  2:{ eexists _, _. split; [reflexivity|]. mproj.
      split; [exists 0%nat; reflexivity|].
      repeat (split; [reflexivity|]). discriminate. }
  unfold Create. mproj.
  match goal with |- context [foldr ?f ?d ?l] => set (ds := foldr f d l) end.
  destruct (ds !! fp) eqn:Edir; cbv beta iota; mproj.
  { eexists _, _. split; [reflexivity|]. mproj.
    split; [exists 1%nat; rewrite <- app_assoc; reflexivity|].
    repeat (split; [reflexivity|]). discriminate. }
  rewrite Ha. cbv beta iota. unfold Encode, Close. mproj.
  destruct ((image.Dx (image.RGBA_Rect r) <=? 0) || (image.Dy (image.RGBA_Rect r) <=? 0));
    cbv beta iota; mproj.
  { eexists _, _. split; [reflexivity|]. mproj.
    split; [exists 2%nat; rewrite <- !app_assoc; reflexivity|].
    repeat (split; [reflexivity|]). discriminate. }
  eexists _, _. split; [reflexivity|]. mproj.
  split; [exists 3%nat; rewrite <- !app_assoc; reflexivity|].
  repeat (split; [reflexivity|]). intros _.
  split; [rewrite <- !app_assoc; reflexivity|].
  split; [apply lookup_insert_eq|].
  intros Hd. subst ds. rewrite mkdirs_lookup, Hd.
  rewrite bool_decide_eq_true_2 by apply ancestors_self. reflexivity.
Qed.

(** The outcome of [cacheSave]: it goes through exactly when [can_save]
    holds, and then the file holds the raster; otherwise it stops before
    the file is closed. No other file is touched. *)
Lemma cacheSave_outcome (env : Env) (w : World) (a : ptr) (r : image.RGBA)
    (world dim render : string) (s x z : Z) :
  heap w !! a = Some r ->
  let fp := cacheGetFilename env world dim render s x z in
  let all := [SysMkdirAll (path.Dir fp) mode_0764; SysCreate fp; SysEncode fp; SysClose fp] in
  exists err w',
    cacheSave env (Some a) world dim render s x z w = Ok err w' /\
    (forall p, p <> fp -> files (fs w') !! p = files (fs w) !! p) /\
    (if can_save (fs w) fp r
     then err = None /\ calls (fs w') = calls (fs w) ++ all /\
          files (fs w') !! fp = Some (PNG r)
     else err <> None /\
          exists n, (n < 3)%nat /\ calls (fs w') = calls (fs w) ++ take (Datatypes.S n) all).
Proof.
  intros Ha fp all. unfold cacheSave, can_save. fold fp.
  munfold. unfold MkdirAll. mproj.
  destruct (forallb _ (ancestors (path.Dir fp))) eqn:Eanc; cbv beta iota; mproj.
  2:{ eexists _, _. split; [reflexivity|]. mproj.
      split; [intros; reflexivity|]. cbn [andb].
      split; [discriminate|]. exists 0%nat. split; [lia|reflexivity]. }
  unfold Create. mproj.
  match goal with |- context [foldr ?f ?d ?l] => set (ds := foldr f d l) end.
  assert (Hds : ds !! fp =
            match dirs (fs w) !! fp with
            | Some v => Some v
            | None => if bool_decide (fp ∈ ancestors (path.Dir fp)) then Some mode_0764 else None
            end) by (subst ds; apply mkdirs_lookup).
  cbn [andb].
  destruct (ds !! fp) as [v|] eqn:Edir; cbv beta iota; mproj.
  { eexists _, _. split; [reflexivity|]. mproj.
    split; [intros; reflexivity|].
    assert (Hno : bool_decide (dirs (fs w) !! fp = None) &&
                  negb (bool_decide (fp ∈ ancestors (path.Dir fp))) = false).
    { destruct (dirs (fs w) !! fp) as [v'|] eqn:Ed.
      - rewrite bool_decide_eq_false_2 by discriminate. reflexivity.
      - rewrite bool_decide_eq_true_2 by reflexivity.
        destruct (bool_decide (fp ∈ ancestors (path.Dir fp))); [reflexivity|discriminate]. }
    rewrite Hno. cbn [andb].
    split; [discriminate|]. exists 1%nat. split; [lia|].
    rewrite <- app_assoc. reflexivity. }
  assert (Hyes : bool_decide (dirs (fs w) !! fp = None) &&
                 negb (bool_decide (fp ∈ ancestors (path.Dir fp))) = true).
  { destruct (dirs (fs w) !! fp) as [v'|] eqn:Ed; [discriminate|].
    rewrite bool_decide_eq_true_2 by reflexivity.
    destruct (bool_decide (fp ∈ ancestors (path.Dir fp))); [discriminate|reflexivity]. }
  rewrite Hyes. cbn [andb].
  rewrite Ha. cbv beta iota. unfold Encode, Close. mproj.
  destruct ((image.Dx (image.RGBA_Rect r) <=? 0) || (image.Dy (image.RGBA_Rect r) <=? 0));
    cbv beta iota; mproj; cbn [negb].
  { eexists _, _. split; [reflexivity|]. mproj.
    split; [intros p Hp; apply lookup_insert_ne; congruence|].
    split; [discriminate|]. exists 2%nat. split; [lia|].
    rewrite <- !app_assoc. reflexivity. }
  eexists _, _. split; [reflexivity|]. mproj.
  split; [intros p Hp; rewrite !lookup_insert_ne by congruence; reflexivity|].
  split; [reflexivity|]. split; [rewrite <- !app_assoc; reflexivity|].
  apply lookup_insert_eq.
Qed.

Lemma range_order_elem (env : Env) (m : gmap imageLoc cachedImage) k v :
  (k, v) ∈ range_order env m <-> m !! k = Some v.
Proof.
  rewrite (range_order_perm env m). apply elem_of_map_to_list.
Qed.

(** The scan for the oldest entry: the time kept is the least of the start
    time and the [lastUse] of the entries seen, and the key kept is the
    start key or the key of an entry seen with that [lastUse]. *)
Lemma oldest_scan (l : list (imageLoc * cachedImage)) :
  forall (t0 : Time) (k0 : imageLoc),
    let r := foldl (fun '(oldest, oldestk) '(k, v) =>
                      if After oldest (lastUse v) then (lastUse v, k)
                      else (oldest, oldestk))
                   (t0, k0) l in
    (forall k v, (k, v) ∈ l -> fst r <= lastUse v) /\
    ((fst r = t0 /\ snd r = k0) \/
     (fst r < t0 /\ exists v, (snd r, v) ∈ l /\ lastUse v = fst r)).
Proof.
  induction l as [|[k1 v1] l IH]; intros t0 k0; cbv zeta.
  - cbn. split; [intros k v H; apply elem_of_nil in H; contradiction|].
    left. split; reflexivity.
  - cbn [foldl].
    destruct (After t0 (lastUse v1)) eqn:E; unfold After in E.
    + apply Z.ltb_lt in E.
      destruct (IH (lastUse v1) k1) as [Hmin Hkey]. cbv zeta in Hmin, Hkey.
      split.
      * intros k v Hin. apply elem_of_cons in Hin as [Heq|Hin]; [|apply (Hmin _ _ Hin)].
        injection Heq as -> ->. destruct Hkey as [[Ht _]|[Hlt _]]; lia.
      * right. destruct Hkey as [[Ht Hk]|[Hlt (v & Hin & Hv)]].
        -- rewrite Ht, Hk. split; [lia|]. exists v1. split; [left|reflexivity].
        -- split; [lia|]. exists v. split; [right; exact Hin|exact Hv].
    + apply Z.ltb_ge in E.
      destruct (IH t0 k0) as [Hmin Hkey]. cbv zeta in Hmin, Hkey.
      split.
      * intros k v Hin. apply elem_of_cons in Hin as [Heq|Hin]; [|apply (Hmin _ _ Hin)].
        injection Heq as -> ->. destruct Hkey as [[Ht _]|[Hlt _]]; lia.
      * destruct Hkey as [Hsame|[Hlt (v & Hin & Hv)]]; [left; exact Hsame|].
        right. split; [exact Hlt|]. exists v. split; [right; exact Hin|exact Hv].
Qed.

(** ** Invariant I1: resident keys are at the storage level *)

Lemma keeps_bind {A B} (m : M A) (f : A -> M B) :
  keeps_keys m -> (forall a, keeps_keys (f a)) -> keeps_keys (m ≫= f).
Proof.
  intros Hm Hf w b w' Hrun HI. unfold mbind, M_bind in Hrun.
  destruct (m w) as [a w1|] eqn:E; [|discriminate].
  apply (Hf a w1 b w' Hrun). apply (Hm w a w1 E HI).
Qed.

Lemma keeps_frame {A} (m : M A) :
  (forall w a w', m w = Ok a w' -> imageCache w' = imageCache w) -> keeps_keys m.
Proof. intros H w a w' Hrun HI. rewrite (H w a w' Hrun). exact HI. Qed.

Lemma keeps_ret {A} (a : A) : keeps_keys (mret a : M A).
Proof. apply keeps_frame. intros w b w' H. inversion H; subst; reflexivity. Qed.

Lemma keeps_gets {A} (f : World -> A) : keeps_keys (gets f).
Proof. apply keeps_frame. intros w b w' H. inversion H; subst; reflexivity. Qed.

Lemma keeps_modify (f : World -> World) :
  (forall w, imageCache (f w) = imageCache w) -> keeps_keys (modify f).
Proof. intros Hf. apply keeps_frame. intros w b w' H. inversion H; subst; apply Hf. Qed.

Lemma keeps_Now (env : Env) : keeps_keys (Now env).
Proof. apply keeps_frame. intros w b w' H. inversion H; subst; reflexivity. Qed.

Lemma keeps_deref (p : option ptr) : keeps_keys (deref p).
Proof.
  apply keeps_frame. intros w b w' H. unfold deref in H.
  destruct p; [|discriminate]. destruct (heap w !! p); [|discriminate].
  inversion H; subst; reflexivity.
Qed.

Lemma keeps_new (r : image.RGBA) : keeps_keys (new r).
Proof. apply keeps_frame. intros w b w' H. inversion H; subst; reflexivity. Qed.

Lemma keeps_send (c : chan) (v : ptr) : keeps_keys (send c v).
Proof.
  apply keeps_frame. intros w b w' H. unfold send in H.
  destruct (closed (chan_state c w)); [discriminate|]. inversion H; subst; reflexivity.
Qed.

Lemma keeps_close (c : chan) : keeps_keys (close c).
Proof.
  apply keeps_frame. intros w b w' H. unfold close in H.
  destruct (closed (chan_state c w)); [discriminate|]. inversion H; subst; reflexivity.
Qed.

Lemma keeps_sys {A} (op : FS -> FS * A) : keeps_keys (sys op).
Proof.
  apply keeps_frame. intros w b w' H. unfold sys in H.
  destruct (op (fs w)). inversion H; subst; reflexivity.
Qed.

Lemma keeps_panic {A} (msg : string) : keeps_keys (panic msg : M A).
Proof. intros w a w' H. discriminate H. Qed.

Lemma keeps_forM_ {A} (l : list A) (f : A -> M unit) :
  (forall a, keeps_keys (f a)) -> keeps_keys (forM_ l f).
Proof.
  intros Hf. induction l as [|a l IH]; [apply keeps_ret|].
  change (forM_ (a :: l) f) with (f a ≫= (fun _ => forM_ l f)).
  apply keeps_bind; [apply Hf|intros _; exact IH].
Qed.

Lemma keeps_setCache (k : imageLoc) (i : cachedImage) :
  S_ k = imageCacheStorageLevel -> keeps_keys (setCache k i).
Proof.
  intros Hk w a w' H HI. inversion H; subst. cbn [imageCache with_imageCache].
  apply map_Forall_insert_2; assumption.
Qed.

Lemma keeps_evict (env : Env) : keeps_keys (evict env).
Proof.
  unfold evict. apply keeps_bind; [apply keeps_gets|]. intros m.
  destruct (imageCacheMaxCache <? Z.of_nat (size m)); [|apply keeps_ret].
  apply keeps_bind; [apply keeps_Now|]. intros t.
  destruct (foldl _ _ _) as [t' k].
  intros w a w' H HI. inversion H; subst. cbn [imageCache with_imageCache].
  apply map_Forall_delete. exact HI.
Qed.

(** Goes through a piece of code made of the operations above. *)
Ltac keeps_base extra :=
  repeat first
    [ extra
    | apply keeps_ret | apply keeps_gets | apply keeps_Now | apply keeps_deref
    | apply keeps_new | apply keeps_send | apply keeps_close | apply keeps_sys
    | apply keeps_panic | apply keeps_evict
    | apply keeps_setCache; first [reflexivity | assumption]
    | apply keeps_modify; intros; reflexivity
    | apply keeps_forM_; intros ?
    | apply keeps_bind; [|intros ?]
    | match goal with
      | |- keeps_keys (match ?x with _ => _ end) => destruct x
      | |- keeps_keys (let '(_, _) := ?x in _) => destruct x
      end ].

Ltac keeps := keeps_base fail.

Lemma keeps_cacheLoad (env : Env) world dim render s x z :
  keeps_keys (cacheLoad env world dim render s x z).
Proof. unfold cacheLoad. keeps. Qed.

Lemma keeps_cacheSave (env : Env) im world dim render s x z :
  keeps_keys (cacheSave env im world dim render s x z).
Proof. unfold cacheSave. keeps. Qed.

Lemma keeps_drawDraw dst r src sp op : keeps_keys (drawDraw dst r src sp op).
Proof. unfold drawDraw. keeps. Qed.

Lemma keeps_copyImage im : keeps_keys (copyImage im).
Proof. unfold copyImage. keeps. Qed.

Lemma keeps_NewRGBA r : keeps_keys (NewRGBA r).
Proof. unfold NewRGBA. keeps. Qed.

Lemma keeps_powarr_at i : keeps_keys (powarr_at i).
Proof. unfold powarr_at. keeps. Qed.

Ltac keeps_code :=
  keeps_base ltac:(first [ apply keeps_cacheLoad | apply keeps_cacheSave
                         | apply keeps_drawDraw | apply keeps_copyImage
                         | apply keeps_NewRGBA | apply keeps_powarr_at ]).

Lemma keeps_readZoomOutTile (env : Env) p out bx bz xz :
  keeps_keys (readZoomOutTile env p out bx bz xz).
Proof. unfold readZoomOutTile. keeps_code. Qed.

Lemma keeps_onTask (env : Env) (p : imageTask) : keeps_keys (onTask env p).
Proof.
  unfold onTask. destruct (task_img p); [|destruct (ret p) as [r|]].
  - unfold write. apply keeps_bind; [apply keeps_gets|]. intros m.
    destruct (S_ (loc p) =? imageCacheStorageLevel) eqn:ES.
    + apply Z.eqb_eq in ES. keeps_code.
    + keeps_code.
  - destruct (S_ (loc p) =? imageCacheStorageLevel) eqn:ES.
    + apply Z.eqb_eq in ES. unfold readExact. keeps_code.
    + destruct (S_ (loc p) <? imageCacheStorageLevel).
      * unfold readZoomIn. keeps_code.
      * unfold readZoomOut. keeps_base ltac:(first [apply keeps_readZoomOutTile | apply keeps_NewRGBA | apply keeps_powarr_at]).
  - apply keeps_ret.
Qed.

Lemma keeps_onReturn (p : imageTask) : keeps_keys (onReturn p).
Proof. unfold onReturn. keeps. Qed.

Lemma keeps_onFlushTick (env : Env) : keeps_keys (onFlushTick env).
Proof.
  unfold onFlushTick. apply keeps_bind; [apply keeps_gets|]. intros m.
  apply keeps_forM_. intros [k v]. unfold flushEntry. keeps_code.
Qed.

Lemma keeps_imageCacheWorker (env : Env) : keeps_keys (imageCacheWorker env).
Proof. unfold imageCacheWorker. keeps_code. Qed.

Lemma keeps_actorTakesTask (env : Env) : keeps_keys (actorTakesTask env).
Proof.
  unfold actorTakesTask. keeps_base ltac:(apply keeps_onTask).
Qed.

Lemma keeps_actorTakesReturn : keeps_keys actorTakesReturn.
Proof.
  unfold actorTakesReturn. keeps_base ltac:(apply keeps_onReturn).
Qed.

Lemma step_keeps_keys (env : Env) (w w' : World) :
  step env w w' -> storage_keys (imageCache w) -> storage_keys (imageCache w').
Proof.
  intros Hstep HI. destruct Hstep as [l w c w' H|im wd d r s x z w w' H|r w a w' H
                                     |w w' H|w w' H|w w' H|w w' H].
  - inversion H; subst. exact HI.
  - inversion H; subst. exact HI.
  - apply (keeps_new r w a w' H HI).
  - apply (keeps_actorTakesTask env w tt w' H HI).
  - apply (keeps_actorTakesReturn w tt w' H HI).
  - apply (keeps_onFlushTick env w tt w' H HI).
  - apply (keeps_imageCacheWorker env w tt w' H HI).
Qed.

(** Invariant I1: started with an empty resident map, the system only ever
    holds keys of the storage level in it. *)
Theorem storage_keys_reachable (env : Env) (w0 w : World) :
  imageCache w0 = ∅ -> rtc (step env) w0 w -> storage_keys (imageCache w).
Proof.
  intros H0 Hrtc.
  assert (HI : storage_keys (imageCache w0)) by (rewrite H0; apply map_Forall_empty).
  clear H0. induction Hrtc as [|w1 w2 w3 Hstep _ IH]; [exact HI|].
  apply IH, (step_keeps_keys env w1 w2 Hstep HI).
Qed.
(** ** C1: a read of a tile that is not on disk *)

(** C1, on the code. A read at the storage level of a tile that is neither
    resident nor on disk: once the worker has found no file, nothing is left to run, the
    requester's channel has received nothing and is not closed, and the
    key stays in the waiters table. *)
Lemma read_absent_never_answered :
  outcome (get_run env0 loc500 world0)
    (fun c w' =>
       quiescent w' /\
       chan_state c w' = mkChanState [] false /\
       imageCacheGetBlockingLoc_recv c w' = None /\
       ioreadwaiting w' !! loc500 = Some [c] /\
       calls (fs w') = [SysOpen "imageCache/w/d/l/5/0x0.png"]).
Proof. vm_compute. repeat split; reflexivity. Qed.

(** The same with a file that does not decode: the worker removes the
    file and returns the request without a raster, which the actor drops. *)
Lemma read_undecodable_never_answered :
  outcome (get_run env0 loc500 world_broken_file)
    (fun c w' =>
       quiescent w' /\
       chan_state c w' = mkChanState [] false /\
       imageCacheGetBlockingLoc_recv c w' = None /\
       ioreadwaiting w' !! loc500 = Some [c] /\
       files (fs w') = ∅).
Proof. vm_compute. repeat split; reflexivity. Qed.

(** When the file is there, every waiter receives the loaded raster once
    and the key leaves the waiters table. *)
Lemma onReturn_delivers (w : World) (l : imageLoc) (a : ptr) (rt : option chan)
    (waiters : list chan) :
  ioreadwaiting w !! l = Some waiters ->
  NoDup waiters ->
  (forall c, c ∈ waiters -> closed (chan_state c w) = false) ->
  exists w',
    onReturn (mkImageTask l (Some a) rt) w = Ok tt w' /\
    ioreadwaiting w' = delete l (ioreadwaiting w) /\
    (forall c, c ∈ waiters ->
       chan_state c w' = mkChanState (sent (chan_state c w) ++ [a]) false) /\
    (forall c, c ∉ waiters -> chan_state c w' = chan_state c w) /\
    imageCache w' = imageCache w /\ heap w' = heap w /\ fs w' = fs w /\
    iotasks w' = iotasks w /\ ioreturn w' = ioreturn w.
Proof.
  intros Hw Hnd Hopen. unfold onReturn. mproj.
  rewrite (bind_Ok _ _ _ _ _ (gets_Ok _ w)). rewrite Hw.
  assert (Hloop : exists w1,
    forM_ waiters (fun r => send r a) w = Ok tt w1 /\
    (forall c, c ∈ waiters ->
       chan_state c w1 = mkChanState (sent (chan_state c w) ++ [a]) false) /\
    (forall c, c ∉ waiters -> chan_state c w1 = chan_state c w) /\
    imageCache w1 = imageCache w /\ heap w1 = heap w /\ fs w1 = fs w /\
    iotasks w1 = iotasks w /\ ioreturn w1 = ioreturn w /\
    ioreadwaiting w1 = ioreadwaiting w).
  { clear Hw. revert w Hopen. induction waiters as [|c cs IH]; intros w Hopen.
    - exists w. split; [reflexivity|].
      split; [intros c H; apply elem_of_nil in H; contradiction|].
      repeat split; reflexivity.
    - apply NoDup_cons in Hnd as [Hc Hnd].
      set (w0 := with_chans (<[c := mkChanState (sent (chan_state c w) ++ [a]) false]>
                               (chans w)) w).
      assert (Hsend : send c a w = Ok tt w0).
      { unfold send. rewrite (Hopen c) by left. reflexivity. }
      assert (Hother : forall c', c' <> c -> chan_state c' w0 = chan_state c' w).
      { intros c' Hne. unfold chan_state, w0. mproj. rewrite lookup_insert_ne by congruence.
        reflexivity. }
      assert (Hself : chan_state c w0 = mkChanState (sent (chan_state c w) ++ [a]) false).
      { unfold chan_state at 1, w0. mproj. rewrite lookup_insert_eq. reflexivity. }
      destruct (IH Hnd w0) as (w1 & Hrun & Hin & Hout & Hm & Hh & Hf & Hio & Hret & Hwt).
      { intros c' Hc'. rewrite Hother; [apply Hopen; right; exact Hc'|].
        intros ->. contradiction. }
      exists w1. split.
      { change (forM_ (c :: cs) (fun r => send r a))
          with (send c a ≫= (fun _ => forM_ cs (fun r => send r a))).
        rewrite (bind_Ok _ _ _ _ _ Hsend). exact Hrun. }
      split.
      { intros c' Hc'. apply elem_of_cons in Hc' as [->|Hc'].
        - rewrite (Hout c Hc). exact Hself.
        - rewrite (Hin c' Hc'). rewrite Hother; [reflexivity|].
          intros ->. contradiction. }
      split.
      { intros c' Hc'. rewrite Hout.
        - apply Hother. intros ->. apply Hc'. left.
        - intros H. apply Hc'. right. exact H. }
      repeat split; assumption. }
  destruct Hloop as (w1 & Hrun & Hin & Hout & Hm & Hh & Hf & Hio & Hret & Hwt).
  eexists. split.
  { rewrite (bind_Ok _ _ _ _ _ Hrun). reflexivity. }
  mproj. split; [rewrite Hwt; reflexivity|].
  unfold chan_state in *. mproj.
  repeat split; assumption.
Qed.

(** A worker that takes a read request for a file that does not exist
    returns nothing to the actor and touches no channel. *)
Lemma worker_read_absent_posts_nothing (env : Env) (w : World) (p : imageTask)
    (q : list imageTask) :
  iotasks w = p :: q ->
  task_img p = None ->
  files (fs w) !! cacheGetFilename env (World_ (loc p)) (Dimension (loc p)) (Layer (loc p))
                    imageCacheStorageLevel (X_ (loc p)) (Z_ (loc p)) = None ->
  exists w',
    imageCacheWorker env w = Ok tt w' /\
    iotasks w' = q /\ ioreturn w' = ioreturn w /\ chans w' = chans w /\
    ioreadwaiting w' = ioreadwaiting w /\ imageCache w' = imageCache w.
Proof.
  intros Hq Hp Hf. unfold imageCacheWorker.
  rewrite (bind_Ok _ _ _ _ _ (gets_Ok _ w)). rewrite Hq.
  rewrite (bind_Ok _ _ _ _ _ (modify_Ok _ w)). rewrite Hp.
  rewrite (bind_Ok _ _ _ _ _
             (cacheLoad_absent env (with_iotasks q w) _ _ _ _ _ _ Hf)).
  eexists. split; [reflexivity|]. mproj. repeat split; reflexivity.
Qed.

(** ** C2: a read of a tile that is on disk *)

(** C2, on the code. A read at the storage level of a tile that is on disk
    and not resident:
    the requester receives the loaded raster, and the resident map is still
    empty; a second read of the same key is not a hit: it queues another
    read for the workers. *)
Lemma read_loaded_not_resident :
  outcome (get_run env0 loc500 world_on_disk)
    (fun c w' =>
       quiescent w' /\
       imageCacheGetBlockingLoc_recv c w' = Some (Some 1%positive) /\
       heap w' !! 1%positive = Some (decoded env0 blue512) /\
       ioreadwaiting w' !! loc500 = None /\
       imageCache w' !! loc500 = None /\
       size (imageCache w') = 0%nat /\
       outcome ((c2 ← imageCacheGetBlockingLoc_send loc500; actorTakesTask env0;; mret c2) w')
         (fun c2 w'' =>
            imageCacheGetBlockingLoc_recv c2 w'' = None /\
            iotasks w'' = [mkImageTask loc500 None (Some c2)] /\
            ioreadwaiting w'' !! loc500 = Some [c2])).
Proof. vm_compute. repeat split; reflexivity. Qed.

(** ** C3: eviction *)

(** C3, as the code has it. The eviction step enqueues no write request and
    makes no file system call, whatever the dirty flag of the entry it
    removes. With more than [imageCacheMaxCache] entries, all of them at the
    storage level, it removes the entry of one key, used before now and not
    after any other entry; when no entry was used before now it removes
    nothing. *)
Theorem evict_without_write_back (env : Env) (w : World) :
  storage_keys (imageCache w) ->
  exists w',
    evict env w = Ok tt w' /\
    iotasks w' = iotasks w /\ ioreturn w' = ioreturn w /\ fs w' = fs w /\
    heap w' = heap w /\ chans w' = chans w /\
    ioreadwaiting w' = ioreadwaiting w /\
    imageCacheProcess w' = imageCacheProcess w /\
    ((Z.of_nat (size (imageCache w)) <= imageCacheMaxCache /\ w' = w) \/
     (imageCacheMaxCache < Z.of_nat (size (imageCache w)) /\
      exists k,
        imageCache w' = delete k (imageCache w) /\
        match imageCache w !! k with
        | Some e =>
            lastUse e < clock env (ticks w) /\
            forall k' e', imageCache w !! k' = Some e' -> lastUse e <= lastUse e'
        | None =>
            forall k' e', imageCache w !! k' = Some e' -> clock env (ticks w) <= lastUse e'
        end)).
Proof.
  intros HI1. unfold evict. munfold.
  destruct (imageCacheMaxCache <? Z.of_nat (size (imageCache w))) eqn:E.
  - apply Z.ltb_lt in E. mproj.
    pose proof (oldest_scan (range_order env (imageCache w)) (clock env (ticks w))
                  zero_imageLoc) as Hscan.
    cbv zeta in Hscan.
    destruct (foldl _ (clock env (ticks w), zero_imageLoc) (range_order env (imageCache w)))
      as [t k] eqn:Efold.
    cbn [fst snd] in Hscan. destruct Hscan as [Hmin Hkey].
    eexists. split; [reflexivity|]. mproj.
    repeat (split; [reflexivity|]).
    right. split; [exact E|]. exists k. split; [reflexivity|].
    destruct Hkey as [[Ht Hk]|[Hlt (v & Hin & Hv)]].
    + subst t k.
      destruct (imageCache w !! zero_imageLoc) as [e|] eqn:Ek.
      * apply HI1 in Ek. discriminate Ek.
      * intros k' e' He'. apply (Hmin k' e'), range_order_elem, He'.
    + apply range_order_elem in Hin. rewrite Hin. split; [lia|].
      intros k' e' He'. pose proof (Hmin k' e' (proj2 (range_order_elem env _ _ _) He')). lia.
  - apply Z.ltb_ge in E. eexists. split; [reflexivity|].
    repeat (split; [reflexivity|]). left. split; [exact E|reflexivity].
Qed.

Lemma storage_keys_world_full : storage_keys (imageCache world_full).
Proof.
  apply map_Forall_to_list. apply Forall_forall. intros [k e] Hin.
  apply elem_of_map_to_list in Hin. unfold world_full in Hin. cbn [imageCache] in Hin.
  apply elem_of_list_to_map_2 in Hin. apply list_elem_of_fmap in Hin as (i & Heq & _).
  injection Heq as -> _. reflexivity.
Qed.

Lemma evict_without_write_back_witness :
  exists w',
    evict env0 world_full = Ok tt w' /\
    iotasks w' = iotasks world_full /\ ioreturn w' = ioreturn world_full /\
    fs w' = fs world_full /\
    heap w' = heap world_full /\ chans w' = chans world_full /\
    ioreadwaiting w' = ioreadwaiting world_full /\
    imageCacheProcess w' = imageCacheProcess world_full /\
    ((Z.of_nat (size (imageCache world_full)) <= imageCacheMaxCache /\ w' = world_full) \/
     (imageCacheMaxCache < Z.of_nat (size (imageCache world_full)) /\
      exists k,
        imageCache w' = delete k (imageCache world_full) /\
        match imageCache world_full !! k with
        | Some e =>
            lastUse e < clock env0 (ticks world_full) /\
            forall k' e', imageCache world_full !! k' = Some e' -> lastUse e <= lastUse e'
        | None =>
            forall k' e', imageCache world_full !! k' = Some e' ->
                          clock env0 (ticks world_full) <= lastUse e'
        end)).
Proof.
  apply (evict_without_write_back env0 world_full).
  exact storage_keys_world_full.
Defined.

(** C3 as stated fails. With 513 dirty tiles resident and nothing on disk,
    a stamp for a tile
    of another world evicts the tile used first: afterwards it is not
    resident, no write request is queued and no file exists. *)
Lemma eviction_drops_dirty_tile :
  imageCache world_full !! tile_at 0 = Some (mkCachedImage (Some 1%positive) false 1000) /\
  outcome
    (onTask env0 (mkImageTask (mkImageLoc "v" "d" "l" 0 0 0) (Some 1%positive) None) world_full)
    (fun _ w' =>
       imageCache w' !! tile_at 0 = None /\
       iotasks w' = [] /\
       files (fs w') = ∅ /\
       calls (fs w') = [SysOpen "imageCache/v/d/l/5/0x0.png"]).
Proof.
  split; [vm_compute; reflexivity|].
  vm_compute. repeat split; reflexivity.
Qed.

(** ** C4: the flush tick *)

Lemma flushEntry_spec (env : Env) (w : World) (k : imageLoc) (v : cachedImage) :
  (syncedToDisk v = false -> exists a r, img v = Some a /\ heap w !! a = Some r) ->
  exists w' cs,
    flushEntry env (k, v) w = Ok tt w' /\
    calls (fs w') = calls (fs w) ++ cs /\
    (syncedToDisk v = false -> exists n, cs = take (Datatypes.S n) (save_calls env k)) /\
    heap w' = heap w /\ chans w' = chans w /\
    imageCacheProcess w' = imageCacheProcess w /\ imageCache w' = imageCache w /\
    ioreadwaiting w' = ioreadwaiting w /\ iotasks w' = iotasks w /\
    ioreturn w' = ioreturn w.
Proof.
  intros Hv. unfold flushEntry. destruct (syncedToDisk v) eqn:Es; cbn [negb].
  - exists w, []. split; [reflexivity|]. rewrite app_nil_r.
    split; [reflexivity|]. split; [discriminate|]. repeat split; reflexivity.
  - destruct (Hv eq_refl) as (a & r & Ha & Hr). rewrite Ha.
    destruct (cacheSave_calls env w a r (World_ k) (Dimension k) (Layer k)
                (S_ k) (X_ k) (Z_ k) Hr)
      as (err & w' & Hrun & [n Hcalls] & Hh & Hc & Ht & Hq & Hm & Hwt & Hio & Hret & _).
    exists w', (take (Datatypes.S n) (save_calls env k)).
    split.
    { rewrite (bind_Ok _ _ _ _ _ Hrun). destruct err; reflexivity. }
    split; [exact Hcalls|]. split; [intros _; exists n; reflexivity|].
    repeat split; assumption.
Qed.

Lemma flush_loop (env : Env) (l : list (imageLoc * cachedImage)) :
  forall w,
    dirty_rasters_valid l w ->
    exists w' cs,
      forM_ l (flushEntry env) w = Ok tt w' /\
      calls (fs w') = calls (fs w) ++ cs /\
      (forall k v, (k, v) ∈ l -> syncedToDisk v = false ->
         exists pre n post, cs = pre ++ take (Datatypes.S n) (save_calls env k) ++ post) /\
      heap w' = heap w /\ chans w' = chans w /\
      imageCacheProcess w' = imageCacheProcess w /\ imageCache w' = imageCache w /\
      ioreadwaiting w' = ioreadwaiting w /\ iotasks w' = iotasks w /\
      ioreturn w' = ioreturn w.
Proof.
  induction l as [|[k v] l IH]; intros w Hvalid.
  - exists w, []. split; [reflexivity|]. rewrite app_nil_r. split; [reflexivity|].
    split; [intros k v H; apply elem_of_nil in H; contradiction|].
    repeat split; reflexivity.
  - destruct (flushEntry_spec env w k v) as
      (w1 & cs1 & Hrun1 & Hcalls1 & Hcs1 & Hh1 & Hc1 & Hq1 & Hm1 & Hwt1 & Hio1 & Hret1).
    { intros Hd. apply (Hvalid k v); [left|exact Hd]. }
    destruct (IH w1) as
      (w2 & cs2 & Hrun2 & Hcalls2 & Hcs2 & Hh2 & Hc2 & Hq2 & Hm2 & Hwt2 & Hio2 & Hret2).
    { intros k' v' Hin Hd. rewrite Hh1. apply (Hvalid k' v'); [right; exact Hin|exact Hd]. }
    exists w2, (cs1 ++ cs2).
    split.
    { change (forM_ ((k, v) :: l) (flushEntry env))
        with (flushEntry env (k, v) ≫= (fun _ => forM_ l (flushEntry env))).
      rewrite (bind_Ok _ _ _ _ _ Hrun1). exact Hrun2. }
    split; [rewrite Hcalls2, Hcalls1, app_assoc; reflexivity|].
    split.
    { intros k' v' Hin Hd. apply elem_of_cons in Hin as [Heq|Hin].
      - injection Heq as -> ->. destruct (Hcs1 Hd) as [n ->].
        exists [], n, cs2. reflexivity.
      - destruct (Hcs2 k' v' Hin Hd) as (pre & n & post & ->).
        exists (cs1 ++ pre), n, post. rewrite <- app_assoc. reflexivity. }
    repeat split; congruence.
Qed.

Lemma forM__app_run {A} (f : A -> M unit) (l1 l2 : list A) (w w' : World) :
  forM_ (l1 ++ l2) f w = Ok tt w' ->
  exists w1, forM_ l1 f w = Ok tt w1 /\ forM_ l2 f w1 = Ok tt w'.
Proof.
  revert w. induction l1 as [|a l1 IH]; intros w H.
  - exists w. split; [reflexivity|exact H].
  - change (forM_ ((a :: l1) ++ l2) f) with (f a ≫= (fun _ => forM_ (l1 ++ l2) f)) in H.
    change (forM_ (a :: l1) f) with (f a ≫= (fun _ => forM_ l1 f)).
    unfold mbind, M_bind in *. destruct (f a w) as [[] w0|]; [|discriminate].
    apply IH, H.
Qed.

Lemma flushEntry_frame (env : Env) (w w' : World) (k : imageLoc) (v : cachedImage) :
  (syncedToDisk v = false -> exists a r, img v = Some a /\ heap w !! a = Some r) ->
  flushEntry env (k, v) w = Ok tt w' ->
  heap w' = heap w /\
  forall p, (syncedToDisk v = false -> file_of env k <> p) ->
            files (fs w') !! p = files (fs w) !! p.
Proof.
  intros Hv Hrun. unfold flushEntry in Hrun.
  destruct (syncedToDisk v) eqn:Es; cbn [negb] in Hrun.
  - injection Hrun as <-. split; [reflexivity|]. intros; reflexivity.
  - destruct (Hv eq_refl) as (a & r & Ha & Hr). rewrite Ha in Hrun.
    destruct (cacheSave_calls env w a r (World_ k) (Dimension k) (Layer k)
                (S_ k) (X_ k) (Z_ k) Hr)
      as (err & w1 & Hsave & _ & Hh & _).
    destruct (cacheSave_outcome env w a r (World_ k) (Dimension k) (Layer k)
                (S_ k) (X_ k) (Z_ k) Hr)
      as (err' & w1' & Hsave' & Hfiles & _).
    rewrite Hsave in Hsave'. injection Hsave' as <- <-.
    rewrite (bind_Ok _ _ _ _ _ Hsave) in Hrun.
    assert (w' = w1) by (destruct err; injection Hrun as <-; reflexivity). subst w'.
    split; [exact Hh|]. intros p Hp. apply Hfiles. intros E. apply (Hp eq_refl). symmetry. exact E.
Qed.

Lemma flush_loop_frame (env : Env) (l : list (imageLoc * cachedImage)) :
  forall w w',
    dirty_rasters_valid l w ->
    forM_ l (flushEntry env) w = Ok tt w' ->
    heap w' = heap w /\
    forall p, (forall k v, (k, v) ∈ l -> syncedToDisk v = false -> file_of env k <> p) ->
              files (fs w') !! p = files (fs w) !! p.
Proof.
  induction l as [|[k v] l IH]; intros w w' Hvalid Hrun.
  - injection Hrun as <-. split; [reflexivity|]. intros; reflexivity.
  - change (forM_ ((k, v) :: l) (flushEntry env))
      with (flushEntry env (k, v) ≫= (fun _ => forM_ l (flushEntry env))) in Hrun.
    unfold mbind, M_bind in Hrun.
    destruct (flushEntry env (k, v) w) as [[] w1|] eqn:E1; [|discriminate].
    destruct (flushEntry_frame env w w1 k v) as [Hh1 Hf1]; [|exact E1|].
    { intros Hd. apply (Hvalid k v); [left|exact Hd]. }
    destruct (IH w1 w') as [Hh2 Hf2]; [|exact Hrun|].
    { intros k' v' Hin Hd. rewrite Hh1. apply (Hvalid k' v'); [right; exact Hin|exact Hd]. }
    split; [congruence|]. intros p Hp. rewrite Hf2, Hf1.
    + reflexivity.
    + intros Hd. apply (Hp k v); [left|exact Hd].
    + intros k' v' Hin Hd. apply (Hp k' v'); [right; exact Hin|exact Hd].
Qed.

(** C4, as the code has it. On a flush tick the actor itself saves every
    dirty resident entry: for each of them [cacheSave] is run in the actor,
    during the tick, on the entry's raster and the entry's key. The save
    goes through exactly when the file system lets it ([can_save]): the
    calls [MkdirAll], [Create], [Encode], [Close] are then made on the
    entry's file, which holds the entry's raster afterwards, and still holds
    it at the end of the tick unless an entry saved later in the tick has
    the same file; otherwise the calls stop at the first failure. No write
    request is issued to the I/O workers: the I/O queues are as before. *)
Theorem flush_tick_saves_in_actor (env : Env) (w : World) :
  (forall k v, imageCache w !! k = Some v -> syncedToDisk v = false ->
               exists a r, img v = Some a /\ heap w !! a = Some r) ->
  exists w' cs,
    onFlushTick env w = Ok tt w' /\
    iotasks w' = iotasks w /\ ioreturn w' = ioreturn w /\
    calls (fs w') = calls (fs w) ++ cs /\
    (forall k v, imageCache w !! k = Some v -> syncedToDisk v = false ->
       exists pre n post, cs = pre ++ take (Datatypes.S n) (save_calls env k) ++ post) /\
    (forall k v, imageCache w !! k = Some v -> syncedToDisk v = false ->
       exists a r before after w1 w2 err,
         img v = Some a /\ heap w !! a = Some r /\
         range_order env (imageCache w) = before ++ (k, v) :: after /\
         forM_ before (flushEntry env) w = Ok tt w1 /\
         cacheSave env (Some a) (World_ k) (Dimension k) (Layer k) (S_ k) (X_ k) (Z_ k) w1
           = Ok err w2 /\
         forM_ after (flushEntry env) w2 = Ok tt w' /\
         if can_save (fs w1) (file_of env k) r
         then err = None /\
              calls (fs w2) = calls (fs w1) ++ save_calls env k /\
              files (fs w2) !! file_of env k = Some (PNG r) /\
              ((forall k' v', (k', v') ∈ after -> syncedToDisk v' = false ->
                              file_of env k' <> file_of env k) ->
               files (fs w') !! file_of env k = Some (PNG r))
         else err <> None /\
              exists n, (n < 3)%nat /\
                calls (fs w2) = calls (fs w1) ++ take (Datatypes.S n) (save_calls env k)).
Proof.
  intros Hvalid. unfold onFlushTick.
  assert (Hvl : dirty_rasters_valid (range_order env (imageCache w)) w).
  { intros k v Hin. apply (Hvalid k v), (range_order_elem env), Hin. }
  pose proof (flush_loop env (range_order env (imageCache w)) w Hvl)
    as (w' & cs & Hrun & Hcalls & Hcs & _ & _ & _ & _ & _ & Hio & Hret).
  exists w', cs. split.
  { rewrite (bind_Ok _ _ _ _ _ (gets_Ok _ w)). exact Hrun. }
  split; [exact Hio|]. split; [exact Hret|]. split; [exact Hcalls|].
  split.
  { intros k v Hk. apply (Hcs k v), (range_order_elem env), Hk. }
  intros k v Hk Hd.
  destruct (Hvalid k v Hk Hd) as (a & r & Ha & Hr).
  assert (Hin : (k, v) ∈ range_order env (imageCache w)) by (apply (range_order_elem env), Hk).
  apply list_elem_of_split in Hin as (before & after & Hsplit).
  rewrite Hsplit in Hrun, Hvl.
  destruct (forM__app_run _ _ _ _ _ Hrun) as (w1 & Hrun1 & Hrun2).
  assert (Hvb : dirty_rasters_valid before w).
  { intros k' v' Hin' Hd'. apply (Hvl k' v'); [|exact Hd']. apply elem_of_app. left. exact Hin'. }
  destruct (flush_loop_frame env before w w1 Hvb Hrun1) as [Hh1 _].
  assert (Hr1 : heap w1 !! a = Some r) by (rewrite Hh1; exact Hr).
  change (forM_ ((k, v) :: after) (flushEntry env))
    with (flushEntry env (k, v) ≫= (fun _ => forM_ after (flushEntry env))) in Hrun2.
  destruct (cacheSave_calls env w1 a r (World_ k) (Dimension k) (Layer k)
              (S_ k) (X_ k) (Z_ k) Hr1)
    as (err & w2 & Hsave & _ & Hh2 & _).
  destruct (cacheSave_outcome env w1 a r (World_ k) (Dimension k) (Layer k)
              (S_ k) (X_ k) (Z_ k) Hr1)
    as (err' & w2' & Hsave' & _ & Hout).
  rewrite Hsave in Hsave'. injection Hsave' as <- <-.
  assert (Hentry : flushEntry env (k, v) w1 = Ok tt w2).
  { unfold flushEntry. rewrite Hd. cbn [negb]. rewrite Ha.
    rewrite (bind_Ok _ _ _ _ _ Hsave). destruct err; reflexivity. }
  rewrite (bind_Ok _ _ _ _ _ Hentry) in Hrun2.
  exists a, r, before, after, w1, w2, err.
  split; [exact Ha|]. split; [exact Hr|]. split; [exact Hsplit|].
  split; [exact Hrun1|]. split; [exact Hsave|]. split; [exact Hrun2|].
  fold (file_of env k) in Hout. fold (save_calls env k) in Hout.
  destruct (can_save (fs w1) (file_of env k) r); [|exact Hout].
  destruct Hout as (He & Hc & Hf).
  repeat (split; [assumption|]).
  intros Hafter.
  assert (Hva : dirty_rasters_valid after w2).
  { intros k' v' Hin' Hd'. rewrite Hh2, Hh1. apply (Hvl k' v'); [|exact Hd'].
    apply elem_of_app. right. right. exact Hin'. }
  destruct (flush_loop_frame env after w2 w' Hva Hrun2) as [_ Hfa].
  rewrite Hfa; [exact Hf|exact Hafter].
Qed.

Lemma flush_tick_saves_in_actor_witness :
  exists w',
    onFlushTick env0 world_dirty = Ok tt w' /\
    iotasks w' = iotasks world_dirty /\ ioreturn w' = ioreturn world_dirty /\
    calls (fs w') = calls (fs world_dirty) ++ save_calls env0 loc500 /\
    files (fs w') !! file_of env0 loc500 = Some (PNG blue512).
Proof.
  destruct (flush_tick_saves_in_actor env0 world_dirty)
    as (w' & cs & Hrun & Hio & Hret & Hcalls & _ & Hentry).
  { intros k v Hk _. unfold world_dirty in Hk. cbn [imageCache] in Hk.
    apply lookup_singleton_Some in Hk as [_ <-].
    exists 1%positive, blue512. split; reflexivity. }
  exists w'. split; [exact Hrun|]. split; [exact Hio|]. split; [exact Hret|].
  destruct (Hentry loc500 (mkCachedImage (Some 1%positive) false 7) eq_refl eq_refl)
    as (a & r & before & after & w1 & w2 & err & Ha & Hr & Hsplit & Hrun1 & Hsave & Hrun2 & Hout).
  injection Ha as <-. injection Hr as <-.
  change (range_order env0 (imageCache world_dirty))
    with (map_to_list ({[ loc500 := mkCachedImage (Some 1%positive) false 7 ]}
                         : gmap imageLoc cachedImage)) in Hsplit.
  rewrite map_to_list_singleton in Hsplit.
  destruct before as [|b before]; [|destruct before; discriminate Hsplit].
  injection Hsplit as <-. injection Hrun1 as <-. injection Hrun2 as <-.
  change (can_save (fs world_dirty) (file_of env0 loc500) blue512) with true in Hout.
  destruct Hout as (_ & Hc & Hf & _).
  split; [exact Hc|exact Hf].
Defined.

(** C4 as stated fails. After a flush tick on one dirty tile, the tile's
    file holds its raster,
    written by the actor; no write request was issued and the resident
    entry is still marked dirty. *)
Lemma flush_tick_issues_no_request :
  outcome (onFlushTick env0 world_dirty)
    (fun _ w' =>
       iotasks w' = [] /\
       imageCache w' !! loc500 = Some (mkCachedImage (Some 1%positive) false 7) /\
       calls (fs w') = save_calls env0 loc500 /\
       file_of env0 loc500 = "imageCache/w/d/l/5/0x0.png" /\
       is_Some (files (fs w') !! file_of env0 loc500)).
Proof.
  vm_compute. repeat split; try reflexivity. eexists; reflexivity.
Qed.

(** ** C5: the size of the resident map *)

(** C5, on the code. Starting with an empty cache, 514 writes at the
    storage level to distinct tiles leave 514 resident entries, more than [imageCacheMaxCache + 1]. *)
Lemma storage_level_writes_unbounded :
  size (imageCache world_red) = 0%nat /\
  outcome (write_tiles env0 514 world_red)
    (fun _ w' =>
       size (imageCache w') = 514%nat /\
       imageCacheMaxCache + 1 < Z.of_nat (size (imageCache w'))).
Proof. split; [reflexivity|]. vm_compute. repeat split; reflexivity. Qed.

(** ** C6: a stamp written and read back *)



(** ** C7: [lastUse] of an entry that a request touches *)

(** C7, on the code. Tile (0, 0) is resident, last used at time 7; the
    clock reads 1000. A
    read at the storage level and a zoom-in read set its [lastUse] to 1000.
    A write at the storage level, a stamp written at zoom 0 and a zoom-out
    read leave it at 7. *)
Lemma lastUse_not_updated_on_every_touch :
  clock env0 (ticks world_resident) = 1000 /\
  imageCache world_resident !! loc500 = Some (mkCachedImage (Some 1%positive) true 7) /\
  outcome (onTask env0 (mkImageTask loc500 None (Some 9%positive)) world_resident)
    (fun _ w' => lastUse <$> imageCache w' !! loc500 = Some 1000) /\
  outcome (onTask env0 (mkImageTask (mkImageLoc "w" "d" "l" 0 3 4) None (Some 9%positive))
             world_resident)
    (fun _ w' => lastUse <$> imageCache w' !! loc500 = Some 1000) /\
  outcome (onTask env0 (mkImageTask loc500 (Some 2%positive) None) world_resident)
    (fun _ w' => lastUse <$> imageCache w' !! loc500 = Some 7 /\ ticks w' = 1%nat) /\
  outcome (onTask env0 (mkImageTask (mkImageLoc "w" "d" "l" 0 3 4) (Some 2%positive) None)
             world_resident)
    (fun _ w' => lastUse <$> imageCache w' !! loc500 = Some 7 /\
                 syncedToDisk <$> imageCache w' !! loc500 = Some false) /\
  outcome (onTask env0 (mkImageTask (mkImageLoc "w" "d" "l" 6 0 0) None (Some 9%positive))
             world_resident)
    (fun _ w' => lastUse <$> imageCache w' !! loc500 = Some 7 /\
                 length (sent (chan_state 9%positive w')) = 1%nat).
Proof. vm_compute. repeat split; reflexivity. Qed.

(** ** C8: reads above the zoom cap *)

(** C8. A read request whose zoom level is above 9, taken by the actor in
    any state in which the request's reply channel is still unused, closes
    that channel and changes nothing else: no file system call, the resident
    map, the waiters table and the I/O queues as before; the requester's
    wait on the channel then yields [nil]. *)
Theorem read_above_cap_closes_reply (env : Env) (w : World) (l : imageLoc) (c : chan) :
  9 < S_ l ->
  chan_state c w = mkChanState [] false ->
  exists w',
    onTask env (mkImageTask l None (Some c)) w = Ok tt w' /\
    chan_state c w' = mkChanState [] true /\
    fs w' = fs w /\ heap w' = heap w /\
    imageCache w' = imageCache w /\ ioreadwaiting w' = ioreadwaiting w /\
    iotasks w' = iotasks w /\ ioreturn w' = ioreturn w /\
    imageCacheGetBlockingLoc_recv c w' = Some None.
Proof.
  intros HS Hc.
  unfold onTask; simpl.
  assert ((S_ l =? imageCacheStorageLevel) = false) as ->
    by (unfold imageCacheStorageLevel; lia).
  assert ((S_ l <? imageCacheStorageLevel) = false) as ->
    by (unfold imageCacheStorageLevel; lia).
  unfold readZoomOut; simpl.
  assert ((9 <? S_ l) = true) as -> by lia.
  unfold close. rewrite Hc. simpl.
  eexists; split; [reflexivity|].
  assert (Hc' : chan_state c
            (with_chans (<[c:={| sent := []; closed := true |}]> (chans w)) w)
          = mkChanState [] true).
  { unfold chan_state; simpl. rewrite lookup_insert_eq. reflexivity. }
  unfold imageCacheGetBlockingLoc_recv. rewrite Hc'. simpl.
  repeat split; reflexivity.
Qed.

Lemma read_above_cap_closes_reply_witness :
  exists w',
    onTask env0 (mkImageTask (mkImageLoc "w" "d" "l" 10 0 0) None (Some 1%positive)) world0
      = Ok tt w' /\
    chan_state 1%positive w' = mkChanState [] true /\
    fs w' = fs world0 /\ heap w' = heap world0 /\
    imageCache w' = imageCache world0 /\ ioreadwaiting w' = ioreadwaiting world0 /\
    iotasks w' = iotasks world0 /\ ioreturn w' = ioreturn world0 /\
    imageCacheGetBlockingLoc_recv 1%positive w' = Some None.
Proof.
  apply (read_above_cap_closes_reply env0 world0 (mkImageLoc "w" "d" "l" 10 0 0) 1%positive).
  - simpl. lia.
  - reflexivity.
Defined.

(** ** C9: the file of a tile *)

(** C9, as the code has it. When the prefix and the world, dimension and
    layer names are clean paths (elements separated by single slashes, none
    of them empty, ["."] or [".."]; a plain name is one), the file of a key
    is exactly [<prefix>/<world>/<dimension>/<layer>/<S>/<X>x<Z>.png]; the
    three numbers are written as decimal numerals without leading zeros,
    with ['-'] in front of negative ones; the prefix is ["imageCache"] when
    [CACHE_PREFIX] is empty; and [cacheSave] first calls [MkdirAll] on the
    file's directory with mode [0764], then creates the file, then encodes
    the raster, then closes the file, stopping at the first failure. *)
Theorem cacheGetFilename_layout (env : Env) (world dim layer : string) (s x z : Z) :
  path.clean_path (getImageCachePrefix env) = true ->
  path.clean_path world = true ->
  path.clean_path dim = true ->
  path.clean_path layer = true ->
  let fp := cacheGetFilename env world dim layer s x z in
  fp = getImageCachePrefix env +:+ "/" +:+ world +:+ "/" +:+ dim +:+ "/" +:+ layer
       +:+ "/" +:+ strconv.FormatInt s
       +:+ "/" +:+ strconv.FormatInt x +:+ "x" +:+ strconv.FormatInt z +:+ ".png" /\
  (forall i, strconv.canonical_decimal (strconv.FormatInt i) = true /\
             strconv.decimal_value (strconv.FormatInt i) = Some i) /\
  (CACHE_PREFIX env = EmptyString -> getImageCachePrefix env = "imageCache") /\
  mode_0764 = 500 /\
  (forall (w : World) (a : ptr) (r : image.RGBA),
     heap w !! a = Some r ->
     exists err w',
       cacheSave env (Some a) world dim layer s x z w = Ok err w' /\
       (exists n, calls (fs w') =
                  calls (fs w) ++
                  take (Datatypes.S n)
                    [SysMkdirAll (path.Dir fp) mode_0764; SysCreate fp;
                     SysEncode fp; SysClose fp]) /\
       (err = None ->
          calls (fs w') =
            calls (fs w) ++
            [SysMkdirAll (path.Dir fp) mode_0764; SysCreate fp; SysEncode fp; SysClose fp] /\
          files (fs w') !! fp = Some (PNG r) /\
          (dirs (fs w) !! path.Dir fp = None ->
           dirs (fs w') !! path.Dir fp = Some mode_0764))).
Proof.
  intros Hp Hw Hd Hl fp.
  split.
  { subst fp. unfold cacheGetFilename.
    destruct (FormatInt_shape s) as (cs & ss & Es & Hcs & Hss).
    destruct (FormatInt_shape x) as (cx & sx & Ex & Hcx & Hsx).
    destruct (FormatInt_shape z) as (cz & sz & Ez & Hcz & Hsz).
    rewrite Join_dot_clean.
    - cbn [path.join]. reflexivity.
    - discriminate.
    - cbn [forallb]. rewrite Hp, Hw, Hd, Hl. cbn [andb].
      rewrite Es, Ex, Ez. rewrite (clean_path_shape cs ss Hcs Hss). cbn [andb].
      rewrite append_cons. rewrite clean_path_shape; [reflexivity|exact Hcx|].
      rewrite <- append_cons, !no_slash_app, Hsx, Hsz. reflexivity. }
  split; [exact FormatInt_decimal|].
  split.
  { intros He. unfold getImageCachePrefix. rewrite He. reflexivity. }
  split; [reflexivity|].
  intros w a r Ha.
  destruct (cacheSave_calls env w a r world dim layer s x z Ha)
    as (err & w' & Hrun & Hcalls & _ & _ & _ & _ & _ & _ & _ & _ & Hok).
  exists err, w'. split; [exact Hrun|]. split; [exact Hcalls|exact Hok].
Qed.

Lemma cacheGetFilename_layout_witness :
  let fp := cacheGetFilename env0 "w" "d" "l" 5 (-3) 0 in
  fp = getImageCachePrefix env0 +:+ "/" +:+ "w" +:+ "/" +:+ "d" +:+ "/" +:+ "l"
       +:+ "/" +:+ strconv.FormatInt 5
       +:+ "/" +:+ strconv.FormatInt (-3) +:+ "x" +:+ strconv.FormatInt 0 +:+ ".png" /\
  (forall i, strconv.canonical_decimal (strconv.FormatInt i) = true /\
             strconv.decimal_value (strconv.FormatInt i) = Some i) /\
  (CACHE_PREFIX env0 = EmptyString -> getImageCachePrefix env0 = "imageCache") /\
  mode_0764 = 500 /\
  (forall (w : World) (a : ptr) (r : image.RGBA),
     heap w !! a = Some r ->
     exists err w',
       cacheSave env0 (Some a) "w" "d" "l" 5 (-3) 0 w = Ok err w' /\
       (exists n, calls (fs w') =
                  calls (fs w) ++
                  take (Datatypes.S n)
                    [SysMkdirAll (path.Dir fp) mode_0764; SysCreate fp;
                     SysEncode fp; SysClose fp]) /\
       (err = None ->
          calls (fs w') =
            calls (fs w) ++
            [SysMkdirAll (path.Dir fp) mode_0764; SysCreate fp; SysEncode fp; SysClose fp] /\
          files (fs w') !! fp = Some (PNG r) /\
          (dirs (fs w) !! path.Dir fp = None ->
           dirs (fs w') !! path.Dir fp = Some mode_0764))).
Proof.
  apply (cacheGetFilename_layout env0 "w" "d" "l" 5 (-3) 0); reflexivity.
Defined.

(** C9 as stated fails. With the prefix [/var/cache] the file is looked
    for under the working
    directory, in [var/cache], so the path is not of the stated form for
    every key and prefix. *)
Lemma cacheGetFilename_not_always_exact :
  ~ (forall (env : Env) (world dim layer : string) (s x z : Z),
       cacheGetFilename env world dim layer s x z =
         getImageCachePrefix env +:+ "/" +:+ world +:+ "/" +:+ dim +:+ "/" +:+ layer
         +:+ "/" +:+ strconv.FormatInt s
         +:+ "/" +:+ strconv.FormatInt x +:+ "x" +:+ strconv.FormatInt z +:+ ".png").
Proof.
  intros H. specialize (H env_abs "w"%string "d"%string "l"%string 5 0 0).
  vm_compute in H. discriminate H.
Qed.

Example cacheGetFilename_examples :
  cacheGetFilename env_abs "w" "d" "l" 5 0 0 = "var/cache/w/d/l/5/0x0.png" /\
  cacheGetFilename env0 EmptyString "d" "l" 5 0 0 = "imageCache/d/l/5/0x0.png" /\
  cacheGetFilename env0 ".." "d" "l" 5 0 0 = "d/l/5/0x0.png" /\
  cacheGetFilename env0 "w" "d" "l" 5 (-3) 12 = "imageCache/w/d/l/5/-3x12.png".
Proof. repeat split; vm_compute; reflexivity. Qed.

(** ** C10: a write at the storage level to a resident key *)

(** C10. A write request at the storage level whose key is resident leaves
    the resident map as it was, so the entry keeps its dirty flag and its
    [lastUse]; the one change is to the raster the entry points to, which is
    drawn over in place. (The clock was read once.) *)
Theorem write_resident_keeps_metadata (env : Env) (w : World) (l : imageLoc)
    (rt : option chan) (e : cachedImage) (a q : ptr) (dst src : image.RGBA) :
  S_ l = imageCacheStorageLevel ->
  imageCache w !! l = Some e ->
  img e = Some a ->
  heap w !! a = Some dst ->
  heap w !! q = Some src ->
  exists w',
    onTask env (mkImageTask l (Some q) rt) w = Ok tt w' /\
    imageCache w' = imageCache w /\
    imageCache w' !! l = Some e /\
    heap w' = <[a := draw.Draw dst (image.RGBA_Rect dst) src image.ZP draw.Over]> (heap w) /\
    fs w' = fs w /\ chans w' = chans w /\
    ioreadwaiting w' = ioreadwaiting w /\
    iotasks w' = iotasks w /\ ioreturn w' = ioreturn w.
Proof.
  intros HS He Ha Hdst Hsrc.
  unfold onTask, write. mproj.
  rewrite HS, Z.eqb_refl.
  mrun.
  eexists; split; [reflexivity|].
  mproj. repeat split; try reflexivity. exact He.
Qed.

Lemma write_resident_keeps_metadata_witness :
  exists w',
    onTask env0 (mkImageTask loc500 (Some 2%positive) None) world_resident = Ok tt w' /\
    imageCache w' = imageCache world_resident /\
    imageCache w' !! loc500 = Some (mkCachedImage (Some 1%positive) true 7) /\
    heap w' = <[1%positive :=
                  draw.Draw blue512 (image.RGBA_Rect blue512) red512 image.ZP draw.Over]>
                (heap world_resident) /\
    fs w' = fs world_resident /\ chans w' = chans world_resident /\
    ioreadwaiting w' = ioreadwaiting world_resident /\
    iotasks w' = iotasks world_resident /\ ioreturn w' = ioreturn world_resident.
Proof.
  apply (write_resident_keeps_metadata env0 world_resident loc500 None
           (mkCachedImage (Some 1%positive) true 7) 1%positive 2%positive blue512 red512);
    reflexivity.
Defined.

(** * Further properties of the code *)

(** ** Tile positions: [icAT] and [icIN] *)

(** X1. A chunk coordinate is the coordinate of its storage tile times 32
    plus its position inside the tile, which lies between 0 and 31, also
    for negative coordinates. *)
Theorem tile_position_decomposition (cx cz : Z) :
  let '(rx, rz) := icAT cx cz in
  let '(ix, iz) := icIN cx cz in
  cx = rx * 32 + ix /\ 0 <= ix < 32 /\
  cz = rz * 32 + iz /\ 0 <= iz < 32.
Proof.
  rewrite icAT_div, icIN_mod.
  pose proof (Z.div_mod cx 32 ltac:(lia)). pose proof (Z.div_mod cz 32 ltac:(lia)).
  pose proof (Z.mod_pos_bound cx 32 ltac:(lia)).
  pose proof (Z.mod_pos_bound cz 32 ltac:(lia)).
  repeat split; lia.
Qed.

(** ** Reads at the storage level: coalescing and delivery *)

Lemma readExact_in_flight (env : Env) (w : World) (l : imageLoc) (c : chan)
    (ws : list chan) :
  S_ l = imageCacheStorageLevel ->
  imageCache w !! l = None ->
  ioreadwaiting w !! l = Some ws ->
  onTask env (read_task l c) w =
    Ok tt (with_ioreadwaiting (<[l := ws ++ [c]]> (ioreadwaiting w)) w).
Proof.
  intros HS He Hw.
  unfold onTask, read_task, readExact. mproj. rewrite HS, Z.eqb_refl.
  munfold. mproj. rewrite He, Hw. reflexivity.
Qed.

(** X2. Read requests at the storage level for one tile that is neither
    resident nor awaited, however many, put exactly one read request in the
    I/O queue, that of the first requester; all requesters are registered as
    waiters of the tile, in order, and nothing else changes. *)
Theorem reads_coalesce (env : Env) (w : World) (l : imageLoc) (c : chan)
    (cs : list chan) :
  S_ l = imageCacheStorageLevel ->
  imageCache w !! l = None ->
  ioreadwaiting w !! l = None ->
  reads_of env l (c :: cs) w =
    Ok tt (with_iotasks (iotasks w ++ [read_task l c])
             (with_ioreadwaiting (<[l := c :: cs]> (ioreadwaiting w)) w)).
Proof.
  intros HS He Hw. unfold reads_of.
  change (forM_ (c :: cs) (fun c => onTask env (read_task l c)))
    with (onTask env (read_task l c) ≫= (fun _ => reads_of env l cs)).
  rewrite (bind_Ok _ _ _ _ _ (readExact_miss env w l c HS He Hw)).
  assert (Hgen : forall done rest q,
    reads_of env l rest
      (with_iotasks q (with_ioreadwaiting (<[l := done]> (ioreadwaiting w)) w))
    = Ok tt (with_iotasks q
               (with_ioreadwaiting (<[l := done ++ rest]> (ioreadwaiting w)) w))).
  { intros done rest. revert done. induction rest as [|c' rest IH]; intros done q.
    - rewrite app_nil_r. reflexivity.
    - unfold reads_of.
      change (forM_ (c' :: rest) (fun c => onTask env (read_task l c)))
        with (onTask env (read_task l c') ≫= (fun _ => reads_of env l rest)).
      erewrite bind_Ok.
      2:{ apply (readExact_in_flight env _ l c' done HS).
          - mproj. exact He.
          - mproj. apply lookup_insert_eq. }
      mproj. rewrite insert_insert_eq.
      specialize (IH (done ++ [c']) q). rewrite <- app_assoc in IH. exact IH. }
  apply (Hgen [c] cs).
Qed.

Lemma reads_coalesce_witness :
  reads_of env0 loc500 [3%positive; 4%positive; 5%positive] world0 =
    Ok tt (with_iotasks (iotasks world0 ++ [read_task loc500 3%positive])
             (with_ioreadwaiting
                (<[loc500 := [3%positive; 4%positive; 5%positive]]> (ioreadwaiting world0))
                world0)).
Proof.
  apply (reads_coalesce env0 world0 loc500 3%positive [4%positive; 5%positive]);
    reflexivity.
Defined.

(** X3. When a worker returns a raster for an awaited tile, each waiter is
    sent that raster once (the same address for all of them, not copies),
    no other channel is touched, the tile leaves the waiters table, and the
    resident map, the heap, the disk and the I/O queues are unchanged. *)
Theorem return_delivers_to_every_waiter (w : World) (l : imageLoc) (a : ptr)
    (rt : option chan) (waiters : list chan) :
  ioreadwaiting w !! l = Some waiters ->
  NoDup waiters ->
  (forall c, c ∈ waiters -> closed (chan_state c w) = false) ->
  exists w',
    onReturn (mkImageTask l (Some a) rt) w = Ok tt w' /\
    ioreadwaiting w' !! l = None /\
    (forall c, c ∈ waiters ->
       chan_state c w' = mkChanState (sent (chan_state c w) ++ [a]) false) /\
    (forall c, c ∉ waiters -> chan_state c w' = chan_state c w) /\
    imageCache w' = imageCache w /\ heap w' = heap w /\ fs w' = fs w /\
    iotasks w' = iotasks w /\ ioreturn w' = ioreturn w.
Proof.
  intros Hw Hnd Hopen.
  destruct (onReturn_delivers w l a rt waiters Hw Hnd Hopen)
    as (w' & Hrun & Hwt & Hrest).
  exists w'. split; [exact Hrun|]. split; [|exact Hrest].
  rewrite Hwt. apply lookup_delete_eq.
Qed.

Lemma return_delivers_to_every_waiter_witness :
  exists w',
    onReturn (mkImageTask loc500 (Some 1%positive) None) world_waiting = Ok tt w' /\
    ioreadwaiting w' !! loc500 = None /\
    (forall c, c ∈ [3%positive; 4%positive] ->
       chan_state c w' = mkChanState (sent (chan_state c world_waiting) ++ [1%positive]) false) /\
    (forall c, c ∉ [3%positive; 4%positive] -> chan_state c w' = chan_state c world_waiting) /\
    imageCache w' = imageCache world_waiting /\ heap w' = heap world_waiting /\
    fs w' = fs world_waiting /\
    iotasks w' = iotasks world_waiting /\ ioreturn w' = ioreturn world_waiting.
Proof.
  apply (return_delivers_to_every_waiter world_waiting loc500 1%positive None
           [3%positive; 4%positive]).
  - reflexivity.
  - apply NoDup_cons_2; [|apply NoDup_singleton].
    intros H. apply list_elem_of_singleton in H. discriminate H.
  - intros c _. reflexivity.
Defined.

(** A worker that takes a read request for a file that decodes returns the
    request with a new raster, the decoded file. *)
Lemma worker_read_png (env : Env) (w : World) (p : imageTask) (q : list imageTask)
    (r : image.RGBA) :
  iotasks w = p :: q ->
  task_img p = None ->
  files (fs w) !! cacheGetFilename env (World_ (loc p)) (Dimension (loc p)) (Layer (loc p))
                    imageCacheStorageLevel (X_ (loc p)) (Z_ (loc p)) = Some (PNG r) ->
  exists w',
    imageCacheWorker env w = Ok tt w' /\
    iotasks w' = q /\
    ioreturn w' = ioreturn w ++ [mkImageTask (loc p) (Some (fresh (dom (heap w)))) (ret p)] /\
    heap w' = <[fresh (dom (heap w)) := decoded env r]> (heap w) /\
    files (fs w') = files (fs w) /\ chans w' = chans w /\
    imageCacheProcess w' = imageCacheProcess w /\
    ioreadwaiting w' = ioreadwaiting w /\ imageCache w' = imageCache w.
Proof.
  intros Hq Hp Hf. unfold imageCacheWorker.
  rewrite (bind_Ok _ _ _ _ _ (gets_Ok _ w)). rewrite Hq.
  rewrite (bind_Ok _ _ _ _ _ (modify_Ok _ w)). rewrite Hp.
  destruct (cacheLoad_png env (with_iotasks q w) _ _ _ _ _ _ r Hf)
    as (w1 & Hrun & Hh & Hfl & Hd & Hc & Ht & Hpq & Hm & Hwt & Hio & Hret).
  rewrite (bind_Ok _ _ _ _ _ Hrun).
  eexists. split; [reflexivity|]. mproj.
  rewrite Hio, Hret, Hh, Hfl, Hc, Hpq, Hwt, Hm. repeat split; reflexivity.
Qed.

Lemma sends_keep_requests (a : ptr) (cs : list chan) :
  forall w w', forM_ cs (fun r => send r a) w = Ok tt w' ->
               imageCacheProcess w' = imageCacheProcess w.
Proof.
  induction cs as [|c cs IH]; intros w w' H.
  - inversion H. reflexivity.
  - change (forM_ (c :: cs) (fun r => send r a))
      with (send c a ≫= (fun _ => forM_ cs (fun r => send r a))) in H.
    unfold mbind, M_bind in H. destruct (send c a w) as [[] w1|] eqn:E; [|discriminate].
    rewrite (IH w1 w' H). unfold send in E.
    destruct (closed (chan_state c w)); [discriminate|]. inversion E. reflexivity.
Qed.

Lemma onReturn_keeps_requests (p : imageTask) (w w' : World) :
  onReturn p w = Ok tt w' -> imageCacheProcess w' = imageCacheProcess w.
Proof.
  unfold onReturn. destruct (task_img p) as [a|]; [|intros H; inversion H; reflexivity].
  intros H. unfold mbind, M_bind, gets, modify in H. cbv beta iota in H.
  destruct (ioreadwaiting w !! loc p) as [cs|]; [|inversion H; reflexivity].
  destruct (forM_ cs (fun r => send r a) w) as [[] w1|] eqn:E; [|discriminate].
  inversion H. mproj. apply (sends_keep_requests a cs w w1 E).
Qed.

(** X4. A client's read at the storage level of a tile that is on disk and
    neither resident nor awaited, served through a worker with nothing else
    queued: the client receives a new raster that is the decoded file; the
    tile is no longer awaited, and the file and the resident map are as
    before. *)
Theorem get_on_disk_returns_file (env : Env) (w : World) (l : imageLoc)
    (r : image.RGBA) :
  quiescent w ->
  S_ l = imageCacheStorageLevel ->
  imageCache w !! l = None ->
  ioreadwaiting w !! l = None ->
  files (fs w) !! file_of env l = Some (PNG r) ->
  exists c w' q,
    get_run env l w = Ok c w' /\
    imageCacheGetBlockingLoc_recv c w' = Some (Some q) /\
    heap w !! q = None /\
    heap w' !! q = Some (decoded env r) /\
    ioreadwaiting w' !! l = None /\
    imageCache w' = imageCache w /\
    files (fs w') = files (fs w) /\
    quiescent w'.
Proof.
  intros (Hq & Hio & Hret) HS He Hw Hf.
  set (c := fresh (dom (chans w))).
  assert (Hc : chans w !! c = None).
  { apply not_elem_of_dom. apply is_fresh. }
  (* the request *)
  set (w1 := with_imageCacheProcess (imageCacheProcess w ++ [read_task l c])
               (with_chans (<[c := mkChanState [] false]> (chans w)) w)).
  assert (H1 : imageCacheGetBlockingLoc_send l w = Ok c w1) by reflexivity.
  (* the actor registers the waiter and queues the read *)
  set (w2 := with_iotasks (iotasks w ++ [read_task l c])
               (with_ioreadwaiting (<[l := [c]]> (ioreadwaiting w))
                  (with_imageCacheProcess [] w1))).
  assert (H2 : actorTakesTask env w1 = Ok tt w2).
  { rewrite (actorTakesTask_head env w1 (read_task l c) []).
    - apply (readExact_miss env (with_imageCacheProcess [] w1) l c HS); assumption.
    - subst w1. mproj. rewrite Hq. reflexivity. }
  (* the worker loads the file *)
  destruct (worker_read_png env w2 (read_task l c) [] r)
    as (w3 & H3 & Hio3 & Hret3 & Hh3 & Hf3 & Hc3 & Hq3 & Hw3 & Hm3).
  { subst w2. mproj. rewrite Hio. reflexivity. }
  { reflexivity. }
  { unfold file_of in Hf. rewrite HS in Hf. exact Hf. }
  set (q := fresh (dom (heap w2))) in *.
  (* the actor delivers *)
  destruct (onReturn_delivers (with_ioreturn [] w3) l q (Some c) [c])
    as (w4 & H4 & Hw4 & Hin4 & _ & Hm4 & Hh4 & Hf4 & Hio4 & Hret4).
  { mproj. rewrite Hw3. subst w2. mproj. apply lookup_insert_eq. }
  { apply NoDup_singleton. }
  { intros c' Hc'. apply list_elem_of_singleton in Hc'. subst c'.
    unfold chan_state. mproj. rewrite Hc3. subst w2 w1. mproj.
    rewrite lookup_insert_eq. reflexivity. }
  assert (H4' : actorTakesReturn w3 = Ok tt w4).
  { rewrite (actorTakesReturn_head w3 (mkImageTask l (Some q) (Some c)) []); [exact H4|].
    rewrite Hret3. subst w2 w1. mproj. rewrite Hret. reflexivity. }
  exists c, w4, q. split.
  { unfold get_run.
    rewrite (bind_Ok _ _ _ _ _ H1), (bind_Ok _ _ _ _ _ H2), (bind_Ok _ _ _ _ _ H3),
      (bind_Ok _ _ _ _ _ H4'). reflexivity. }
  split.
  { unfold imageCacheGetBlockingLoc_recv. rewrite (Hin4 c) by left.
    unfold chan_state. mproj. rewrite Hc3. subst w2 w1. mproj.
    rewrite lookup_insert_eq. reflexivity. }
  split.
  { apply not_elem_of_dom. subst q w2 w1. mproj. apply is_fresh. }
  split.
  { rewrite Hh4. mproj. rewrite Hh3. apply lookup_insert_eq. }
  split.
  { rewrite Hw4. apply lookup_delete_eq. }
  split.
  { rewrite Hm4. mproj. rewrite Hm3. reflexivity. }
  split.
  { rewrite Hf4. mproj. rewrite Hf3. reflexivity. }
  unfold quiescent. rewrite Hio4, Hret4. mproj. rewrite Hio3.
  split; [|split; reflexivity].
  rewrite (onReturn_keeps_requests _ _ _ H4). mproj. rewrite Hq3. reflexivity.
Qed.

Lemma get_on_disk_returns_file_witness :
  exists c w' q,
    get_run env0 loc500 world_on_disk = Ok c w' /\
    imageCacheGetBlockingLoc_recv c w' = Some (Some q) /\
    heap world_on_disk !! q = None /\
    heap w' !! q = Some (decoded env0 blue512) /\
    ioreadwaiting w' !! loc500 = None /\
    imageCache w' = imageCache world_on_disk /\
    files (fs w') = files (fs world_on_disk) /\
    quiescent w'.
Proof.
  apply (get_on_disk_returns_file env0 world_on_disk loc500 blue512).
  - repeat split.
  - reflexivity.
  - reflexivity.
  - reflexivity.
  - vm_compute. reflexivity.
Defined.

(** ** Requests that the actor drops, and requests that stop it *)

(** X5. A write request whose zoom level is neither 0 nor the storage level
    is dropped without a trace: the state after it is the state before. *)
Theorem write_other_zoom_ignored (env : Env) (w : World) (l : imageLoc) (a : ptr)
    (rt : option chan) :
  S_ l <> imageCacheStorageLevel ->
  S_ l <> 0 ->
  onTask env (mkImageTask l (Some a) rt) w = Ok tt w.
Proof.
  intros H5 H0. unfold onTask, write. mproj. munfold.
  destruct (S_ l =? imageCacheStorageLevel) eqn:E5; [apply Z.eqb_eq in E5; contradiction|].
  destruct (S_ l =? 0) eqn:E0; [apply Z.eqb_eq in E0; contradiction|].
  reflexivity.
Qed.

Lemma write_other_zoom_ignored_witness :
  onTask env0 (mkImageTask (mkImageLoc "w" "d" "l" 3 0 0) (Some 1%positive) None)
    world_resident = Ok tt world_resident.
Proof.
  apply (write_other_zoom_ignored env0 world_resident (mkImageLoc "w" "d" "l" 3 0 0)
           1%positive None); discriminate.
Defined.

(** X6. A read request with a negative zoom level stops the actor: indexing
    [powarr] with it panics, whatever the state. *)
Theorem read_negative_zoom_panics (env : Env) (w : World) (l : imageLoc) (c : chan) :
  S_ l < 0 ->
  onTask env (read_task l c) w = Panic "index out of range".
Proof.
  intros HS. unfold onTask, read_task. mproj.
  destruct (S_ l =? imageCacheStorageLevel) eqn:E5;
    [apply Z.eqb_eq in E5; unfold imageCacheStorageLevel in E5; lia|].
  destruct (S_ l <? imageCacheStorageLevel) eqn:El;
    [|apply Z.ltb_ge in El; unfold imageCacheStorageLevel in El; lia].
  unfold readZoomIn, powarr_at. mproj.
  destruct (0 <=? S_ l) eqn:E0; [apply Z.leb_le in E0; lia|].
  reflexivity.
Qed.

Lemma read_negative_zoom_panics_witness :
  onTask env0 (read_task (mkImageLoc "w" "d" "l" (-1) 0 0) 9%positive) world0
    = Panic "index out of range".
Proof.
  apply (read_negative_zoom_panics env0 world0 (mkImageLoc "w" "d" "l" (-1) 0 0) 9%positive).
  simpl. lia.
Defined.

(** The eviction step never fails; it touches the resident map and the
    clock only. *)
Lemma evict_Ok (env : Env) (w : World) :
  exists w',
    evict env w = Ok tt w' /\
    heap w' = heap w /\ fs w' = fs w /\ chans w' = chans w /\
    imageCacheProcess w' = imageCacheProcess w /\
    ioreadwaiting w' = ioreadwaiting w /\ iotasks w' = iotasks w /\
    ioreturn w' = ioreturn w /\
    (size (imageCache w') <= size (imageCache w))%nat /\
    (forall k e, imageCache w' !! k = Some e -> imageCache w !! k = Some e).
Proof.
  unfold evict. munfold.
  destruct (imageCacheMaxCache <? Z.of_nat (size (imageCache w))).
  - mproj. destruct (foldl _ _ _) as [t k].
    eexists. split; [reflexivity|]. mproj. repeat (split; [reflexivity|]).
    split.
    + rewrite map_size_delete. destruct (imageCache w !! k); simpl; lia.
    + intros k' e He. apply lookup_delete_Some in He as [_ He]. exact He.
  - eexists. split; [reflexivity|]. repeat (split; [reflexivity|]).
    intros k e He. exact He.
Qed.

Lemma powarr_at_pow2 (s : Z) (w : World) :
  0 <= s <= 12 -> powarr_at s w = Ok (2 ^ s) w.
Proof.
  intros Hs. unfold powarr_at.
  assert (s = 0 \/ s = 1 \/ s = 2 \/ s = 3 \/ s = 4 \/ s = 5 \/ s = 6 \/ s = 7 \/
          s = 8 \/ s = 9 \/ s = 10 \/ s = 11 \/ s = 12) as H by lia.
  repeat (destruct H as [-> | H]; [reflexivity|]). subst s. reflexivity.
Qed.



(** X8. A zoom-in read of a tile that is not resident and whose file does
    not decode stops the actor. [cacheLoad] removes the file and reports no
    error, so the tile is entered with a [nil] raster, and drawing from it
    panics. *)
Theorem zoom_in_undecodable_file_panics (env : Env) (w : World) (l : imageLoc)
    (c : chan) :
  0 <= S_ l < imageCacheStorageLevel ->
  let ax := GoInt.mul (X_ l) (2 ^ S_ l) in
  let az := GoInt.mul (Z_ l) (2 ^ S_ l) in
  let rl := storageLoc l (ax / 32) (az / 32) in
  imageCache w !! rl = None ->
  files (fs w) !! file_of env rl = Some Undecodable ->
  onTask env (read_task l c) w = Panic "nil pointer dereference".
Proof.
  intros HS ax az rl Hm Hf.
  unfold imageCacheStorageLevel in HS.
  unfold onTask, read_task. mproj.
  destruct (S_ l =? imageCacheStorageLevel) eqn:E5;
    [apply Z.eqb_eq in E5; unfold imageCacheStorageLevel in E5; lia|].
  destruct (S_ l <? imageCacheStorageLevel) eqn:El;
    [|apply Z.ltb_ge in El; unfold imageCacheStorageLevel in El; lia].
  unfold readZoomIn. mproj.
  rewrite (bind_Ok _ _ _ _ _ (powarr_at_pow2 (S_ l) w ltac:(lia))).
  fold ax az. rewrite icAT_div, icIN_mod. fold rl.
  rewrite (bind_Ok _ _ _ _ _ (gets_Ok _ w)). rewrite Hm.
  unfold file_of in Hf. cbn [World_ Dimension Layer S_ X_ Z_ rl storageLoc] in Hf.
  destruct (cacheLoad_undecodable env w _ _ _ _ _ _ Hf) as (w1 & Hrun & _).
  rewrite (bind_Ok _ _ _ _ _ Hrun).
  set (w2 := with_ticks (Datatypes.S (ticks w1)) w1).
  rewrite (bind_Ok _ _ w1 w2 (clock env (ticks w1))) by reflexivity.
  destruct (evict_Ok env w2) as (w3 & Hev & _).
  rewrite (bind_Ok _ _ _ _ _ Hev).
  erewrite bind_Ok by (unfold setCache; apply modify_Ok).
  unfold NewRGBA, drawDraw. munfold. mproj. rewrite lookup_insert_eq. mproj.
  rewrite lookup_insert_eq. reflexivity.
Qed.

Lemma zoom_in_undecodable_file_panics_witness :
  onTask env0 (read_task (mkImageLoc "w" "d" "l" 0 3 4) 9%positive) world_broken_file
    = Panic "nil pointer dereference".
Proof.
  apply (zoom_in_undecodable_file_panics env0 world_broken_file
           (mkImageLoc "w" "d" "l" 0 3 4) 9%positive).
  - simpl. unfold imageCacheStorageLevel. lia.
  - reflexivity.
  - vm_compute. reflexivity.
Defined.

(** ** Zoom-in reads: the crop of a storage tile *)

Lemma over_channel_transparent (s sa : Z) :
  0 <= s <= 255 -> draw.over_channel 0 s sa = s.
Proof.
  intros Hs. unfold draw.over_channel. cbv zeta.
  rewrite Z.mul_0_l, Z.div_0_l by lia. rewrite Z.add_0_l.
  rewrite Z.shiftr_div_pow2 by lia. change (2 ^ 8) with 256.
  assert (H : s * 257 / 256 = s).
  { symmetry. apply (Z.div_unique (s * 257) 256 s s); lia. }
  rewrite H. apply Z.mod_small. lia.
Qed.

(** Drawn over a transparent pixel, a colour is unchanged. *)
Lemma over_transparent (c : image.Color) :
  valid_color c -> draw.compose draw.Over image.Transparent c = c.
Proof.
  intros (HR & HG & HB & HA). destruct c as [r g b a]. cbn in *.
  rewrite !over_channel_transparent by assumption. reflexivity.
Qed.

(** The offset of a sub-tile in its storage tile, as the zoom-in read
    computes it: [pw] is the number of chunks on a side of the sub-tile. *)
Lemma subtile_offset (pw k x : Z) :
  0 < pw -> 0 < k -> k * pw = 32 ->
  GoInt.mul (GoInt.quo ((x * pw) mod 32) pw) (GoInt.mul pw 16) = (x * pw) mod 32 * 16 /\
  0 <= (x * pw) mod 32 * 16 /\
  (x * pw) mod 32 * 16 + pw * 16 <= 512.
Proof.
  intros Hpw Hk H32. rewrite <- H32.
  rewrite Z.mul_mod_distr_r by lia.
  pose proof (Z.mod_pos_bound x k Hk) as Hb.
  unfold GoInt.quo. rewrite Z.quot_mul by lia.
  assert (Hpw32 : pw <= 32) by nia.
  assert (Hle : x mod k * pw + pw <= 32) by nia.
  unfold GoInt.mul.
  rewrite (GoInt_wrap_id (pw * 16)) by (unfold GoInt.in_range; lia).
  rewrite GoInt_wrap_id by (unfold GoInt.in_range; nia).
  repeat split; nia.
Qed.

(** Drawing a region of a 512x512 tile over a new raster of the size of
    the region. *)
Lemma crop_pixels (tile : image.RGBA) (side ox oy : Z) :
  0 < side -> 0 <= ox -> 0 <= oy -> ox + side <= 512 -> oy + side <= 512 ->
  image.RGBA_Rect tile = image.Rect 0 0 512 512 ->
  let out := draw.Draw (image.NewRGBA (image.Rect 0 0 side side))
               (image.Rect 0 0 side side) tile (image.mkPoint ox oy) draw.Over in
  image.RGBA_Rect out = image.Rect 0 0 side side /\
  forall x y, 0 <= x < side -> 0 <= y < side ->
    image.RGBAAt out x y =
      draw.compose draw.Over image.Transparent (image.RGBAAt tile (ox + x) (oy + y)).
Proof.
  intros Hside Hox Hoy Hx Hy Ht out. subst out.
  unfold draw.Draw, draw.clip. rewrite Ht.
  rewrite !Rect_ordered by lia. cbn [image.RGBA_Rect image.NewRGBA].
  rewrite (Intersect_inside _ (image.mkRectangle (image.mkPoint 0 0) (image.mkPoint side side)))
    by (unfold image.Empty; cbn [image.X image.Y image.Min image.Max]; lia).
  rewrite Intersect_inside
    by (unfold image.Empty, image.Add, image.PtSub, image.PtAdd;
        cbn [image.X image.Y image.Min image.Max]; lia).
  cbn [image.X image.Y image.Min image.Max].
  assert (HE : image.Empty
            {| image.Min := {| image.X := 0; image.Y := 0 |};
               image.Max := {| image.X := side; image.Y := side |} |} = false)
    by (unfold image.Empty; cbn [image.X image.Y image.Min image.Max]; lia).
  rewrite HE. cbn [image.RGBA_Rect]. split; [reflexivity|].
  intros x y Hxb Hyb. unfold image.RGBAAt at 1. cbn [image.RGBA_Rect image.Pix].
  assert (Hin : image.In {| image.X := x; image.Y := y |}
            {| image.Min := {| image.X := 0; image.Y := 0 |};
               image.Max := {| image.X := side; image.Y := side |} |} = true).
  { unfold image.In. cbn [image.X image.Y image.Min image.Max].
    repeat (apply andb_true_iff; split); lia. }
  rewrite Hin.
  replace (x - 0 + (ox + (0 - 0))) with (ox + x) by lia.
  replace (y - 0 + (oy + (0 - 0))) with (oy + y) by lia.
  reflexivity.
Qed.

(** X9. A zoom-in read at level [S < 5] of a tile whose storage tile is
    resident with a 512x512 raster sends the client a new raster of side
    [16 * 2^S] that is the region of the storage tile starting at pixel
    [(ox, oy)], where [ox = ((X * 2^S) mod 32) * 16] and likewise [oy]; the
    storage tile is not modified, and its entry gets the time read as
    [lastUse]. *)
Theorem zoom_in_resident_crops (env : Env) (w : World) (l : imageLoc) (c : chan)
    (e : cachedImage) (a : ptr) (tile : image.RGBA) :
  0 <= S_ l < imageCacheStorageLevel ->
  GoInt.in_range (X_ l * 2 ^ S_ l) ->
  GoInt.in_range (Z_ l * 2 ^ S_ l) ->
  let ax := X_ l * 2 ^ S_ l in
  let az := Z_ l * 2 ^ S_ l in
  let rl := storageLoc l (ax / 32) (az / 32) in
  let ox := ax mod 32 * 16 in
  let oy := az mod 32 * 16 in
  let side := 2 ^ S_ l * 16 in
  imageCache w !! rl = Some e ->
  img e = Some a ->
  heap w !! a = Some tile ->
  image.RGBA_Rect tile = image.Rect 0 0 512 512 ->
  (forall x y, valid_color (image.Pix tile x y)) ->
  closed (chan_state c w) = false ->
  exists w' q out,
    onTask env (read_task l c) w = Ok tt w' /\
    chan_state c w' = mkChanState (sent (chan_state c w) ++ [q]) false /\
    heap w !! q = None /\
    heap w' !! q = Some out /\
    heap w' !! a = Some tile /\
    image.RGBA_Rect out = image.Rect 0 0 side side /\
    (forall x y, 0 <= x < side -> 0 <= y < side ->
       image.RGBAAt out x y = image.RGBAAt tile (ox + x) (oy + y)) /\
    imageCache w' = <[rl := set_lastUse e (clock env (ticks w))]> (imageCache w).
Proof.
  intros HS HX HZ ax az rl ox oy side Hm Ha Ht Hrect Hvalid Hc.
  unfold imageCacheStorageLevel in HS.
  set (pw := 2 ^ S_ l) in *.
  assert (Hpw : 0 < pw) by (apply Z.pow_pos_nonneg; lia).
  assert (H32 : 2 ^ (5 - S_ l) * pw = 32).
  { unfold pw. rewrite <- Z.pow_add_r by lia. replace (5 - S_ l + S_ l) with 5 by lia.
    reflexivity. }
  assert (Hk : 0 < 2 ^ (5 - S_ l)) by (apply Z.pow_pos_nonneg; lia).
  destruct (subtile_offset pw _ (X_ l) Hpw Hk H32) as (Hptx & Hox0 & Hox1).
  destruct (subtile_offset pw _ (Z_ l) Hpw Hk H32) as (Hpty & Hoy0 & Hoy1).
  fold ax ox in Hptx, Hox0, Hox1. fold az oy in Hpty, Hoy0, Hoy1. fold side in Hox1, Hoy1.
  assert (Hside : GoInt.mul pw 16 = side).
  { apply GoInt_wrap_id. unfold GoInt.in_range. nia. }
  set (q := fresh (dom (heap w))).
  assert (Hq : heap w !! q = None) by (apply not_elem_of_dom, is_fresh).
  assert (Hqa : q <> a) by (intros ->; rewrite Ht in Hq; discriminate).
  assert (Hside0 : 0 < side) by (unfold side; lia).
  destruct (crop_pixels tile side ox oy) as [Hout_rect Hout_pix]; try lia; try assumption.
  set (out := draw.Draw _ _ tile _ _) in Hout_rect, Hout_pix.
  unfold onTask, read_task. mproj.
  destruct (S_ l =? imageCacheStorageLevel) eqn:E5;
    [apply Z.eqb_eq in E5; unfold imageCacheStorageLevel in E5; lia|].
  destruct (S_ l <? imageCacheStorageLevel) eqn:El;
    [|apply Z.ltb_ge in El; unfold imageCacheStorageLevel in El; lia].
  unfold readZoomIn. mproj.
  rewrite (bind_Ok _ _ _ _ _ (powarr_at_pow2 (S_ l) w ltac:(lia))). fold pw.
  unfold GoInt.mul at 1 2 3 4. rewrite !(GoInt_wrap_id (_ * pw)) by assumption.
  fold ax az. rewrite icAT_div, icIN_mod. fold rl.
  rewrite Hptx, Hpty, Hside.
  rewrite (bind_Ok _ _ _ _ _ (gets_Ok _ w)). rewrite Hm.
  munfold. mproj. rewrite Ha. unfold send, chan_state in *. mproj.
  fold q. rewrite lookup_insert_eq. mproj. rewrite lookup_insert_eq. mproj.
  rewrite lookup_insert_ne by exact Hqa. rewrite Ht. mproj. rewrite Hc.
  rewrite insert_insert_eq.
  change (image.RGBA_Rect (image.NewRGBA (image.Rect 0 0 side side)))
    with (image.Rect 0 0 side side).
  eexists _, q, _. split; [reflexivity|]. mproj.
  rewrite !lookup_insert_eq, lookup_insert_ne by exact Hqa.
  repeat (split; [first [reflexivity | assumption]|]).
  split; [|reflexivity]. intros x y Hx Hy.
  rewrite Hout_pix by assumption. apply over_transparent.
  unfold image.RGBAAt. destruct (image.In _ _); [apply Hvalid|].
  unfold valid_color, image.Transparent. cbn. lia.
Qed.

Lemma zoom_in_resident_crops_witness :
  exists w' q out,
    onTask env0 (read_task (mkImageLoc "w" "d" "l" 2 5 1) 9%positive) world_resident
      = Ok tt w' /\
    chan_state 9%positive w' =
      mkChanState (sent (chan_state 9%positive world_resident) ++ [q]) false /\
    heap world_resident !! q = None /\
    heap w' !! q = Some out /\
    heap w' !! 1%positive = Some blue512 /\
    image.RGBA_Rect out = image.Rect 0 0 64 64 /\
    (forall x y, 0 <= x < 64 -> 0 <= y < 64 ->
       image.RGBAAt out x y = image.RGBAAt blue512 (320 + x) (64 + y)) /\
    imageCache w' =
      <[loc500 := set_lastUse (mkCachedImage (Some 1%positive) true 7) 1000]>
        (imageCache world_resident).
Proof.
  apply (zoom_in_resident_crops env0 world_resident (mkImageLoc "w" "d" "l" 2 5 1) 9%positive
           (mkCachedImage (Some 1%positive) true 7) 1%positive blue512).
  - simpl. unfold imageCacheStorageLevel. lia.
  - unfold GoInt.in_range. simpl. lia.
  - unfold GoInt.in_range. simpl. lia.
  - reflexivity.
  - reflexivity.
  - reflexivity.
  - reflexivity.
  - intros x y. unfold valid_color. simpl. lia.
  - reflexivity.
Defined.

(** ** The shutdown, the worker's writes and the disk codec *)

Lemma with_iotasks_same (w : World) : with_iotasks (iotasks w) w = w.
Proof. destruct w; reflexivity. Qed.

Lemma onDone_loop (l : list (imageLoc * cachedImage)) (w : World) :
  forM_ l (fun '(k, v) =>
    if negb (syncedToDisk v) then
      modify (fun w => with_iotasks (iotasks w ++ [mkImageTask k (img v) None]) w)
    else mret tt) w
  = Ok tt (with_iotasks (iotasks w ++ dirty_tasks l) w).
Proof.
  revert w. induction l as [|[k v] l IH]; intros w.
  - unfold dirty_tasks. rewrite filter_nil. cbn [fmap list_fmap].
    rewrite app_nil_r, with_iotasks_same. reflexivity.
  - cbn [forM_ foldr]. fold (forM_ l (fun '(k, v) =>
      if negb (syncedToDisk v) then
        modify (fun w => with_iotasks (iotasks w ++ [mkImageTask k (img v) None]) w)
      else mret tt)).
    unfold dirty_tasks. rewrite filter_cons. cbn [snd fst].
    destruct (syncedToDisk v) eqn:Es; cbn [negb].
    + rewrite decide_False by discriminate.
      erewrite bind_Ok by reflexivity. rewrite IH. reflexivity.
    + rewrite decide_True by reflexivity.
      erewrite bind_Ok by apply modify_Ok. rewrite IH. mproj.
      cbn [fmap list_fmap fst snd]. rewrite <- app_assoc. reflexivity.
Qed.

(** X10. At shutdown the actor puts one write request in the I/O queue for
    each resident entry that is not synced, with the entry's key and raster
    and no reply channel, and none for the synced entries; the order is that
    of the map's enumeration. Nothing is saved by the actor itself and the
    resident map is as before. *)
Theorem shutdown_enqueues_dirty_entries (env : Env) (w : World) :
  exists ts,
    onDone env w = Ok tt (with_iotasks (iotasks w ++ ts) w) /\
    ts ≡ₚ dirty_tasks (map_to_list (imageCache w)) /\
    (forall t, t ∈ ts <->
       exists k v, imageCache w !! k = Some v /\ syncedToDisk v = false /\
                   t = mkImageTask k (img v) None).
Proof.
  exists (dirty_tasks (range_order env (imageCache w))).
  split; [|split].
  - unfold onDone. rewrite (bind_Ok _ _ _ _ _ (gets_Ok _ w)). apply onDone_loop.
  - unfold dirty_tasks. rewrite (range_order_perm env). reflexivity.
  - intros t. unfold dirty_tasks. rewrite list_elem_of_fmap. split.
    + intros ([k v] & -> & Hin). apply list_elem_of_filter in Hin as [Hd Hin].
      apply (range_order_elem env) in Hin. exists k, v. repeat split; assumption.
    + intros (k & v & Hk & Hd & ->). exists (k, v). split; [reflexivity|].
      apply list_elem_of_filter. split; [exact Hd|]. apply (range_order_elem env), Hk.
Qed.

(** X11. A worker that takes a write request saves the raster in the file of
    the storage-level tile with the request's coordinates, whatever the zoom
    level of the request's key. When the file system lets the save go
    through ([can_save]), the four calls of [cacheSave] are made and the
    file then holds the request's raster; otherwise the calls stop before
    the file is closed. No other file is touched, nothing is posted to the
    actor, whether the save failed or not, and the resident map and the
    rasters are left alone. *)
Theorem worker_write_saves_at_storage_level (env : Env) (w : World) (p : imageTask)
    (q : list imageTask) (a : ptr) (r : image.RGBA) :
  iotasks w = p :: q ->
  task_img p = Some a ->
  heap w !! a = Some r ->
  let k := storageLoc (loc p) (X_ (loc p)) (Z_ (loc p)) in
  exists w' n,
    imageCacheWorker env w = Ok tt w' /\
    calls (fs w') = calls (fs w) ++ take (Datatypes.S n) (save_calls env k) /\
    iotasks w' = q /\ ioreturn w' = ioreturn w /\
    imageCache w' = imageCache w /\ heap w' = heap w /\ chans w' = chans w /\
    imageCacheProcess w' = imageCacheProcess w /\
    ioreadwaiting w' = ioreadwaiting w /\
    (forall fp, fp <> file_of env k -> files (fs w') !! fp = files (fs w) !! fp) /\
    if can_save (fs w) (file_of env k) r
    then calls (fs w') = calls (fs w) ++ save_calls env k /\
         files (fs w') !! file_of env k = Some (PNG r)
    else (n < 3)%nat.
Proof.
  intros Hq Hp Ha k.
  destruct (cacheSave_calls env (with_iotasks q w) a r (World_ (loc p)) (Dimension (loc p))
              (Layer (loc p)) imageCacheStorageLevel (X_ (loc p)) (Z_ (loc p)) Ha)
    as (err & w' & Hrun & [n Hcalls] & Hh & Hc & Ht & Hpr & Hm & Hwt & Hio & Hret & _).
  destruct (cacheSave_outcome env (with_iotasks q w) a r (World_ (loc p)) (Dimension (loc p))
              (Layer (loc p)) imageCacheStorageLevel (X_ (loc p)) (Z_ (loc p)) Ha)
    as (err' & w'' & Hrun' & Hfiles & Hout).
  rewrite Hrun in Hrun'. injection Hrun' as <- <-.
  assert (Hwork : imageCacheWorker env w = Ok tt w').
  { unfold imageCacheWorker. rewrite (bind_Ok _ _ _ _ _ (gets_Ok _ w)). rewrite Hq.
    erewrite bind_Ok by apply modify_Ok. rewrite Hp.
    rewrite (bind_Ok _ _ _ _ _ Hrun). reflexivity. }
  change (cacheGetFilename env (World_ (loc p)) (Dimension (loc p)) (Layer (loc p))
            imageCacheStorageLevel (X_ (loc p)) (Z_ (loc p)))
    with (file_of env k) in Hfiles, Hout, Hcalls.
  change (fs (with_iotasks q w)) with (fs w) in Hfiles, Hout, Hcalls.
  fold (save_calls env k) in Hout, Hcalls.
  destruct (can_save (fs w) (file_of env k) r) eqn:Ecan.
  - destruct Hout as (_ & Hall & Hfile).
    exists w', 3%nat. split; [exact Hwork|].
    split; [rewrite Hall; reflexivity|].
    split; [exact Hio|]. split; [exact Hret|]. split; [exact Hm|]. split; [exact Hh|].
    split; [exact Hc|]. split; [exact Hpr|]. split; [exact Hwt|]. split; [exact Hfiles|].
    split; [exact Hall|exact Hfile].
  - destruct Hout as (_ & n' & Hn' & Hstop).
    exists w', n'. split; [exact Hwork|]. split; [exact Hstop|].
    split; [exact Hio|]. split; [exact Hret|]. split; [exact Hm|]. split; [exact Hh|].
    split; [exact Hc|]. split; [exact Hpr|]. split; [exact Hwt|]. split; [exact Hfiles|].
    exact Hn'.
Qed.

Lemma worker_write_saves_at_storage_level_witness :
  exists w' n,
    imageCacheWorker env0
      (with_iotasks [mkImageTask (mkImageLoc "w" "d" "l" 0 3 4) (Some 1%positive) None]
         world_red) = Ok tt w' /\
    calls (fs w') =
      [] ++ take (Datatypes.S n) (save_calls env0 (mkImageLoc "w" "d" "l" 5 3 4)) /\
    iotasks w' = [] /\ ioreturn w' = [] /\
    imageCache w' = ∅ /\ heap w' = heap world_red /\ chans w' = ∅ /\
    imageCacheProcess w' = [] /\ ioreadwaiting w' = ∅ /\
    (forall fp, fp <> file_of env0 (mkImageLoc "w" "d" "l" 5 3 4) ->
                files (fs w') !! fp = files (fs world_red) !! fp) /\
    calls (fs w') = [] ++ save_calls env0 (mkImageLoc "w" "d" "l" 5 3 4) /\
    files (fs w') !! file_of env0 (mkImageLoc "w" "d" "l" 5 3 4) = Some (PNG red16).
Proof.
  apply (worker_write_saves_at_storage_level env0
           (with_iotasks [mkImageTask (mkImageLoc "w" "d" "l" 0 3 4) (Some 1%positive) None]
              world_red)
           (mkImageTask (mkImageLoc "w" "d" "l" 0 3 4) (Some 1%positive) None) []
           1%positive red16); reflexivity.
Defined.

(** X12. A raster saved without error is what a load of the same key
    decodes: [cacheLoad] then returns, without error, a new raster that is
    the decoding of the saved one, with its bounds moved to the origin; the
    saved raster is not changed. *)
Theorem save_then_load_round_trip (env : Env) (w w1 : World) (a : ptr) (r : image.RGBA)
    (world dim render : string) (s x z : Z) :
  heap w !! a = Some r ->
  cacheSave env (Some a) world dim render s x z w = Ok None w1 ->
  exists q w2,
    cacheLoad env world dim render s x z w1 = Ok (Some q, None) w2 /\
    heap w !! q = None /\
    heap w2 !! q = Some (decoded env r) /\
    heap w2 !! a = Some r /\
    image.RGBA_Rect (decoded env r) =
      image.Rect 0 0 (image.Dx (image.RGBA_Rect r)) (image.Dy (image.RGBA_Rect r)) /\
    files (fs w2) !! cacheGetFilename env world dim render s x z = Some (PNG r).
Proof.
  intros Ha Hsave.
  destruct (cacheSave_calls env w a r world dim render s x z Ha)
    as (err & w1' & Hrun & _ & Hh & _ & _ & _ & _ & _ & _ & _ & Hok).
  rewrite Hsave in Hrun. injection Hrun as <- <-.
  destruct (Hok eq_refl) as (_ & Hfile & _).
  destruct (cacheLoad_png env w1 world dim render s x z r Hfile)
    as (w2 & Hload & Hh2 & Hf2 & _).
  exists (fresh (dom (heap w1))), w2.
  assert (Hq : heap w1 !! fresh (dom (heap w1)) = None) by (apply not_elem_of_dom, is_fresh).
  split; [exact Hload|]. rewrite <- Hh. split; [exact Hq|].
  rewrite Hh2. split; [apply lookup_insert_eq|].
  split.
  { rewrite lookup_insert_ne; [rewrite Hh; exact Ha|].
    intros E. rewrite E, Hh, Ha in Hq. discriminate. }
  split; [reflexivity|]. rewrite Hf2. exact Hfile.
Qed.

Lemma save_then_load_round_trip_witness :
  exists w1,
    cacheSave env0 (Some 1%positive) "w" "d" "l" 5 0 0 world_dirty = Ok None w1 /\
    exists q w2,
      cacheLoad env0 "w" "d" "l" 5 0 0 w1 = Ok (Some q, None) w2 /\
      heap world_dirty !! q = None /\
      heap w2 !! q = Some (decoded env0 blue512) /\
      heap w2 !! 1%positive = Some blue512 /\
      image.RGBA_Rect (decoded env0 blue512) =
        image.Rect 0 0 (image.Dx (image.RGBA_Rect blue512))
                       (image.Dy (image.RGBA_Rect blue512)) /\
      files (fs w2) !! cacheGetFilename env0 "w" "d" "l" 5 0 0 = Some (PNG blue512).
Proof.
  eexists. split; [reflexivity|].
  apply (save_then_load_round_trip env0 world_dirty _ 1%positive blue512 "w" "d" "l" 5 0 0);
    reflexivity.
Defined.

(** X13. A file that does not decode is removed by the load that finds it:
    [cacheLoad] opens it, removes it and closes it, and returns neither a
    raster nor an error; the next load of the same key reports that the
    file does not exist. *)
Theorem broken_file_removed_by_load (env : Env) (w : World) (world dim render : string)
    (s x z : Z) :
  let fp := cacheGetFilename env world dim render s x z in
  files (fs w) !! fp = Some Undecodable ->
  exists w1 w2,
    cacheLoad env world dim render s x z w = Ok (None, None) w1 /\
    calls (fs w1) = calls (fs w) ++ [SysOpen fp; SysRemove fp; SysClose fp] /\
    files (fs w1) = delete fp (files (fs w)) /\
    cacheLoad env world dim render s x z w1 = Ok (None, Some ErrNotExist) w2 /\
    files (fs w2) = files (fs w1) /\ heap w2 = heap w.
Proof.
  intros fp Hf.
  eexists _, _. split.
  { unfold cacheLoad, Open, Close, Remove. fold fp. munfold. mproj. rewrite Hf.
    cbv beta iota. mproj. rewrite Hf. reflexivity. }
  mproj. split; [rewrite <- !app_assoc; reflexivity|]. split; [reflexivity|].
  split.
  { apply cacheLoad_absent. mproj. fold fp. apply lookup_delete_eq. }
  split; reflexivity.
Qed.

Lemma broken_file_removed_by_load_witness :
  exists w1 w2,
    cacheLoad env0 "w" "d" "l" 5 0 0 world_broken_file = Ok (None, None) w1 /\
    calls (fs w1) =
      calls (fs world_broken_file) ++
      [SysOpen (cacheGetFilename env0 "w" "d" "l" 5 0 0);
       SysRemove (cacheGetFilename env0 "w" "d" "l" 5 0 0);
       SysClose (cacheGetFilename env0 "w" "d" "l" 5 0 0)] /\
    files (fs w1) =
      delete (cacheGetFilename env0 "w" "d" "l" 5 0 0) (files (fs world_broken_file)) /\
    cacheLoad env0 "w" "d" "l" 5 0 0 w1 = Ok (None, Some ErrNotExist) w2 /\
    files (fs w2) = files (fs w1) /\ heap w2 = heap world_broken_file.
Proof.
  apply (broken_file_removed_by_load env0 world_broken_file "w" "d" "l" 5 0 0).
  reflexivity.
Defined.

(** ** The flush tick on a cache with nothing to save *)

Lemma flush_loop_clean (env : Env) (l : list (imageLoc * cachedImage)) (w : World) :
  (forall k v, (k, v) ∈ l -> syncedToDisk v = true) ->
  forM_ l (flushEntry env) w = Ok tt w.
Proof.
  induction l as [|[k v] l IH]; intros Hl; [reflexivity|].
  change (forM_ ((k, v) :: l) (flushEntry env))
    with (flushEntry env (k, v) ≫= (fun _ => forM_ l (flushEntry env))).
  assert (Hv : flushEntry env (k, v) w = Ok tt w).
  { unfold flushEntry. rewrite (Hl k v) by left. reflexivity. }
  rewrite (bind_Ok _ _ _ _ _ Hv). apply IH.
  intros k' v' Hin. apply (Hl k' v'). right. exact Hin.
Qed.

(** X14. A flush tick on a cache whose entries are all synced does nothing:
    no file system call is made, no entry is touched, and the state of the
    system is the one before the tick. *)
Theorem flush_tick_all_synced_is_noop (env : Env) (w : World) :
  (forall k v, imageCache w !! k = Some v -> syncedToDisk v = true) ->
  onFlushTick env w = Ok tt w.
Proof.
  intros Hs. unfold onFlushTick. rewrite (bind_Ok _ _ _ _ _ (gets_Ok _ w)).
  apply flush_loop_clean. intros k v Hin. apply (Hs k v), (range_order_elem env), Hin.
Qed.

Lemma flush_tick_all_synced_is_noop_witness :
  onFlushTick env0 world_resident = Ok tt world_resident.
Proof.
  apply (flush_tick_all_synced_is_noop env0 world_resident).
  intros k v H. unfold world_resident in H. cbn [imageCache] in H.
  apply lookup_singleton_Some in H as [_ <-]. reflexivity.
Defined.

(** ** Invariant I1 on a run *)

Lemma world_written_reachable : rtc (step env0) world_red world_written.
Proof.
  eapply rtc_l.
  { eapply (step_put env0 (Some 1%positive) "w" "d" "l" 5 0 0). reflexivity. }
  eapply rtc_l; [|apply rtc_refl].
  apply step_task. reflexivity.
Qed.

(** X15. In every state that the system reaches from an empty resident
    map, each resident key is at the storage level. So the worker, which
    builds the file name from the storage level and the request's
    coordinates, saves a resident entry in the file of the entry's own key;
    and the zero key, which the eviction deletes when no entry is older than
    now, is never resident. *)
Theorem resident_keys_at_storage_level (env : Env) (w0 w : World) (k : imageLoc)
    (e : cachedImage) :
  imageCache w0 = ∅ ->
  rtc (step env) w0 w ->
  imageCache w !! k = Some e ->
  S_ k = imageCacheStorageLevel /\
  storageLoc k (X_ k) (Z_ k) = k /\
  imageCache w !! zero_imageLoc = None.
Proof.
  intros H0 Hrtc Hk.
  assert (HI : storage_keys (imageCache w)).
  { assert (HI0 : storage_keys (imageCache w0)) by (rewrite H0; apply map_Forall_empty).
    clear H0 Hk. induction Hrtc as [|w1 w2 w3 Hstep _ IH]; [exact HI0|].
    apply IH, (step_keeps_keys env w1 w2 Hstep HI0). }
  pose proof (HI k e Hk) as HS. cbv beta in HS.
  split; [exact HS|]. split.
  - unfold storageLoc. rewrite <- HS. destruct k; reflexivity.
  - destruct (imageCache w !! zero_imageLoc) as [e0|] eqn:E0; [|reflexivity].
    apply HI in E0. discriminate E0.
Qed.

Lemma resident_keys_at_storage_level_witness :
  S_ loc500 = imageCacheStorageLevel /\
  storageLoc loc500 (X_ loc500) (Z_ loc500) = loc500 /\
  imageCache world_written !! zero_imageLoc = None.
Proof.
  apply (resident_keys_at_storage_level env0 world_red world_written loc500
           (mkCachedImage (Some 1%positive) false 1000)).
  - reflexivity.
  - exact world_written_reachable.
  - reflexivity.
Defined.

(** ** Rasters handed out and rasters kept *)

Lemma copy_pixels (r : image.RGBA) (x y : Z) :
  image.RGBAAt (image.mkRGBA (fun x y => image.RGBAAt r x y) (image.RGBA_Rect r)) x y
  = image.RGBAAt r x y.
Proof.
  unfold image.RGBAAt. cbn [image.RGBA_Rect image.Pix].
  destruct (image.In _ _); reflexivity.
Qed.

(** X16. The raster that a read at the storage level returns for a resident
    tile is a copy of its own: it is at an address that was not in use, has
    the tile's bounds and pixels, and a write to the tile that the actor
    takes afterwards draws on the resident raster and leaves the returned
    one as it was. *)
Theorem exact_read_returns_private_copy (env : Env) (w : World) (l : imageLoc) (c : chan)
    (e : cachedImage) (a b : ptr) (tile src : image.RGBA) :
  S_ l = imageCacheStorageLevel ->
  imageCache w !! l = Some e ->
  img e = Some a ->
  heap w !! a = Some tile ->
  heap w !! b = Some src ->
  closed (chan_state c w) = false ->
  exists w' q copy,
    (onTask env (read_task l c) ;; onTask env (mkImageTask l (Some b) None)) w = Ok tt w' /\
    sent (chan_state c w') = sent (chan_state c w) ++ [q] /\
    heap w !! q = None /\
    heap w' !! q = Some copy /\
    image.RGBA_Rect copy = image.RGBA_Rect tile /\
    (forall x y, image.RGBAAt copy x y = image.RGBAAt tile x y) /\
    heap w' !! a =
      Some (draw.Draw tile (image.RGBA_Rect tile) src image.ZP draw.Over).
Proof.
  intros HS He Ha Htile Hsrc Hc.
  set (q := fresh (dom (heap w))).
  assert (Hq : heap w !! q = None) by (apply not_elem_of_dom, is_fresh).
  assert (Hqa : q <> a) by (intros E; rewrite E, Htile in Hq; discriminate).
  assert (Hqb : q <> b) by (intros E; rewrite E, Hsrc in Hq; discriminate).
  destruct (readExact_hit env w l c e a tile HS He Ha Htile Hc)
    as (w1 & Hrun1 & Hh1 & Hc1 & Hm1 & _).
  fold q in Hh1, Hc1.
  assert (Hrun2 : exists w',
    onTask env (mkImageTask l (Some b) None) w1 = Ok tt w' /\
    heap w' = <[a := draw.Draw tile (image.RGBA_Rect tile) src image.ZP draw.Over]> (heap w1) /\
    chans w' = chans w1).
  { unfold onTask, write. mproj. rewrite HS, Z.eqb_refl.
    munfold. mproj. rewrite Hm1, lookup_insert_eq. mproj. rewrite Ha.
    repeat (first [ rewrite Hh1
                  | rewrite lookup_insert_ne by first [exact Hqa | exact Hqb]
                  | rewrite Htile
                  | rewrite Hsrc ];
            cbv beta iota; mproj).
    eexists. split; [reflexivity|]. mproj. split; reflexivity. }
  destruct Hrun2 as (w2 & Hrun2 & Hh2 & Hc2).
  exists w2, q, (image.mkRGBA (fun x y => image.RGBAAt tile x y) (image.RGBA_Rect tile)).
  split.
  { unfold read_task. rewrite (bind_Ok _ _ _ _ _ Hrun1). exact Hrun2. }
  split.
  { unfold chan_state. rewrite Hc2, Hc1, lookup_insert_eq. reflexivity. }
  split; [exact Hq|]. rewrite Hh2, Hh1.
  split; [rewrite lookup_insert_ne by (intros E; apply Hqa; symmetry; exact E);
          apply lookup_insert_eq|].
  split; [reflexivity|]. split; [apply copy_pixels|]. apply lookup_insert_eq.
Qed.

Lemma exact_read_returns_private_copy_witness :
  exists w' q copy,
    (onTask env0 (read_task loc500 9%positive) ;;
     onTask env0 (mkImageTask loc500 (Some 2%positive) None)) world_resident = Ok tt w' /\
    sent (chan_state 9%positive w') = sent (chan_state 9%positive world_resident) ++ [q] /\
    heap world_resident !! q = None /\
    heap w' !! q = Some copy /\
    image.RGBA_Rect copy = image.RGBA_Rect blue512 /\
    (forall x y, image.RGBAAt copy x y = image.RGBAAt blue512 x y) /\
    heap w' !! 1%positive =
      Some (draw.Draw blue512 (image.RGBA_Rect blue512) red512 image.ZP draw.Over).
Proof.
  apply (exact_read_returns_private_copy env0 world_resident loc500 9%positive
           (mkCachedImage (Some 1%positive) true 7) 1%positive 2%positive blue512 red512);
    reflexivity.
Defined.

(** X17. A write at the storage level for a key that is not resident makes
    the caller's raster itself the resident raster: the entry points to the
    address the caller passed, no copy is made, and the entry is dirty. A
    read of the key taken next returns a copy with the pixels of that
    raster, and sets the entry's [lastUse] to the second reading of the
    clock. *)
Theorem storage_write_then_read (env : Env) (w : World) (l : imageLoc) (c : chan)
    (b : ptr) (src : image.RGBA) :
  S_ l = imageCacheStorageLevel ->
  imageCache w !! l = None ->
  heap w !! b = Some src ->
  closed (chan_state c w) = false ->
  exists w' q copy,
    (onTask env (mkImageTask l (Some b) None) ;; onTask env (read_task l c)) w = Ok tt w' /\
    sent (chan_state c w') = sent (chan_state c w) ++ [q] /\
    heap w !! q = None /\
    heap w' = <[q := copy]> (heap w) /\
    image.RGBA_Rect copy = image.RGBA_Rect src /\
    (forall x y, image.RGBAAt copy x y = image.RGBAAt src x y) /\
    imageCache w' =
      <[l := mkCachedImage (Some b) false (clock env (Datatypes.S (ticks w)))]> (imageCache w) /\
    fs w' = fs w /\ iotasks w' = iotasks w.
Proof.
  intros HS He Hsrc Hc.
  set (w1 := with_imageCache
               (<[l := mkCachedImage (Some b) false (clock env (ticks w))]> (imageCache w))
               (with_ticks (Datatypes.S (ticks w)) w)).
  assert (Hrun1 : onTask env (mkImageTask l (Some b) None) w = Ok tt w1).
  { unfold onTask, write. mproj. rewrite HS, Z.eqb_refl.
    munfold. mproj. rewrite He. reflexivity. }
  destruct (readExact_hit env w1 l c (mkCachedImage (Some b) false (clock env (ticks w)))
              b src HS)
    as (w2 & Hrun2 & Hh2 & Hc2 & Hm2 & _ & Hfs2 & _ & _ & Hio2 & _);
    try (subst w1; mproj; first [apply lookup_insert_eq | reflexivity | assumption]).
  exists w2, (fresh (dom (heap w))),
    (image.mkRGBA (fun x y => image.RGBAAt src x y) (image.RGBA_Rect src)).
  split.
  { rewrite (bind_Ok _ _ _ _ _ Hrun1). exact Hrun2. }
  split.
  { unfold chan_state. rewrite Hc2, lookup_insert_eq. reflexivity. }
  split; [apply not_elem_of_dom, is_fresh|].
  split; [exact Hh2|]. split; [reflexivity|]. split; [apply copy_pixels|].
  split.
  { rewrite Hm2. subst w1. mproj. rewrite insert_insert_eq. reflexivity. }
  split; [exact Hfs2|exact Hio2].
Qed.

Lemma storage_write_then_read_witness :
  exists w' q copy,
    (onTask env0 (mkImageTask loc500 (Some 1%positive) None) ;;
     onTask env0 (read_task loc500 9%positive)) world_red = Ok tt w' /\
    sent (chan_state 9%positive w') = sent (chan_state 9%positive world_red) ++ [q] /\
    heap world_red !! q = None /\
    heap w' = <[q := copy]> (heap world_red) /\
    image.RGBA_Rect copy = image.RGBA_Rect red16 /\
    (forall x y, image.RGBAAt copy x y = image.RGBAAt red16 x y) /\
    imageCache w' =
      <[loc500 := mkCachedImage (Some 1%positive) false
                    (clock env0 (Datatypes.S (ticks world_red)))]> (imageCache world_red) /\
    fs w' = fs world_red /\ iotasks w' = iotasks world_red.
Proof.
  apply (storage_write_then_read env0 world_red loc500 9%positive 1%positive red16);
    reflexivity.
Defined.

(** ** A stamp on a resident tile *)

(** X18. A write at zoom 0 whose storage tile is resident with a 512x512
    raster is done in place and in memory: the pixels of the key's 16x16
    cell of the resident raster become those of the stamp, every other
    pixel is what it was, the entry is marked as not synced and keeps its
    raster's address, and neither the clock nor the file system nor the I/O
    queue is used. *)
Theorem stamp_on_resident_tile (env : Env) (w : World) (l : imageLoc) (rt : option chan)
    (e : cachedImage) (a b : ptr) (tile r : image.RGBA) :
  S_ l = 0 ->
  let rl := storageLoc l (X_ l / 32) (Z_ l / 32) in
  let ix := X_ l mod 32 in
  let iz := Z_ l mod 32 in
  let cell := image.Rect (ix * 16) (iz * 16) (ix * 16 + 16) (iz * 16 + 16) in
  imageCache w !! rl = Some e ->
  img e = Some a ->
  heap w !! a = Some tile ->
  heap w !! b = Some r ->
  image.RGBA_Rect tile = image.Rect 0 0 512 512 ->
  image.RGBA_Rect r = image.Rect 0 0 16 16 ->
  exists w' tile',
    onTask env (mkImageTask l (Some b) rt) w = Ok tt w' /\
    heap w' = <[a := tile']> (heap w) /\
    image.RGBA_Rect tile' = image.Rect 0 0 512 512 /\
    (forall x y,
       image.RGBAAt tile' x y =
         if image.In (image.mkPoint x y) cell
         then image.RGBAAt r (x - ix * 16) (y - iz * 16)
         else image.RGBAAt tile x y) /\
    imageCache w' = <[rl := set_syncedToDisk e false]> (imageCache w) /\
    fs w' = fs w /\ ticks w' = ticks w /\ iotasks w' = iotasks w /\
    chans w' = chans w.
Proof.
  intros HS rl ix iz cell Hm Ha Htile Hr Hrt Hrr.
  assert (Hix : 0 <= ix < 32) by (apply Z.mod_pos_bound; lia).
  assert (Hiz : 0 <= iz < 32) by (apply Z.mod_pos_bound; lia).
  destruct (stamp_pixels tile r ix iz Hix Hiz Hrt Hrr) as [Hrect Hpix].
  fold cell in Hrect, Hpix.
  exists (with_imageCache (<[rl := set_syncedToDisk e false]> (imageCache w))
            (with_heap (<[a := draw.Draw tile cell r image.ZP draw.Src]> (heap w)) w)),
         (draw.Draw tile cell r image.ZP draw.Src).
  split.
  { unfold onTask, write. mproj. rewrite HS.
    change (0 =? imageCacheStorageLevel) with false.
    change (negb (0 =? 0)) with false. cbv beta iota.
    rewrite icAT_div, icIN_mod. fold ix iz rl.
    rewrite !mul16_small, !add16_small by assumption. fold cell.
    rewrite (bind_Ok _ _ _ _ _ (gets_Ok _ w)). rewrite Hm.
    munfold. mproj. rewrite Ha, Htile, Hr. reflexivity. }
  mproj. split; [reflexivity|]. split; [exact Hrect|]. split; [exact Hpix|].
  repeat split; reflexivity.
Qed.

Lemma stamp_on_resident_tile_witness :
  let cell := image.Rect (35 mod 32 * 16) (4 mod 32 * 16)
                         (35 mod 32 * 16 + 16) (4 mod 32 * 16 + 16) in
  exists w' tile',
    onTask env0 (mkImageTask (mkImageLoc "w" "d" "l" 0 35 4) (Some 1%positive) None)
      world_blue_tile = Ok tt w' /\
    heap w' = <[2%positive := tile']> (heap world_blue_tile) /\
    image.RGBA_Rect tile' = image.Rect 0 0 512 512 /\
    (forall x y,
       image.RGBAAt tile' x y =
         if image.In (image.mkPoint x y) cell
         then image.RGBAAt red16 (x - 35 mod 32 * 16) (y - 4 mod 32 * 16)
         else image.RGBAAt blue512 x y) /\
    imageCache w' =
      <[tile_at 1 := set_syncedToDisk (mkCachedImage (Some 2%positive) true 7) false]>
        (imageCache world_blue_tile) /\
    fs w' = fs world_blue_tile /\ ticks w' = ticks world_blue_tile /\
    iotasks w' = iotasks world_blue_tile /\ chans w' = chans world_blue_tile.
Proof.
  apply (stamp_on_resident_tile env0 world_blue_tile (mkImageLoc "w" "d" "l" 0 35 4) None
           (mkCachedImage (Some 2%positive) true 7) 2%positive 1%positive blue512 red16);
    reflexivity.
Defined.

(** ** Reads above the storage level when no tile is known *)





(** ** Distinct keys, distinct files *)

Lemma append_cancel_l (p a b : string) : p +:+ a = p +:+ b -> a = b.
Proof.
  induction p as [|c p IH]; [rewrite !append_nil_l; trivial|].
  rewrite !append_cons. intros H. injection H as H. apply IH, H.
Qed.

(** Two strings that agree up to and including the first occurrence of a
    character agree before it and after it. *)
Lemma split_at_char (c : ascii) (a1 a2 r1 r2 : string) :
  without_char c a1 = true -> without_char c a2 = true ->
  a1 +:+ String c r1 = a2 +:+ String c r2 -> a1 = a2 /\ r1 = r2.
Proof.
  revert a2. induction a1 as [|x a1 IH]; intros [|y a2] H1 H2 H.
  - rewrite !append_nil_l in H. injection H as ->. split; reflexivity.
  - rewrite append_nil_l, append_cons in H. injection H as <- _.
    cbn in H2. rewrite Ascii.eqb_refl in H2. discriminate.
  - rewrite append_nil_l, append_cons in H. injection H as -> _.
    cbn in H1. rewrite Ascii.eqb_refl in H1. discriminate.
  - rewrite !append_cons in H. injection H as -> H.
    cbn in H1, H2. apply andb_true_iff in H1 as [_ H1]. apply andb_true_iff in H2 as [_ H2].
    destruct (IH a2 H1 H2 H) as [-> ->]. split; reflexivity.
Qed.

Lemma no_slash_without (s : string) : path.no_slash s = without_char path.slash s.
Proof. induction s as [|a s IH]; [reflexivity|]. cbn. rewrite IH. reflexivity. Qed.

Lemma all_digits_without (c : ascii) (s : string) :
  strconv.digit_value c = None -> strconv.all_digits s = true -> without_char c s = true.
Proof.
  intros Hc. induction s as [|a s IH]; [reflexivity|]. cbn [strconv.all_digits without_char].
  intros H. apply andb_true_iff in H as [Ha Hs]. apply bool_decide_eq_true in Ha.
  rewrite IH by exact Hs. rewrite andb_true_r.
  destruct (Ascii.eqb a c) eqn:E; [|reflexivity].
  apply Ascii.eqb_eq in E. subst a. rewrite Hc in Ha. destruct Ha as [? Ha]. discriminate.
Qed.

(** A numeral contains neither ['x'] nor ['.']. *)
Lemma FormatInt_without (c : ascii) (i : Z) :
  strconv.digit_value c = None -> c <> "-"%char ->
  without_char c (strconv.FormatInt i) = true.
Proof.
  intros Hc Hm. unfold strconv.FormatInt. destruct (i <? 0) eqn:E.
  - apply Z.ltb_lt in E.
    destruct (FormatUint_spec (- i)) as (d & ds & Hfmt & Hall & _); [lia|].
    rewrite Hfmt.
    change (negb (Ascii.eqb "-" c) && without_char c (String d ds) = true).
    rewrite (all_digits_without c (String d ds) Hc Hall).
    rewrite andb_true_r. destruct (Ascii.eqb "-" c) eqn:E'; [|reflexivity].
    apply Ascii.eqb_eq in E'. congruence.
  - apply Z.ltb_ge in E.
    destruct (FormatUint_spec i E) as (d & ds & Hfmt & Hall & _).
    rewrite Hfmt. apply all_digits_without; assumption.
Qed.

Lemma FormatInt_inj (i j : Z) : strconv.FormatInt i = strconv.FormatInt j -> i = j.
Proof.
  intros H. pose proof (proj2 (FormatInt_decimal i)) as Hi.
  rewrite H, (proj2 (FormatInt_decimal j)) in Hi. injection Hi as ->. reflexivity.
Qed.

Lemma plain_name_clean (s : string) : plain_name s = true -> path.clean_path s = true.
Proof.
  unfold plain_name. intros H. apply andb_true_iff in H as [Hs He].
  unfold path.clean_path. rewrite split_no_slash by exact Hs.
  cbn [forallb]. rewrite He. reflexivity.
Qed.

(** The file of a key whose prefix and names are clean paths. *)
Lemma file_of_layout (env : Env) (k : imageLoc) :
  path.clean_path (getImageCachePrefix env) = true ->
  path.clean_path (World_ k) = true ->
  path.clean_path (Dimension k) = true ->
  path.clean_path (Layer k) = true ->
  file_of env k =
    getImageCachePrefix env +:+
    String path.slash (World_ k +:+
    String path.slash (Dimension k +:+
    String path.slash (Layer k +:+
    String path.slash (strconv.FormatInt (S_ k) +:+
    String path.slash (strconv.FormatInt (X_ k) +:+
    String "x" (strconv.FormatInt (Z_ k) +:+ String "." "png")))))).
Proof.
  intros Hp Hw Hd Hl. unfold file_of, cacheGetFilename.
  destruct (FormatInt_shape (S_ k)) as (cs & ss & Es & Hcs & Hss).
  destruct (FormatInt_shape (X_ k)) as (cx & sx & Ex & Hcx & Hsx).
  destruct (FormatInt_shape (Z_ k)) as (cz & sz & Ez & Hcz & Hsz).
  rewrite Join_dot_clean.
  - cbn [path.join]. rewrite !append_cons, !append_nil_l. reflexivity.
  - discriminate.
  - cbn [forallb]. rewrite Hp, Hw, Hd, Hl. cbn [andb].
    rewrite Es, Ex, Ez. rewrite (clean_path_shape cs ss Hcs Hss). cbn [andb].
    rewrite append_cons. rewrite clean_path_shape; [reflexivity|exact Hcx|].
    rewrite <- append_cons, !no_slash_app, Hsx, Hsz. reflexivity.
Qed.

(** X20. Two different keys whose world, dimension and layer are plain
    names have different files, whatever the clean prefix: the cache never
    stores two tiles in one file. *)
Theorem distinct_keys_distinct_files (env : Env) (k1 k2 : imageLoc) :
  path.clean_path (getImageCachePrefix env) = true ->
  plain_name (World_ k1) = true -> plain_name (Dimension k1) = true ->
  plain_name (Layer k1) = true ->
  plain_name (World_ k2) = true -> plain_name (Dimension k2) = true ->
  plain_name (Layer k2) = true ->
  k1 <> k2 ->
  file_of env k1 <> file_of env k2.
Proof.
  intros Hp Hw1 Hd1 Hl1 Hw2 Hd2 Hl2 Hne Heq. apply Hne.
  rewrite !file_of_layout in Heq by first [assumption | apply plain_name_clean; assumption].
  apply append_cancel_l in Heq. injection Heq as Heq.
  assert (Hslash : forall s, plain_name s = true -> without_char path.slash s = true).
  { intros s H. unfold plain_name in H. apply andb_true_iff in H as [H _].
    rewrite <- no_slash_without. exact H. }
  assert (Hnum : forall i, without_char path.slash (strconv.FormatInt i) = true).
  { intros i. destruct (FormatInt_shape i) as (c & s & -> & _ & H).
    rewrite <- no_slash_without. exact H. }
  apply split_at_char in Heq as [Ew Heq]; [|apply Hslash; assumption..].
  apply split_at_char in Heq as [Ed Heq]; [|apply Hslash; assumption..].
  apply split_at_char in Heq as [El Heq]; [|apply Hslash; assumption..].
  apply split_at_char in Heq as [Es Heq]; [|apply Hnum..].
  apply split_at_char in Heq as [Ex Heq];
    [|apply FormatInt_without; [reflexivity|discriminate]..].
  apply split_at_char in Heq as [Ez _];
    [|apply FormatInt_without; [reflexivity|discriminate]..].
  apply FormatInt_inj in Es, Ex, Ez.
  destruct k1, k2. cbn in *. congruence.
Qed.

Lemma distinct_keys_distinct_files_witness :
  file_of env0 (mkImageLoc "w" "d" "l" 5 1 (-12)) <>
  file_of env0 (mkImageLoc "w" "d" "l" 5 (-1) 12).
Proof.
  apply (distinct_keys_distinct_files env0); try reflexivity. discriminate.
Defined.

Example files_collide_when_names_have_slashes :
  file_of env0 (mkImageLoc "a/b" "c" "l" 5 0 0) = file_of env0 (mkImageLoc "a" "b/c" "l" 5 0 0).
Proof. vm_compute. reflexivity. Qed.

(** ** Invariant I2: resident entries have a raster *)

Lemma never_bind_l {A B} (m : M A) (f : A -> M B) :
  never_returns m -> never_returns (m ≫= f).
Proof.
  intros Hm w b w' H. unfold mbind, M_bind in H.
  destruct (m w) as [a w1|] eqn:E; [|discriminate]. apply (Hm w a w1 E).
Qed.

Lemma never_bind_r {A B} (m : M A) (f : A -> M B) :
  (forall a, never_returns (f a)) -> never_returns (m ≫= f).
Proof.
  intros Hf w b w' H. unfold mbind, M_bind in H.
  destruct (m w) as [a w1|] eqn:E; [|discriminate]. apply (Hf a w1 b w' H).
Qed.

Lemma never_deref_nil : never_returns (deref None).
Proof. intros w a w' H. discriminate H. Qed.

Lemma kr_never {A} (m : M A) : never_returns m -> keeps_rasters m.
Proof. intros Hm w a w' H. destruct (Hm w a w' H). Qed.

Lemma kr_bind {A B} (m : M A) (f : A -> M B) :
  keeps_rasters m -> (forall a, keeps_rasters (f a)) -> keeps_rasters (m ≫= f).
Proof.
  intros Hm Hf w b w' Hrun HI. unfold mbind, M_bind in Hrun.
  destruct (m w) as [a w1|] eqn:E; [|discriminate].
  apply (Hf a w1 b w' Hrun). apply (Hm w a w1 E HI).
Qed.

Lemma kr_frame {A} (m : M A) :
  (forall w a w', m w = Ok a w' -> imageCache w' = imageCache w) -> keeps_rasters m.
Proof. intros H w a w' Hrun HI. rewrite (H w a w' Hrun). exact HI. Qed.

Lemma kr_ret {A} (a : A) : keeps_rasters (mret a : M A).
Proof. apply kr_frame. intros w b w' H. inversion H; subst; reflexivity. Qed.

Lemma kr_gets {A} (f : World -> A) : keeps_rasters (gets f).
Proof. apply kr_frame. intros w b w' H. inversion H; subst; reflexivity. Qed.

Lemma kr_modify (f : World -> World) :
  (forall w, imageCache (f w) = imageCache w) -> keeps_rasters (modify f).
Proof. intros Hf. apply kr_frame. intros w b w' H. inversion H; subst; apply Hf. Qed.

Lemma kr_Now (env : Env) : keeps_rasters (Now env).
Proof. apply kr_frame. intros w b w' H. inversion H; subst; reflexivity. Qed.

Lemma kr_deref (p : option ptr) : keeps_rasters (deref p).
Proof.
  apply kr_frame. intros w b w' H. unfold deref in H.
  destruct p; [|discriminate]. destruct (heap w !! p); [|discriminate].
  inversion H; subst; reflexivity.
Qed.

Lemma kr_new (r : image.RGBA) : keeps_rasters (new r).
Proof. apply kr_frame. intros w b w' H. inversion H; subst; reflexivity. Qed.

Lemma kr_send (c : chan) (v : ptr) : keeps_rasters (send c v).
Proof.
  apply kr_frame. intros w b w' H. unfold send in H.
  destruct (closed (chan_state c w)); [discriminate|]. inversion H; subst; reflexivity.
Qed.

Lemma kr_close (c : chan) : keeps_rasters (close c).
Proof.
  apply kr_frame. intros w b w' H. unfold close in H.
  destruct (closed (chan_state c w)); [discriminate|]. inversion H; subst; reflexivity.
Qed.

Lemma kr_make_chan : keeps_rasters make_chan.
Proof. apply kr_frame. intros w b w' H. inversion H; subst; reflexivity. Qed.

Lemma kr_sys {A} (op : FS -> FS * A) : keeps_rasters (sys op).
Proof.
  apply kr_frame. intros w b w' H. unfold sys in H.
  destruct (op (fs w)). inversion H; subst; reflexivity.
Qed.

Lemma kr_panic {A} (msg : string) : keeps_rasters (panic msg : M A).
Proof. intros w a w' H. discriminate H. Qed.

Lemma kr_forM_ {A} (l : list A) (f : A -> M unit) :
  (forall a, keeps_rasters (f a)) -> keeps_rasters (forM_ l f).
Proof.
  intros Hf. induction l as [|a l IH]; [apply kr_ret|].
  change (forM_ (a :: l) f) with (f a ≫= (fun _ => forM_ l f)).
  apply kr_bind; [apply Hf|intros _; exact IH].
Qed.

Lemma kr_setCache (k : imageLoc) (i : cachedImage) :
  img i <> None -> keeps_rasters (setCache k i).
Proof.
  intros Hi w a w' H HI. inversion H; subst. cbn [imageCache with_imageCache].
  apply map_Forall_insert_2; assumption.
Qed.

Lemma kr_evict (env : Env) : keeps_rasters (evict env).
Proof.
  unfold evict. apply kr_bind; [apply kr_gets|]. intros m.
  destruct (imageCacheMaxCache <? Z.of_nat (size m)); [|apply kr_ret].
  apply kr_bind; [apply kr_Now|]. intros t.
  destruct (foldl _ _ _) as [t' k].
  intros w a w' H HI. inversion H; subst. cbn [imageCache with_imageCache].
  apply map_Forall_delete. exact HI.
Qed.

(** Finds the dereference of [nil] that stops a piece of code. *)
Ltac never_tac :=
  first
    [ apply never_deref_nil
    | apply never_bind_l; solve [never_tac]
    | apply never_bind_r; intros ?; solve [never_tac]
    | progress unfold drawDraw, copyImage; solve [never_tac] ].

Ltac kr_base extra :=
  repeat first
    [ extra
    | apply kr_ret | apply kr_gets | apply kr_Now | apply kr_deref
    | apply kr_new | apply kr_send | apply kr_close | apply kr_sys
    | apply kr_panic | apply kr_evict | apply kr_make_chan
    | apply kr_setCache; cbn; congruence
    | apply kr_modify; intros; reflexivity
    | apply kr_forM_; intros ?
    | solve [apply kr_never; cbn [img set_img set_lastUse set_syncedToDisk]; never_tac]
    | apply kr_bind; [|intros ?]
    | match goal with
      | |- keeps_rasters (match ?x with _ => _ end) => destruct x
      | |- keeps_rasters (let '(_, _) := ?x in _) => destruct x
      end ].

Ltac kr := kr_base fail.

Lemma kr_cacheLoad (env : Env) world dim render s x z :
  keeps_rasters (cacheLoad env world dim render s x z).
Proof. unfold cacheLoad. kr. Qed.

Lemma kr_cacheSave (env : Env) im world dim render s x z :
  keeps_rasters (cacheSave env im world dim render s x z).
Proof. unfold cacheSave. kr. Qed.

Lemma kr_drawDraw dst r src sp op : keeps_rasters (drawDraw dst r src sp op).
Proof. unfold drawDraw. kr. Qed.

Lemma kr_copyImage im : keeps_rasters (copyImage im).
Proof. unfold copyImage. kr. Qed.

Lemma kr_NewRGBA r : keeps_rasters (NewRGBA r).
Proof. unfold NewRGBA. kr. Qed.

Lemma kr_powarr_at i : keeps_rasters (powarr_at i).
Proof. unfold powarr_at. kr. Qed.

Ltac kr_code :=
  kr_base ltac:(first [ apply kr_cacheLoad | apply kr_cacheSave
                      | apply kr_drawDraw | apply kr_copyImage
                      | apply kr_NewRGBA | apply kr_powarr_at ]).

(** The same, on code that handles entries and rasters that may be [nil]:
    the cases are told apart first. *)
Ltac kr_cases :=
  kr_base ltac:(first [ apply kr_cacheLoad | apply kr_cacheSave
                      | apply kr_NewRGBA | apply kr_powarr_at
                      | match goal with
                        | i : cachedImage |- _ => destruct i as [[?|] ? ?]
                        | o : option ptr |- _ => destruct o
                        end
                      | apply kr_drawDraw | apply kr_copyImage ]).

Lemma kr_readZoomOutTile (env : Env) p out bx bz xz :
  keeps_rasters (readZoomOutTile env p out bx bz xz).
Proof. unfold readZoomOutTile. kr_cases. Qed.

Lemma kr_onTask (env : Env) (p : imageTask) : keeps_rasters (onTask env p).
Proof.
  unfold onTask. destruct (task_img p) eqn:Ep; [|destruct (ret p) as [r|]].
  - unfold write. kr_cases.
  - destruct (S_ (loc p) =? imageCacheStorageLevel).
    + unfold readExact. kr_cases.
    + destruct (S_ (loc p) <? imageCacheStorageLevel).
      * unfold readZoomIn. kr_cases.
      * unfold readZoomOut.
        kr_base ltac:(first [ apply kr_readZoomOutTile | apply kr_NewRGBA
                            | apply kr_powarr_at ]).
  - apply kr_ret.
Qed.

Lemma kr_onReturn (p : imageTask) : keeps_rasters (onReturn p).
Proof. unfold onReturn. kr. Qed.

Lemma kr_onFlushTick (env : Env) : keeps_rasters (onFlushTick env).
Proof.
  unfold onFlushTick. apply kr_bind; [apply kr_gets|]. intros m.
  apply kr_forM_. intros [k v]. unfold flushEntry. kr_code.
Qed.

Lemma kr_imageCacheWorker (env : Env) : keeps_rasters (imageCacheWorker env).
Proof. unfold imageCacheWorker. kr_code. Qed.

Lemma kr_actorTakesTask (env : Env) : keeps_rasters (actorTakesTask env).
Proof. unfold actorTakesTask. kr_base ltac:(apply kr_onTask). Qed.

Lemma kr_actorTakesReturn : keeps_rasters actorTakesReturn.
Proof. unfold actorTakesReturn. kr_base ltac:(apply kr_onReturn). Qed.

Lemma kr_imageCacheGetBlockingLoc_send (l : imageLoc) :
  keeps_rasters (imageCacheGetBlockingLoc_send l).
Proof. unfold imageCacheGetBlockingLoc_send. kr. Qed.

Lemma kr_imageCacheSave im world dim render s x z :
  keeps_rasters (imageCacheSave im world dim render s x z).
Proof. unfold imageCacheSave. kr. Qed.

Lemma step_keeps_rasters (env : Env) (w w' : World) :
  step env w w' -> rasters_set (imageCache w) -> rasters_set (imageCache w').
Proof.
  intros Hstep. destruct Hstep as [l w c w' H|im wd d r s x z w w' H|r w a w' H
                                  |w w' H|w w' H|w w' H|w w' H].
  - apply (kr_imageCacheGetBlockingLoc_send l w c w' H).
  - apply (kr_imageCacheSave im wd d r s x z w tt w' H).
  - apply (kr_new r w a w' H).
  - apply (kr_actorTakesTask env w tt w' H).
  - apply (kr_actorTakesReturn w tt w' H).
  - apply (kr_onFlushTick env w tt w' H).
  - apply (kr_imageCacheWorker env w tt w' H).
Qed.

(** X22. In every state that the system reaches from an empty resident
    map, each resident entry has a raster: a load that returns [nil]
    without an error stops the actor at the draw that follows, so no entry
    with a [nil] raster is ever seen by a later request, by the flush tick
    or by the shutdown. The write requests of the shutdown therefore all
    carry a raster, which is what makes the worker save them instead of
    taking them for reads. *)
Theorem resident_entries_have_rasters (env : Env) (w0 w : World) :
  imageCache w0 = ∅ ->
  rtc (step env) w0 w ->
  (forall k e, imageCache w !! k = Some e -> img e <> None) /\
  (forall ts w', onDone env w = Ok tt w' -> iotasks w' = iotasks w ++ ts ->
     forall t, t ∈ ts -> task_img t <> None).
Proof.
  intros H0 Hrtc.
  assert (HI : rasters_set (imageCache w)).
  { assert (HI0 : rasters_set (imageCache w0)) by (rewrite H0; apply map_Forall_empty).
    clear H0. induction Hrtc as [|w1 w2 w3 Hstep _ IH]; [exact HI0|].
    apply IH, (step_keeps_rasters env w1 w2 Hstep HI0). }
  split; [exact HI|].
  intros ts w' Hdone Hts t Hin.
  unfold onDone in Hdone. rewrite (bind_Ok _ _ _ _ _ (gets_Ok _ w)) in Hdone.
  rewrite onDone_loop in Hdone. injection Hdone as <-. cbn [iotasks with_iotasks] in Hts.
  apply app_inv_head in Hts. subst ts.
  unfold dirty_tasks in Hin. apply list_elem_of_fmap in Hin as ([k v] & -> & Hin).
  apply list_elem_of_filter in Hin as [_ Hin]. apply (range_order_elem env) in Hin.
  cbn [task_img snd]. apply (HI k v Hin).
Qed.

Lemma resident_entries_have_rasters_witness :
  (forall k e, imageCache world_written !! k = Some e -> img e <> None) /\
  (forall ts w', onDone env0 world_written = Ok tt w' ->
     iotasks w' = iotasks world_written ++ ts ->
     forall t, t ∈ ts -> task_img t <> None).
Proof.
  apply (resident_entries_have_rasters env0 world_red world_written).
  - reflexivity.
  - exact world_written_reachable.
Defined.

(** ** Reads above the storage level when every tile is resident *)

(** Drawing a raster of side [s] with [draw.Src] at [(x0, y0)] of a raster
    of side [n] replaces exactly the pixels of that square. *)
Lemma blit_pixels (dst src : image.RGBA) (n x0 y0 s : Z) :
  0 < s -> 0 <= x0 -> 0 <= y0 -> x0 + s <= n -> y0 + s <= n ->
  image.RGBA_Rect dst = image.Rect 0 0 n n ->
  image.RGBA_Rect src = image.Rect 0 0 s s ->
  let rect := image.Rect x0 y0 (x0 + s) (y0 + s) in
  let d' := draw.Draw dst rect src image.ZP draw.Src in
  image.RGBA_Rect d' = image.Rect 0 0 n n /\
  forall x y,
    image.RGBAAt d' x y =
      if image.In (image.mkPoint x y) rect
      then image.RGBAAt src (x - x0) (y - y0)
      else image.RGBAAt dst x y.
Proof.
  intros Hs Hx0 Hy0 Hx1 Hy1 Hd Hr rect d'.
  subst rect d'. rewrite Rect_ordered by lia.
  unfold draw.Draw, draw.clip. rewrite Hd, Hr.
  rewrite !Rect_ordered by lia.
  rewrite (Intersect_inside _ (image.mkRectangle (image.mkPoint 0 0) (image.mkPoint n n)))
    by (unfold image.Empty; cbn [image.X image.Y image.Min image.Max]; lia).
  rewrite Intersect_inside
    by (unfold image.Empty, image.Add, image.PtSub, image.PtAdd, image.ZP;
        cbn [image.X image.Y image.Min image.Max]; lia).
  cbn [image.X image.Y image.Min image.Max image.ZP].
  assert (HE : image.Empty
            {| image.Min := {| image.X := x0; image.Y := y0 |};
               image.Max := {| image.X := x0 + s; image.Y := y0 + s |} |} = false)
    by (unfold image.Empty; cbn [image.X image.Y image.Min image.Max]; lia).
  rewrite HE. cbn [image.RGBA_Rect]. split; [reflexivity|].
  intros x y. unfold image.RGBAAt at 1. cbn [image.RGBA_Rect image.Pix draw.compose].
  replace (x - x0 + (0 + (x0 - x0))) with (x - x0) by lia.
  replace (y - y0 + (0 + (y0 - y0))) with (y - y0) by lia.
  set (cr := image.RGBAAt src (x - x0) (y - y0)).
  unfold image.RGBAAt. rewrite Hd, Rect_ordered by lia.
  destruct (image.In _ {| image.Min := {| image.X := x0 |} |}) eqn:E1;
    destruct (image.In _ {| image.Min := {| image.X := 0 |} |}) eqn:E2;
    try reflexivity.
  exfalso. unfold image.In in E1, E2.
  cbn [image.X image.Y image.Min image.Max] in E1, E2. lia.
Qed.

Lemma In_zoom_out_block (x z px py : Z) :
  image.In (image.mkPoint px py) (zoom_out_block x z) = true <->
  x = px / 512 /\ z = py / 512.
Proof.
  unfold zoom_out_block. rewrite Rect_ordered by lia.
  unfold image.In. cbn [image.X image.Y image.Min image.Max].
  rewrite !andb_true_iff, !Z.leb_le, !Z.ltb_lt.
  pose proof (Z.div_mod px 512 ltac:(lia)). pose proof (Z.mod_pos_bound px 512 ltac:(lia)).
  pose proof (Z.div_mod py 512 ltac:(lia)). pose proof (Z.mod_pos_bound py 512 ltac:(lia)).
  split.
  - intros [[[? ?] ?] ?]. split; nia.
  - intros [-> ->]. lia.
Qed.

(** The raster composed of tiles: each pixel whose tile has been drawn is
    the pixel of that tile. *)
Lemma zoom_out_compose_pixels (tile_of : Z -> Z -> image.RGBA) (n : Z) (out : image.RGBA)
    (tiles : list (Z * Z)) :
  image.RGBA_Rect out = image.Rect 0 0 n n ->
  (forall x z, (x, z) ∈ tiles ->
     0 <= x /\ 0 <= z /\ x * 512 + 512 <= n /\ z * 512 + 512 <= n /\
     image.RGBA_Rect (tile_of x z) = image.Rect 0 0 512 512) ->
  image.RGBA_Rect (zoom_out_compose tile_of out tiles) = image.Rect 0 0 n n /\
  forall px py, (px / 512, py / 512) ∈ tiles ->
    image.RGBAAt (zoom_out_compose tile_of out tiles) px py =
      image.RGBAAt (tile_of (px / 512) (py / 512)) (px mod 512) (py mod 512).
Proof.
  intros Hout. induction tiles as [|[x z] tiles IH] using rev_ind; intros Htiles.
  - split; [exact Hout|]. intros px py H. apply elem_of_nil in H. contradiction.
  - destruct IH as [IHrect IHpix].
    { intros x' z' Hin. apply Htiles, elem_of_app. left. exact Hin. }
    destruct (Htiles x z) as (Hx & Hz & Hxn & Hzn & Hrect).
    { apply elem_of_app. right. apply list_elem_of_singleton. reflexivity. }
    unfold zoom_out_compose in *. rewrite foldl_app. cbn [foldl].
    destruct (blit_pixels (foldl (fun o '(x, z) =>
                 draw.Draw o (zoom_out_block x z) (tile_of x z) image.ZP draw.Src) out tiles)
                (tile_of x z) n (x * 512) (z * 512) 512)
      as [Hr Hp]; try lia; try assumption.
    fold (zoom_out_block x z) in Hr, Hp.
    split; [exact Hr|].
    intros px py Hin. rewrite Hp.
    destruct (image.In (image.mkPoint px py) (zoom_out_block x z)) eqn:E.
    + apply In_zoom_out_block in E as [-> ->]. f_equal; rewrite Z.mod_eq by lia; lia.
    + apply IHpix. apply elem_of_app in Hin as [Hin|Hin]; [exact Hin|].
      apply list_elem_of_singleton in Hin. injection Hin as Hx' Hz'.
      assert (image.In (image.mkPoint px py) (zoom_out_block x z) = true)
        by (apply In_zoom_out_block; split; congruence).
      congruence.
Qed.

Lemma with_heap_same (w : World) (q : ptr) (o : image.RGBA) :
  heap w !! q = Some o -> with_heap (<[q := o]> (heap w)) w = w.
Proof. intros H. destruct w. cbn in *. rewrite insert_id by exact H. reflexivity. Qed.

Lemma zoom_out_loop_resident (env : Env) (p : imageTask) (q : ptr) (bx bz : Z)
    (tile_of : Z -> Z -> image.RGBA) (tiles : list (Z * Z)) :
  forall (w : World) (o : image.RGBA),
    heap w !! q = Some o ->
    (forall x z, (x, z) ∈ tiles ->
       0 <= x < 16 /\ 0 <= z < 16 /\
       exists e a,
         imageCache w !! storageLoc (loc p) (GoInt.add bx x) (GoInt.add bz z) = Some e /\
         img e = Some a /\ a <> q /\ heap w !! a = Some (tile_of x z)) ->
    forM_ tiles (readZoomOutTile env p (Some q) bx bz) w =
      Ok tt (with_heap (<[q := zoom_out_compose tile_of o tiles]> (heap w)) w).
Proof.
  induction tiles as [|[x z] tiles IH]; intros w o Hq Hres.
  - cbn [forM_ foldr zoom_out_compose foldl]. rewrite with_heap_same by exact Hq. reflexivity.
  - change (forM_ ((x, z) :: tiles) (readZoomOutTile env p (Some q) bx bz))
      with (readZoomOutTile env p (Some q) bx bz (x, z) ≫=
              (fun _ => forM_ tiles (readZoomOutTile env p (Some q) bx bz))).
    destruct (Hres x z) as (Hx & Hz & e & a & Hm & Ha & Hne & Hh); [left|].
    assert (Hstep : readZoomOutTile env p (Some q) bx bz (x, z) w =
              Ok tt (with_heap (<[q := draw.Draw o (zoom_out_block x z) (tile_of x z)
                                       image.ZP draw.Src]> (heap w)) w)).
    { unfold readZoomOutTile.
      rewrite (bind_Ok _ _ _ _ _ (gets_Ok _ w)). rewrite Hm.
      change (nth (Z.to_nat imageCacheStorageLevel) powarr 0) with 32.
      change (GoInt.mul 32 16) with 512.
      assert (Hmul : forall i, 0 <= i < 16 -> GoInt.mul i 512 = i * 512)
        by (intros i Hi; apply GoInt_wrap_id; unfold GoInt.in_range; lia).
      assert (Hadd : forall i, 0 <= i < 16 -> GoInt.add (i * 512) 512 = i * 512 + 512)
        by (intros i Hi; apply GoInt_wrap_id; unfold GoInt.in_range; lia).
      rewrite !Hmul, !Hadd by assumption. fold (zoom_out_block x z).
      munfold. mproj. rewrite Hq, Ha, Hh. reflexivity. }
    rewrite (bind_Ok _ _ _ _ _ Hstep).
    rewrite (IH _ (draw.Draw o (zoom_out_block x z) (tile_of x z) image.ZP draw.Src)).
    + mproj. rewrite insert_insert_eq. reflexivity.
    + mproj. apply lookup_insert_eq.
    + intros x' z' Hin. destruct (Hres x' z') as (Hx' & Hz' & e' & a' & Hm' & Ha' & Hne' & Hh');
        [right; exact Hin|].
      split; [exact Hx'|]. split; [exact Hz'|]. exists e', a'. mproj.
      rewrite lookup_insert_ne by (intros E; apply Hne'; symmetry; exact E).
      repeat split; assumption.
Qed.

Lemma elem_of_zoom_out_tiles (rs x z : Z) :
  (x, z) ∈ zoom_out_tiles rs <-> 0 <= x < rs /\ 0 <= z < rs.
Proof.
  unfold zoom_out_tiles. rewrite list_elem_of_bind. split.
  - intros (x' & Hin & Hx). apply list_elem_of_bind in Hin as (z' & Hin & Hz).
    apply list_elem_of_singleton in Hin. injection Hin as -> ->.
    apply elem_of_seqZ in Hx, Hz. lia.
  - intros [Hx Hz]. exists x. split; [|apply elem_of_seqZ; lia].
    apply list_elem_of_bind. exists z. split; [|apply elem_of_seqZ; lia].
    apply list_elem_of_singleton. reflexivity.
Qed.

(** X23. A read at a level [S] from 6 to 9 whose [2^(S-5) * 2^(S-5)]
    storage tiles are all resident with 512x512 rasters returns a new
    raster of side [512 * 2^(S-5)] in which the pixel [(px, py)] is the
    pixel [(px mod 512, py mod 512)] of the tile at column [px / 512] and
    row [py / 512]. Nothing is read from disk, and the resident map is left
    as it was: the tiles used do not get a new [lastUse]. *)
Theorem zoom_out_resident_tiles_composed (env : Env) (w : World) (l : imageLoc)
    (c : chan) (tile_of : Z -> Z -> image.RGBA) :
  imageCacheStorageLevel < S_ l <= 9 ->
  let rs := 2 ^ (S_ l - imageCacheStorageLevel) in
  let bx := GoInt.mul (X_ l) (2 ^ S_ l) / 32 in
  let bz := GoInt.mul (Z_ l) (2 ^ S_ l) / 32 in
  (forall x z, 0 <= x < rs -> 0 <= z < rs ->
     exists e a,
       imageCache w !! storageLoc l (GoInt.add bx x) (GoInt.add bz z) = Some e /\
       img e = Some a /\ heap w !! a = Some (tile_of x z) /\
       image.RGBA_Rect (tile_of x z) = image.Rect 0 0 512 512) ->
  closed (chan_state c w) = false ->
  exists w' q out,
    onTask env (read_task l c) w = Ok tt w' /\
    sent (chan_state c w') = sent (chan_state c w) ++ [q] /\
    heap w !! q = None /\
    heap w' = <[q := out]> (heap w) /\
    image.RGBA_Rect out = image.Rect 0 0 (512 * rs) (512 * rs) /\
    (forall px py, 0 <= px < 512 * rs -> 0 <= py < 512 * rs ->
       image.RGBAAt out px py =
         image.RGBAAt (tile_of (px / 512) (py / 512)) (px mod 512) (py mod 512)) /\
    imageCache w' = imageCache w /\ fs w' = fs w /\ ticks w' = ticks w.
Proof.
  intros HS rs bx bz Hres Hc. unfold imageCacheStorageLevel in *.
  set (q := fresh (dom (heap w))).
  assert (Hq : heap w !! q = None) by (apply not_elem_of_dom, is_fresh).
  assert (Hrs : 0 < rs <= 16).
  { unfold rs. split; [apply Z.pow_pos_nonneg; lia|].
    change 16 with (2 ^ 4). apply Z.pow_le_mono_r; lia. }
  assert (Hside : GoInt.mul (GoInt.mul rs 32) 16 = 512 * rs).
  { unfold GoInt.mul. rewrite (GoInt_wrap_id (rs * 32)) by (unfold GoInt.in_range; lia).
    rewrite GoInt_wrap_id by (unfold GoInt.in_range; lia). lia. }
  set (out0 := image.NewRGBA (image.Rect 0 0 (512 * rs) (512 * rs))).
  set (w1 := with_heap (<[q := out0]> (heap w)) w).
  set (out := zoom_out_compose tile_of out0 (zoom_out_tiles rs)).
  destruct (zoom_out_compose_pixels tile_of (512 * rs) out0 (zoom_out_tiles rs))
    as [Hrect Hpix]; [reflexivity| |].
  { intros x z Hin. apply elem_of_zoom_out_tiles in Hin as [Hx Hz].
    destruct (Hres x z Hx Hz) as (e & a & _ & _ & _ & Hr).
    repeat split; try lia. exact Hr. }
  fold out in Hrect, Hpix.
  exists (with_chans (<[c := mkChanState (sent (chan_state c w) ++ [q]) false]> (chans w))
            (with_heap (<[q := out]> (heap w1)) w1)), q, out.
  split.
  { unfold onTask, read_task, readZoomOut, imageCacheStorageLevel. mproj.
    destruct (S_ l =? 5) eqn:E5; [apply Z.eqb_eq in E5; lia|].
    destruct (S_ l <? 5) eqn:El; [apply Z.ltb_lt in El; lia|].
    destruct (9 <? S_ l) eqn:E9; [apply Z.ltb_lt in E9; lia|]. cbv beta iota.
    rewrite (bind_Ok _ _ _ _ _ (powarr_at_pow2 (S_ l) w ltac:(lia))).
    rewrite icAT_div. fold bx bz.
    assert (Hsub : GoInt.sub (S_ l) 5 = S_ l - 5)
      by (apply GoInt_wrap_id; unfold GoInt.in_range; lia).
    rewrite Hsub.
    rewrite (bind_Ok _ _ _ _ _ (powarr_at_pow2 (S_ l - 5) w ltac:(lia))).
    fold rs. change (nth (Z.to_nat 5) powarr 0) with 32. rewrite Hside.
    assert (Hnew : NewRGBA (image.Rect 0 0 (512 * rs) (512 * rs)) w = Ok (Some q) w1)
      by reflexivity.
    rewrite (bind_Ok _ _ _ _ _ Hnew).
    pose proof (zoom_out_loop_resident env (mkImageTask l None (Some c)) q bx bz tile_of
                  (zoom_out_tiles rs) w1 out0) as Hloop.
    cbn [loc] in Hloop. fold out in Hloop.
    fold (zoom_out_tiles rs).
    assert (Hl1 : heap w1 !! q = Some out0) by (subst w1; mproj; apply lookup_insert_eq).
    assert (Hl2 : forall x z, (x, z) ∈ zoom_out_tiles rs ->
              0 <= x < 16 /\ 0 <= z < 16 /\
              exists e a,
                imageCache w1 !! storageLoc l (GoInt.add bx x) (GoInt.add bz z) = Some e /\
                img e = Some a /\ a <> q /\ heap w1 !! a = Some (tile_of x z)).
    { intros x z Hin. apply elem_of_zoom_out_tiles in Hin as [Hx Hz].
      destruct (Hres x z Hx Hz) as (e & a & Hm & Ha & Hh & _).
      split; [lia|]. split; [lia|]. exists e, a. subst w1. mproj.
      assert (Hne : a <> q) by (intros E; rewrite E, Hq in Hh; discriminate).
      rewrite lookup_insert_ne by (intros E; apply Hne; symmetry; exact E).
      repeat split; assumption. }
    rewrite (bind_Ok _ _ _ _ _ (Hloop Hl1 Hl2)).
    unfold send, chan_state in *. subst w1. mproj. rewrite Hc. reflexivity. }
  subst w1. mproj. unfold chan_state. mproj. rewrite lookup_insert_eq, insert_insert_eq.
  split; [reflexivity|]. split; [exact Hq|]. split; [reflexivity|].
  split; [exact Hrect|]. split; [|repeat split; reflexivity].
  intros px py Hpx Hpy. apply Hpix, elem_of_zoom_out_tiles.
  split; split; first [apply Z.div_pos; lia | apply Z.div_lt_upper_bound; lia].
Qed.

Lemma zoom_out_resident_tiles_composed_witness :
  let l := mkImageLoc "w" "d" "l" 6 0 0 in
  exists w' q out,
    onTask env0 (read_task l 9%positive) world_quad = Ok tt w' /\
    sent (chan_state 9%positive w') = sent (chan_state 9%positive world_quad) ++ [q] /\
    heap world_quad !! q = None /\
    heap w' = <[q := out]> (heap world_quad) /\
    image.RGBA_Rect out = image.Rect 0 0 (512 * 2) (512 * 2) /\
    (forall px py, 0 <= px < 512 * 2 -> 0 <= py < 512 * 2 ->
       image.RGBAAt out px py =
         image.RGBAAt (quad_tile (px / 512) (py / 512)) (px mod 512) (py mod 512)) /\
    imageCache w' = imageCache world_quad /\ fs w' = fs world_quad /\
    ticks w' = ticks world_quad.
Proof.
  apply (zoom_out_resident_tiles_composed env0 world_quad (mkImageLoc "w" "d" "l" 6 0 0)
           9%positive quad_tile).
  - unfold imageCacheStorageLevel. simpl. lia.
  - intros x z Hx Hz. unfold imageCacheStorageLevel in Hx, Hz. cbn [S_] in Hx, Hz.
    change (2 ^ (6 - 5)) with 2 in Hx, Hz.
    assert (Ex : x = 0 \/ x = 1) by lia. assert (Ez : z = 0 \/ z = 1) by lia.
    destruct Ex as [-> | ->], Ez as [-> | ->];
      eexists _, _; repeat split; reflexivity.
  - reflexivity.
Defined.

(** ** Tiles read through from disk *)

(** X24. A zoom-in read at level [S < 5] of a tile whose storage tile is not
    resident but is on disk as a 512x512 image loads that file in the actor
    and makes the tile resident, synced, with the time read as [lastUse]
    and the decoded raster at a new address; the client gets another new
    raster of side [16 * 2^S], the region of the decoded tile that starts
    at [(ox, oy)]. (The cache is not full.) *)
Theorem zoom_in_loads_tile_from_disk (env : Env) (w : World) (l : imageLoc) (c : chan)
    (r : image.RGBA) :
  0 <= S_ l < imageCacheStorageLevel ->
  GoInt.in_range (X_ l * 2 ^ S_ l) ->
  GoInt.in_range (Z_ l * 2 ^ S_ l) ->
  let ax := X_ l * 2 ^ S_ l in
  let az := Z_ l * 2 ^ S_ l in
  let rl := storageLoc l (ax / 32) (az / 32) in
  let ox := ax mod 32 * 16 in
  let oy := az mod 32 * 16 in
  let side := 2 ^ S_ l * 16 in
  imageCache w !! rl = None ->
  files (fs w) !! file_of env rl = Some (PNG r) ->
  image.RGBA_Rect r = image.Rect 0 0 512 512 ->
  (forall x y, valid_color (image.Pix (decoded env r) x y)) ->
  Z.of_nat (size (imageCache w)) <= imageCacheMaxCache ->
  closed (chan_state c w) = false ->
  exists w' a q out,
    onTask env (read_task l c) w = Ok tt w' /\
    sent (chan_state c w') = sent (chan_state c w) ++ [q] /\
    heap w !! a = None /\ heap w !! q = None /\ a <> q /\
    heap w' = <[q := out]> (<[a := decoded env r]> (heap w)) /\
    image.RGBA_Rect out = image.Rect 0 0 side side /\
    (forall x y, 0 <= x < side -> 0 <= y < side ->
       image.RGBAAt out x y = image.RGBAAt (decoded env r) (ox + x) (oy + y)) /\
    imageCache w' =
      <[rl := mkCachedImage (Some a) true (clock env (ticks w))]> (imageCache w) /\
    files (fs w') = files (fs w) /\
    calls (fs w') = calls (fs w) ++ [SysOpen (file_of env rl); SysClose (file_of env rl)].
Proof.
  intros HS HX HZ ax az rl ox oy side Hm Hf Hrect Hvalid Hsz Hc.
  unfold imageCacheStorageLevel in HS.
  set (pw := 2 ^ S_ l) in *.
  assert (Hpw : 0 < pw) by (apply Z.pow_pos_nonneg; lia).
  assert (H32 : 2 ^ (5 - S_ l) * pw = 32).
  { unfold pw. rewrite <- Z.pow_add_r by lia. replace (5 - S_ l + S_ l) with 5 by lia.
    reflexivity. }
  assert (Hk : 0 < 2 ^ (5 - S_ l)) by (apply Z.pow_pos_nonneg; lia).
  destruct (subtile_offset pw _ (X_ l) Hpw Hk H32) as (Hptx & Hox0 & Hox1).
  destruct (subtile_offset pw _ (Z_ l) Hpw Hk H32) as (Hpty & Hoy0 & Hoy1).
  fold ax ox in Hptx, Hox0, Hox1. fold az oy in Hpty, Hoy0, Hoy1. fold side in Hox1, Hoy1.
  assert (Hside : GoInt.mul pw 16 = side).
  { apply GoInt_wrap_id. unfold GoInt.in_range. nia. }
  assert (Hside0 : 0 < side) by (unfold side; lia).
  set (tile := decoded env r).
  assert (Htile : image.RGBA_Rect tile = image.Rect 0 0 512 512).
  { unfold tile, decoded. cbn [image.RGBA_Rect]. rewrite Hrect. reflexivity. }
  set (a := fresh (dom (heap w))).
  assert (Ha : heap w !! a = None) by (apply not_elem_of_dom, is_fresh).
  set (q := fresh (dom (<[a := tile]> (heap w)))).
  assert (Hq1 : <[a := tile]> (heap w) !! q = None) by (apply not_elem_of_dom, is_fresh).
  assert (Haq : a <> q).
  { intros E. rewrite <- E, lookup_insert_eq in Hq1. discriminate. }
  assert (Hq : heap w !! q = None).
  { rewrite lookup_insert_ne in Hq1 by exact Haq. exact Hq1. }
  destruct (crop_pixels tile side ox oy) as [Hout_rect Hout_pix]; try lia; try assumption.
  set (out := draw.Draw _ _ tile _ _) in Hout_rect, Hout_pix.
  exists (with_chans (<[c := mkChanState (sent (chan_state c w) ++ [q]) false]> (chans w))
           (with_heap (<[q := out]> (<[a := tile]> (heap w)))
             (with_imageCache
                (<[rl := mkCachedImage (Some a) true (clock env (ticks w))]> (imageCache w))
                (with_ticks (Datatypes.S (ticks w))
                   (with_fs (fs_call (SysClose (file_of env rl))
                               (fs_call (SysOpen (file_of env rl)) (fs w))) w))))),
         a, q, out.
  split.
  { unfold onTask, read_task. mproj.
    destruct (S_ l =? imageCacheStorageLevel) eqn:E5;
      [apply Z.eqb_eq in E5; unfold imageCacheStorageLevel in E5; lia|].
    destruct (S_ l <? imageCacheStorageLevel) eqn:El;
      [|apply Z.ltb_ge in El; unfold imageCacheStorageLevel in El; lia].
    unfold readZoomIn. mproj.
    rewrite (bind_Ok _ _ _ _ _ (powarr_at_pow2 (S_ l) w ltac:(lia))). fold pw.
    unfold GoInt.mul at 1 2 3 4. rewrite !(GoInt_wrap_id (_ * pw)) by assumption.
    fold ax az. rewrite icAT_div, icIN_mod. fold rl.
    rewrite Hptx, Hpty, Hside.
    rewrite (bind_Ok _ _ _ _ _ (gets_Ok _ w)). rewrite Hm.
    assert (Hload :
      cacheLoad env (World_ l) (Dimension l) (Layer l) imageCacheStorageLevel
        (ax / 32) (az / 32) w =
      Ok (Some a, None)
         (with_fs (fs_call (SysClose (file_of env rl)) (fs_call (SysOpen (file_of env rl)) (fs w)))
            (with_heap (<[a := tile]> (heap w)) w))).
    { unfold file_of in *. cbn [World_ Dimension Layer S_ X_ Z_ rl storageLoc] in *.
      unfold cacheLoad, Open, Close. munfold. mproj. rewrite Hf. reflexivity. }
    rewrite (bind_Ok _ _ _ _ _ Hload). cbv beta iota.
    munfold. mproj. rewrite evict_not_full by (mproj; exact Hsz).
    mproj. fold q. rewrite lookup_insert_eq. mproj. rewrite lookup_insert_eq. mproj.
    rewrite lookup_insert_ne by (intros E; apply Haq; symmetry; exact E).
    rewrite lookup_insert_eq. mproj.
    unfold send, chan_state in *. mproj. rewrite Hc.
    rewrite insert_insert_eq.
    change (image.RGBA_Rect (image.NewRGBA (image.Rect 0 0 side side)))
      with (image.Rect 0 0 side side).
    reflexivity. }
  mproj. unfold chan_state. mproj. rewrite lookup_insert_eq.
  split; [reflexivity|]. split; [exact Ha|]. split; [exact Hq|]. split; [exact Haq|].
  split; [reflexivity|]. split; [exact Hout_rect|].
  split.
  { intros x y Hx Hy. rewrite Hout_pix by assumption. apply over_transparent.
    unfold image.RGBAAt. destruct (image.In _ _); [apply Hvalid|].
    unfold valid_color, image.Transparent. cbn. lia. }
  split; [reflexivity|]. split; [reflexivity|].
  rewrite <- app_assoc. reflexivity.
Qed.

Lemma zoom_in_loads_tile_from_disk_witness :
  let l := mkImageLoc "w" "d" "l" 2 5 1 in
  exists w' a q out,
    onTask env0 (read_task l 9%positive) world_on_disk = Ok tt w' /\
    sent (chan_state 9%positive w') = sent (chan_state 9%positive world_on_disk) ++ [q] /\
    heap world_on_disk !! a = None /\ heap world_on_disk !! q = None /\ a <> q /\
    heap w' = <[q := out]> (<[a := decoded env0 blue512]> (heap world_on_disk)) /\
    image.RGBA_Rect out = image.Rect 0 0 64 64 /\
    (forall x y, 0 <= x < 64 -> 0 <= y < 64 ->
       image.RGBAAt out x y = image.RGBAAt (decoded env0 blue512) (320 + x) (64 + y)) /\
    imageCache w' =
      <[loc500 := mkCachedImage (Some a) true (clock env0 (ticks world_on_disk))]>
        (imageCache world_on_disk) /\
    files (fs w') = files (fs world_on_disk) /\
    calls (fs w') =
      calls (fs world_on_disk) ++ [SysOpen (file_of env0 loc500); SysClose (file_of env0 loc500)].
Proof.
  apply (zoom_in_loads_tile_from_disk env0 world_on_disk (mkImageLoc "w" "d" "l" 2 5 1)
           9%positive blue512).
  - simpl. unfold imageCacheStorageLevel. lia.
  - unfold GoInt.in_range. simpl. lia.
  - unfold GoInt.in_range. simpl. lia.
  - reflexivity.
  - reflexivity.
  - reflexivity.
  - intros x y. unfold valid_color. simpl. lia.
  - unfold world_on_disk. cbn [imageCache]. rewrite map_size_empty.
    unfold imageCacheMaxCache. lia.
  - reflexivity.
Defined.

(** X25. A write at zoom 0 whose storage tile is not resident but is on
    disk as a 512x512 image loads the file in the actor, draws the stamp
    on the decoded raster and makes the tile resident and not synced, with
    the time read as [lastUse]: outside the key's 16x16 cell the resident
    raster is the decoded file. The file itself is not written. (The cache
    is not full.) *)
Theorem stamp_on_tile_from_disk (env : Env) (w : World) (l : imageLoc) (rt : option chan)
    (b : ptr) (src r : image.RGBA) :
  S_ l = 0 ->
  let rl := storageLoc l (X_ l / 32) (Z_ l / 32) in
  let ix := X_ l mod 32 in
  let iz := Z_ l mod 32 in
  let cell := image.Rect (ix * 16) (iz * 16) (ix * 16 + 16) (iz * 16 + 16) in
  imageCache w !! rl = None ->
  files (fs w) !! file_of env rl = Some (PNG r) ->
  image.RGBA_Rect r = image.Rect 0 0 512 512 ->
  heap w !! b = Some src ->
  image.RGBA_Rect src = image.Rect 0 0 16 16 ->
  Z.of_nat (size (imageCache w)) <= imageCacheMaxCache ->
  exists w' a tile',
    onTask env (mkImageTask l (Some b) rt) w = Ok tt w' /\
    heap w !! a = None /\
    heap w' = <[a := tile']> (heap w) /\
    image.RGBA_Rect tile' = image.Rect 0 0 512 512 /\
    (forall x y,
       image.RGBAAt tile' x y =
         if image.In (image.mkPoint x y) cell
         then image.RGBAAt src (x - ix * 16) (y - iz * 16)
         else image.RGBAAt (decoded env r) x y) /\
    imageCache w' =
      <[rl := mkCachedImage (Some a) false (clock env (ticks w))]> (imageCache w) /\
    files (fs w') = files (fs w) /\
    calls (fs w') = calls (fs w) ++ [SysOpen (file_of env rl); SysClose (file_of env rl)] /\
    iotasks w' = iotasks w.
Proof.
  intros HS rl ix iz cell Hm Hf Hrect Hb Hsrc Hsz.
  assert (Hix : 0 <= ix < 32) by (apply Z.mod_pos_bound; lia).
  assert (Hiz : 0 <= iz < 32) by (apply Z.mod_pos_bound; lia).
  set (tile := decoded env r).
  assert (Htile : image.RGBA_Rect tile = image.Rect 0 0 512 512).
  { unfold tile, decoded. cbn [image.RGBA_Rect]. rewrite Hrect. reflexivity. }
  destruct (stamp_pixels tile src ix iz Hix Hiz Htile Hsrc) as [Hr Hp].
  fold cell in Hr, Hp.
  set (a := fresh (dom (heap w))).
  assert (Ha : heap w !! a = None) by (apply not_elem_of_dom, is_fresh).
  assert (Hab : a <> b) by (intros E; rewrite E, Hb in Ha; discriminate).
  exists (with_imageCache
            (<[rl := mkCachedImage (Some a) false (clock env (ticks w))]> (imageCache w))
            (with_heap (<[a := draw.Draw tile cell src image.ZP draw.Src]> (heap w))
               (with_ticks (Datatypes.S (ticks w))
                  (with_fs (fs_call (SysClose (file_of env rl))
                              (fs_call (SysOpen (file_of env rl)) (fs w))) w)))),
         a, (draw.Draw tile cell src image.ZP draw.Src).
  split.
  { unfold onTask, write. mproj. rewrite HS.
    change (0 =? imageCacheStorageLevel) with false.
    change (negb (0 =? 0)) with false. cbv beta iota.
    rewrite icAT_div, icIN_mod. fold ix iz rl.
    rewrite !mul16_small, !add16_small by assumption. fold cell.
    rewrite (bind_Ok _ _ _ _ _ (gets_Ok _ w)). rewrite Hm.
    assert (Hload :
      cacheLoad env (World_ l) (Dimension l) (Layer l) imageCacheStorageLevel
        (X_ l / 32) (Z_ l / 32) w =
      Ok (Some a, None)
         (with_fs (fs_call (SysClose (file_of env rl)) (fs_call (SysOpen (file_of env rl)) (fs w)))
            (with_heap (<[a := tile]> (heap w)) w))).
    { unfold file_of in *. cbn [World_ Dimension Layer S_ X_ Z_ rl storageLoc] in *.
      unfold cacheLoad, Open, Close. munfold. mproj. rewrite Hf. reflexivity. }
    rewrite (bind_Ok _ _ _ _ _ Hload). cbv beta iota.
    munfold. mproj. rewrite evict_not_full by (mproj; exact Hsz).
    mproj. rewrite lookup_insert_eq. mproj.
    rewrite lookup_insert_ne by exact Hab. rewrite Hb. mproj.
    rewrite insert_insert_eq. reflexivity. }
  mproj. split; [exact Ha|]. split; [reflexivity|]. split; [exact Hr|].
  split; [exact Hp|]. split; [reflexivity|]. split; [reflexivity|].
  split; [rewrite <- app_assoc; reflexivity|reflexivity].
Qed.

Lemma stamp_on_tile_from_disk_witness :
  let l := mkImageLoc "w" "d" "l" 0 3 4 in
  let cell := image.Rect (3 mod 32 * 16) (4 mod 32 * 16)
                         (3 mod 32 * 16 + 16) (4 mod 32 * 16 + 16) in
  exists w' a tile',
    onTask env0 (mkImageTask l (Some 1%positive) None) world_on_disk_red = Ok tt w' /\
    heap world_on_disk_red !! a = None /\
    heap w' = <[a := tile']> (heap world_on_disk_red) /\
    image.RGBA_Rect tile' = image.Rect 0 0 512 512 /\
    (forall x y,
       image.RGBAAt tile' x y =
         if image.In (image.mkPoint x y) cell
         then image.RGBAAt red16 (x - 3 mod 32 * 16) (y - 4 mod 32 * 16)
         else image.RGBAAt (decoded env0 blue512) x y) /\
    imageCache w' =
      <[loc500 := mkCachedImage (Some a) false (clock env0 (ticks world_on_disk_red))]>
        (imageCache world_on_disk_red) /\
    files (fs w') = files (fs world_on_disk_red) /\
    calls (fs w') =
      calls (fs world_on_disk_red) ++
      [SysOpen (file_of env0 loc500); SysClose (file_of env0 loc500)] /\
    iotasks w' = iotasks world_on_disk_red.
Proof.
  apply (stamp_on_tile_from_disk env0 world_on_disk_red (mkImageLoc "w" "d" "l" 0 3 4) None
           1%positive red16 blue512).
  - reflexivity.
  - reflexivity.
  - reflexivity.
  - reflexivity.
  - reflexivity.
  - reflexivity.
  - unfold world_on_disk_red. cbn [imageCache]. rewrite map_size_empty.
    unfold imageCacheMaxCache. lia.
Defined.

(** ** Invariant I3: a reply channel gets one answer at most *)




























(** *** Code that answers on one channel *)

























